(** * polanyi/pyscf.py: the surface bridge and the optimisation drivers

    A shallow embedding of [src/polanyi/pyscf.py].  Python floats are IEEE
    binary64 numbers, so they are Rocq's primitive floats; numpy arrays of
    shape (n_atoms, 3) are lists of rows; the file system, the Python
    objects that the module shares by reference (the [OptResults]
    accumulator, the [EnginesWrapper], the engines, the calculators) and the
    process's output streams are fields of an explicit [World] that every
    function threads through an exception monad.

    What the module imports from elsewhere (the evaluators [run_xtb],
    [parse_engrad] and [XTBCalculator], the secular solver [evb_eigenvalues],
    the constant [BOHR_TO_ANGSTROM], pyscf and geomeTRIC) is a field of the
    record [Externals]: every theorem holds for all of them.  An external
    optimiser is a finite interaction strategy that queries the bridge.

    The [World] also carries a ghost [trace]: the calls that cross the
    module's boundary, in program order.  Nothing reads it; it is there so
    that statements about what is handed to a collaborator, and when, can
    be written down. *)

From Stdlib Require Import ZArith String List.
From Stdlib Require Import Floats.PrimFloat.
From stdpp Require Import base option list gmap strings pretty.

Local Open Scope string_scope.
Local Open Scope Z_scope.
Local Open Scope list_scope.

(** ** Values *)

Abbreviation bytes := (list Byte.byte).
Abbreviation Path := (list string).
Abbreviation loc := positive.

(** A numpy array of shape (n, 3): a list of rows. *)
Definition Array2D : Type := list (list float).

(** [a * c] for an array [a] and a scalar [c]: element-wise product. *)
Definition array_mul (a : Array2D) (c : float) : Array2D :=
  map (map (fun x => PrimFloat.mul x c)) a.

(** The Python exceptions that the module raises, catches or lets through. *)
Inductive exn : Type :=
| IndexError
| NameError (name : string)
| UnboundLocalError (name : string)
| AttributeError (name : string)
| FileExistsError (p : Path)
| FileNotFoundError (p : Path)
| NotADirectoryError (p : Path)
| IsADirectoryError (p : Path)
| NotImplementedError (msg : string)
| NotConvergedError (msg : string)
| ExternalError (msg : string).

Inductive Outcome (A : Type) : Type :=
| Return (a : A)
| Raise (e : exn).
Arguments Return {A} a.
Arguments Raise {A} e.

Definition is_Return {A} (o : Outcome A) : bool :=
  match o with Return _ => true | Raise _ => false end.

(** Python's [seq[i]] for an integer [i]: a negative index counts from the
    end, an index out of range raises IndexError. *)
Definition py_index {A} (l : list A) (i : Z) : Outcome A :=
  let n := Z.of_nat (length l) in
  let j := if i <? 0 then i + n else i in
  if (j <? 0) || (n <=? j) then Raise IndexError
  else match l !! Z.to_nat j with
       | Some x => Return x
       | None => Raise IndexError
       end.

(** [l[-1] += d] on a list of floats: IndexError on the empty list. *)
Definition iadd_last (l : list float) (d : float) : Outcome (list float) :=
  match py_index l (-1) with
  | Return x => Return (<[Nat.pred (length l) := PrimFloat.add x d]> l)
  | Raise e => Raise e
  end.

(** [OptResults]: the dataclass of six lists and two strings. *)
Record OptResults : Type := mkOptResults {
  coordinates : list Array2D;
  energies_diabatic : list (list float);
  energies_adiabatic : list (list float);
  gradients_diabatic : list (list Array2D);
  gradients_adiabatic : list (list Array2D);
  indices : list (list Z);
  stdout : string;
  stderr : string
}.

(** [OptResults()]: every field from its default factory. *)
Definition OptResults_new : OptResults :=
  mkOptResults [] [] [] [] [] [] "" "".

(** ** The file system

    A location is the list of the components of a resolved absolute path;
    the root is the empty list and is always a directory.  Permissions are
    not modelled. *)

Inductive node : Type :=
| Dir
| File (content : bytes).

Abbreviation FS := (gmap (list string) node).

Definition node_at (fs : FS) (p : Path) : option node :=
  match p with
  | [] => Some Dir
  | _ => fs !! p
  end.

Definition parent (p : Path) : Path := removelast p.

(** [p / name] *)
Definition joinpath (p : Path) (name : string) : Path := p ++ [name].

(** [f"{p}{suffix}"]: the suffix is glued to the last component. *)
Definition path_suffix (p : Path) (suffix : string) : Path :=
  match reverse p with
  | [] => [suffix]
  | x :: r => reverse r ++ [x +:+ suffix]
  end.

(** [Path.exists()], [os.path.exists] *)
Definition path_exists (fs : FS) (p : Path) : bool :=
  match node_at fs p with Some _ => true | None => false end.

(** [Path.mkdir(exist_ok=True)]: an existing directory is left alone, an
    existing file or a missing parent raises. *)
Definition mkdir_exist_ok (p : Path) (fs : FS) : Outcome FS :=
  match node_at fs p with
  | Some Dir => Return fs
  | Some (File _) => Raise (FileExistsError p)
  | None =>
      match node_at fs (parent p) with
      | Some Dir => Return (<[p := Dir]> fs)
      | Some (File _) => Raise (NotADirectoryError p)
      | None => Raise (FileNotFoundError p)
      end
  end.

(** [Path.mkdir(exist_ok=True, parents=True)] of [target]: the missing
    ancestors are created first, outermost first.  An error names
    [target], the directory that was asked for. *)
Fixpoint mkdir_prefixes (target done todo : Path) (fs : FS) : Outcome FS :=
  match todo with
  | [] => Return fs
  | c :: rest =>
      let p := done ++ [c] in
      match node_at fs p with
      | Some Dir => mkdir_prefixes target p rest fs
      | Some (File _) =>
          match rest with
          | [] => Raise (FileExistsError target)
          | _ => Raise (NotADirectoryError target)
          end
      | None => mkdir_prefixes target p rest (<[p := Dir]> fs)
      end
  end.

Definition mkdir_parents_exist_ok (p : Path) (fs : FS) : Outcome FS :=
  mkdir_prefixes p [] p fs.

(** [with open(p, "wb") as f: f.write(content)] *)
Definition write_bytes (p : Path) (content : bytes) (fs : FS) : Outcome FS :=
  match node_at fs (parent p) with
  | Some Dir =>
      match node_at fs p with
      | Some Dir => Raise (IsADirectoryError p)
      | _ => Return (<[p := File content]> fs)
      end
  | Some (File _) => Raise (NotADirectoryError p)
  | None => Raise (FileNotFoundError p)
  end.

(** What is left of [fs] once everything at or below [p] is gone. *)
Definition remove_tree (p : Path) (fs : FS) : FS :=
  filter (fun kv => ¬ p `prefix_of` kv.1) fs.

(** [os.remove(p)] *)
Definition os_remove (p : Path) (fs : FS) : Outcome FS :=
  match node_at fs p with
  | Some (File _) => Return (delete p fs)
  | Some Dir => Raise (IsADirectoryError p)
  | None => Raise (FileNotFoundError p)
  end.

(** [shutil.rmtree(p)] *)
Definition shutil_rmtree (p : Path) (fs : FS) : Outcome FS :=
  match node_at fs p with
  | Some Dir => Return (remove_tree p fs)
  | Some (File _) => Raise (NotADirectoryError p)
  | None => Raise (FileNotFoundError p)
  end.

(** [TemporaryDirectory.cleanup()]: removes the tree; a directory that is
    already gone is not an error. *)
Definition tempdir_cleanup (p : Path) (fs : FS) : Outcome FS :=
  match node_at fs p with
  | Some Dir => Return (remove_tree p fs)
  | Some (File _) => Raise (NotADirectoryError p)
  | None => Return fs
  end.

(** [os.mkdir(p)], as [tempfile.mkdtemp] calls it. *)
Definition os_mkdir (p : Path) (fs : FS) : Outcome FS :=
  match node_at fs p with
  | Some _ => Raise (FileExistsError p)
  | None =>
      match node_at fs (parent p) with
      | Some Dir => Return (<[p := Dir]> fs)
      | Some (File _) => Raise (NotADirectoryError p)
      | None => Raise (FileNotFoundError p)
      end
  end.

(** ** The world, and the monad of effects *)

(** pyscf's [Mole] (a geometry, as a value), an xtb-python calculator, the
    user's per-step callback, and the values of keyword dictionaries that
    the module only passes on. *)
Class Foreign : Type := {
  Mole : Type;
  XTBCalculator : Type;
  Callback : Type;
  Opaque : Type
}.

Section Model.

Context `{Foreign}.

(** [xcontrol_keywords]: a mapping from str to list of str. *)
Definition XControl : Type := gmap string (list string).

(** [Optional[Union[str, PathLike]]] under the [Some]. *)
Inductive PathLike : Type :=
| StrPath (s : string)
| PathObj (p : Path).

(** A value of [conv_params] or [kwargs]. *)
Inductive Any : Type :=
| AnyPath (p : Path)
| AnyOpaque (o : Opaque).

(** The engine that [ConicalIntersection(M, engines, sigma, alpha)] builds,
    with the attributes [optimize_ci] sets on it afterwards. *)
Record CIEngine : Type := mkCIEngine {
  ci_M : Mole;
  ci_engines : loc;
  ci_sigma : float;
  ci_alpha : float;
  ci_maxsteps : option Z;
  ci_mol : option Mole;
  ci_assert_convergence : option bool
}.

(** The Python objects that are shared by reference.  [id(o)] is the
    location of [o]. *)
Inductive pyobj : Type :=
| PyOptResults (r : OptResults)
| PyList (items : list loc)
| PyDict (entries : gmap loc loc)
| PyEnginesWrapper (engines : loc)
| PyPySCFEngine (scanner : nat) (M : Mole) (callback : option Callback)
| PyConicalIntersection (e : CIEngine)
| PyCalculator (c : XTBCalculator)
| PyGradScanner (atmlst : option (list Z)).

(** The calls that leave the module, as the ghost trace records them; a call
    of an evaluator that gives back an energy and a gradient is recorded
    with what it gave back. *)
Inductive Event : Type :=
| EvBridge (mol : Mole)
| EvRunXtb (elements : list Z) (coordinates : Array2D) (path : Path)
    (keywords : gset string) (xcontrol_keywords : option XControl)
| EvParseEngrad (path : Path) (result : Outcome (float * Array2D))
| EvSetCoordinates (calculator : loc) (coordinates : Array2D)
| EvSp (calculator : loc) (result : Outcome (float * Array2D))
| EvSolver (energies : list float) (gradients : list Array2D) (coupling : float)
| EvOptimizer (name : string)
| EvLogNote (msg : string).

Record World : Type := mkWorld {
  fs : FS;
  heap : gmap loc pyobj;
  trace : list Event;
  sys_stdout : string;
  sys_stderr : string
}.

Definition set_fs (f : FS) (w : World) : World :=
  mkWorld f (heap w) (trace w) (sys_stdout w) (sys_stderr w).
Definition set_heap (h : gmap loc pyobj) (w : World) : World :=
  mkWorld (fs w) h (trace w) (sys_stdout w) (sys_stderr w).
Definition add_event (e : Event) (w : World) : World :=
  mkWorld (fs w) (heap w) (trace w ++ [e]) (sys_stdout w) (sys_stderr w).
Definition set_streams (out err : string) (w : World) : World :=
  mkWorld (fs w) (heap w) (trace w) out err.

(** A computation: it returns or raises, and leaves a world behind in both
    cases. *)
Definition M (A : Type) : Type := World -> Outcome A * World.

Definition ret {A} (a : A) : M A := fun w => (Return a, w).
Definition raise {A} (e : exn) : M A := fun w => (Raise e, w).
Definition bind {A B} (c : M A) (k : A -> M B) : M B :=
  fun w =>
    match c w with
    | (Return a, w') => k a w'
    | (Raise e, w') => (Raise e, w')
    end.

Notation "x <- c ;; k" := (bind c (fun x => k))
  (at level 100, c at next level, right associativity).
Notation "'let*' p ':=' c 'in' k" := (bind c (fun x => match x with p => k end))
  (at level 100, p pattern, c at next level, right associativity).
Notation "c ;;; k" := (bind c (fun _ => k))
  (at level 100, right associativity).

(** A pure step that may raise. *)
Definition lift {A} (o : Outcome A) : M A := fun w => (o, w).

(** A step of the file system. *)
Definition on_fs (f : FS -> Outcome FS) : M unit :=
  fun w =>
    match f (fs w) with
    | Return fs' => (Return tt, set_fs fs' w)
    | Raise e => (Raise e, w)
    end.

Definition log (e : Event) : M unit := fun w => (Return tt, add_event e w).

(** [try: c  except: handler], where [handler e = None] lets [e] through. *)
Definition try_except {A} (c : M A) (handler : exn -> option (M A)) : M A :=
  fun w =>
    match c w with
    | (Return a, w') => (Return a, w')
    | (Raise e, w') =>
        match handler e with
        | Some h => h w'
        | None => (Raise e, w')
        end
    end.

(** [for x in l: body], the loop's variables threaded as [s]. *)
Fixpoint for_each {A S} (l : list A) (body : A -> S -> M S) (s : S) : M S :=
  match l with
  | [] => ret s
  | x :: l' => s' <- body x s ;; for_each l' body s'
  end.

(** [with redirect_stdout(StringIO()) as stdout,
         redirect_stderr(StringIO()) as stderr: c]
    The streams are put back when the block is left, also by an exception;
    what the two buffers hold is returned with the block's value. *)
Definition with_redirect {A} (c : M A) : M (A * string * string) :=
  fun w =>
    match c (set_streams "" "" w) with
    | (Return a, w') =>
        (Return (a, sys_stdout w', sys_stderr w'),
         set_streams (sys_stdout w) (sys_stderr w) w')
    | (Raise e, w') => (Raise e, set_streams (sys_stdout w) (sys_stderr w) w')
    end.

(** *** Objects *)

(** A new object: its location is one the heap does not use. *)
Definition alloc (o : pyobj) : M loc :=
  fun w =>
    let l := fresh (dom (heap w)) in
    (Return l, set_heap (<[l := o]> (heap w)) w).

Definition get_obj (l : loc) : M pyobj :=
  fun w =>
    match heap w !! l with
    | Some o => (Return o, w)
    | None => (Raise (AttributeError "dangling reference"), w)
    end.

Definition put_obj (l : loc) (o : pyobj) : M unit :=
  fun w => (Return tt, set_heap (<[l := o]> (heap w)) w).

(** ** The engines wrapper *)

(** [EnginesWrapper(engine_list)]: [self.engines = engine_list], the list
    object itself. *)
Definition EnginesWrapper_init (engine_list : loc) : M loc :=
  alloc (PyEnginesWrapper engine_list).

Definition EnginesWrapper_engines (self : loc) : M (list loc) :=
  o <- get_obj self ;;
  match o with
  | PyEnginesWrapper engines =>
      o' <- get_obj engines ;;
      match o' with
      | PyList items => ret items
      | _ => raise (AttributeError "__getitem__")
      end
  | _ => raise (AttributeError "engines")
  end.

(** [__getitem__]: [self.engines[key]] *)
Definition EnginesWrapper_getitem (self : loc) (key : Z) : M loc :=
  items <- EnginesWrapper_engines self ;;
  lift (py_index items key).

(** [__len__]: [len(self.engines)] *)
Definition EnginesWrapper_len (self : loc) : M Z :=
  items <- EnginesWrapper_engines self ;;
  ret (Z.of_nat (length items)).

(** [__deepcopy__(self, memo)]: a new wrapper around [self.engines], entered
    in [memo] under [id(self)]. *)
Definition EnginesWrapper_deepcopy (self memo : loc) : M loc :=
  o <- get_obj self ;;
  match o with
  | PyEnginesWrapper engines =>
      new_wrapper <- EnginesWrapper_init engines ;;
      m <- get_obj memo ;;
      match m with
      | PyDict entries =>
          put_obj memo (PyDict (<[self := new_wrapper]> entries)) ;;;
          ret new_wrapper
      | _ => raise (AttributeError "__setitem__")
      end
  | _ => raise (AttributeError "engines")
  end.

(** ** The collaborators *)

(** An external optimiser, seen from the module: a finite strategy that asks
    for the energy and gradient at geometries of its choice, may touch the
    file system, print, and update the [mol] attribute of the engine it was
    given, and in the end returns or raises.  It does not catch what a
    query raises. *)
Inductive Optimizer (Q : Type) : Type :=
| OptReturn
| OptRaise (e : exn)
| OptQuery (q : Q) (k : float * Array2D -> Optimizer Q)
| OptFs (f : FS -> FS) (k : Optimizer Q)
| OptPrint (out err : string) (k : Optimizer Q)
| OptSetMol (m : Mole) (k : Optimizer Q).
Arguments OptReturn {Q}.
Arguments OptRaise {Q} e.
Arguments OptQuery {Q} q k.
Arguments OptFs {Q} f k.
Arguments OptPrint {Q} out err k.
Arguments OptSetMol {Q} m k.

(** A gradients object: called on a geometry it gives (energy, gradient);
    [grad_atmlst] is the [atmlst] a scanner made of it starts with. *)
Record Gradients : Type := mkGradients {
  grad_scan : Mole -> M (float * Array2D);
  grad_mol : Mole;
  grad_atmlst : option (list Z)
}.

(** A gradient scanner, an object: its attribute [atmlst] is in the heap,
    at [scanner_self]. *)
Record GScanner : Type := mkGScanner {
  scan : Mole -> M (float * Array2D);
  scanner_mol : Mole;
  scanner_self : loc
}.

(** What [optimize_ci] can tell about a method object: it is a scanner
    already; or it is a gradients object; or its [nuc_grad_method()] gives
    one; or it has no nuclear gradients. *)
Inductive Method : Type :=
| MGradScanner (g : GScanner)
| MGradientsMixin (g : Gradients)
| MNucGradMethod (g : Gradients)
| MOther (descr : string) (mol : Mole).

Record Externals : Type := mkExternals {
  (** polanyi.data, polanyi.config, pyscf's lib.param and __config__ *)
  BOHR_TO_ANGSTROM : float;
  TMP_DIR : option string;
  TMPDIR : option string;
  INCLUDE_GHOST : bool;
  ASSERT_CONV : bool;
  (** the process and Python's builtins *)
  module_file : Path;
  cwd : Path;
  resolve : string -> Path;
  str_strip : string -> string;
  str_lower : string -> string;
  mkdtemp_name : option string -> FS -> Path;
  mktemp_name : option string -> FS -> Path;
  (** pyscf's Mole *)
  atom_charges : Mole -> list Z;
  atom_coords : Mole -> Array2D;
  mol_symmetry : Mole -> bool;
  mol_pin_symmetry : Mole -> Mole;
  Mole_build : Z -> list (string * list float) -> Outcome Mole;
  (** polanyi.xtb, polanyi.evb, polanyi.utils *)
  run_xtb : list Z -> Array2D -> Path -> gset string -> option XControl ->
            FS -> Outcome unit * FS;
  parse_engrad : Path -> FS -> Outcome (float * Array2D);
  calc_set_coordinates : XTBCalculator -> Array2D -> XTBCalculator;
  calc_sp : XTBCalculator -> Outcome (float * Array2D) * XTBCalculator;
  evb_eigenvalues : list float -> list Array2D -> float ->
                    Outcome (list float * list Array2D * list Z);
  convert_elements_symbols : list (Z + string) -> Outcome (list string);
  convert_elements_numbers : list string -> Outcome (list Z);
  (** pyscf.geomopt and geomeTRIC *)
  berny_solver_optimize :
    Mole -> Z -> option Callback -> gmap string Any -> Optimizer Mole;
  geometric_solver_optimize :
    Mole -> Z -> option Callback -> gmap string Any -> Optimizer Mole;
  run_optimizer :
    gmap loc pyobj -> loc -> Path -> option Any -> gmap string Any ->
    Optimizer (Z * Mole)
}.

Context (X : Externals).

(** [Path(path)] *)
Definition Path_of (path : PathLike) : Path :=
  match path with
  | StrPath s => resolve X s
  | PathObj p => p
  end.

(** [if path:] *)
Definition path_truthy (path : option PathLike) : bool :=
  match path with
  | None => false
  | Some (StrPath s) => negb (String.eqb s "")
  | Some (PathObj _) => true
  end.

(** [set([keyword.strip().lower() for keyword in keywords])], after
    [if keywords is None: keywords = []]. *)
Definition normalize_keywords (keywords : option (list string)) : gset string :=
  let keywords := default [] keywords in
  list_to_set (map (fun keyword => str_lower X (str_strip X keyword)) keywords).

(** [TemporaryDirectory(dir=config.TMP_DIR)]: the directory is made under
    the name tempfile settles on; [.name] is returned.  The finalizer that
    removes the directory of an object dropped without [cleanup()] is not
    followed: here a directory stays until [cleanup()] is called. *)
Definition TemporaryDirectory : M Path :=
  fun w =>
    let name := mkdtemp_name X (TMP_DIR X) (fs w) in
    match os_mkdir name (fs w) with
    | Return fs' => (Return name, set_fs fs' w)
    | Raise e => (Raise e, w)
    end.

Definition call_run_xtb (elements : list Z) (coordinates : Array2D)
    (path : Path) (keywords : gset string)
    (xcontrol_keywords : option XControl) : M unit :=
  log (EvRunXtb elements coordinates path keywords xcontrol_keywords) ;;;
  fun w =>
    let '(r, fs') :=
      run_xtb X elements coordinates path keywords xcontrol_keywords (fs w) in
    (r, set_fs fs' w).

Definition call_parse_engrad (path : Path) : M (float * Array2D) :=
  fun w =>
    let r := parse_engrad X path (fs w) in
    (r, add_event (EvParseEngrad path r) w).

Definition call_evb_eigenvalues (energies : list float)
    (gradients : list Array2D) (coupling : float)
    : M (list float * list Array2D * list Z) :=
  log (EvSolver energies gradients coupling) ;;;
  lift (evb_eigenvalues X energies gradients coupling).

(** [calculator.coordinates = coordinates].  The annotation of
    [calculators] promises calculators; a reference to anything else
    raises here. *)
Definition calculator_set_coordinates (calculator : loc)
    (coordinates : Array2D) : M unit :=
  o <- get_obj calculator ;;
  match o with
  | PyCalculator c =>
      log (EvSetCoordinates calculator coordinates) ;;;
      put_obj calculator (PyCalculator (calc_set_coordinates X c coordinates))
  | _ => raise (AttributeError "coordinates")
  end.

(** [calculator.sp(return_gradient=True)] *)
Definition calculator_sp (calculator : loc) : M (float * Array2D) :=
  o <- get_obj calculator ;;
  match o with
  | PyCalculator c =>
      let '(r, c') := calc_sp X c in
      log (EvSp calculator r) ;;;
      put_obj calculator (PyCalculator c') ;;;
      lift r
  | _ => raise (AttributeError "sp")
  end.

(** ** The trajectory accumulator *)

Definition append_coordinates (x : Array2D) (r : OptResults) : OptResults :=
  mkOptResults (coordinates r ++ [x]) (energies_diabatic r)
    (energies_adiabatic r) (gradients_diabatic r) (gradients_adiabatic r)
    (indices r) (stdout r) (stderr r).
Definition append_energies_diabatic (x : list float) (r : OptResults) : OptResults :=
  mkOptResults (coordinates r) (energies_diabatic r ++ [x])
    (energies_adiabatic r) (gradients_diabatic r) (gradients_adiabatic r)
    (indices r) (stdout r) (stderr r).
Definition append_energies_adiabatic (x : list float) (r : OptResults) : OptResults :=
  mkOptResults (coordinates r) (energies_diabatic r)
    (energies_adiabatic r ++ [x]) (gradients_diabatic r) (gradients_adiabatic r)
    (indices r) (stdout r) (stderr r).
Definition append_gradients_diabatic (x : list Array2D) (r : OptResults) : OptResults :=
  mkOptResults (coordinates r) (energies_diabatic r)
    (energies_adiabatic r) (gradients_diabatic r ++ [x]) (gradients_adiabatic r)
    (indices r) (stdout r) (stderr r).
Definition append_gradients_adiabatic (x : list Array2D) (r : OptResults) : OptResults :=
  mkOptResults (coordinates r) (energies_diabatic r)
    (energies_adiabatic r) (gradients_diabatic r) (gradients_adiabatic r ++ [x])
    (indices r) (stdout r) (stderr r).
Definition append_indices (x : list Z) (r : OptResults) : OptResults :=
  mkOptResults (coordinates r) (energies_diabatic r)
    (energies_adiabatic r) (gradients_diabatic r) (gradients_adiabatic r)
    (indices r ++ [x]) (stdout r) (stderr r).
Definition set_stdout (s : string) (r : OptResults) : OptResults :=
  mkOptResults (coordinates r) (energies_diabatic r)
    (energies_adiabatic r) (gradients_diabatic r) (gradients_adiabatic r)
    (indices r) s (stderr r).
Definition set_stderr (s : string) (r : OptResults) : OptResults :=
  mkOptResults (coordinates r) (energies_diabatic r)
    (energies_adiabatic r) (gradients_diabatic r) (gradients_adiabatic r)
    (indices r) (stdout r) s.

(** [results.<field> ...]: an update of the object [results] refers to. *)
Definition update_results (results : loc) (f : OptResults -> OptResults) : M unit :=
  o <- get_obj results ;;
  match o with
  | PyOptResults r => put_obj results (PyOptResults (f r))
  | _ => raise (AttributeError "OptResults")
  end.

(** The six appends under [# Store results]. *)
Definition store_results (results : loc) (coordinates : Array2D)
    (energies energies_ad : list float) (gradients gradients_ad : list Array2D)
    (indices : list Z) : M unit :=
  update_results results (append_coordinates coordinates) ;;;
  update_results results (append_energies_diabatic energies) ;;;
  update_results results (append_energies_adiabatic energies_ad) ;;;
  update_results results (append_gradients_diabatic gradients) ;;;
  update_results results (append_gradients_adiabatic gradients_ad) ;;;
  update_results results (append_indices indices).

(** ** The surface bridges *)

(** Lines 94-104 (and 175-185): where the evaluators run.  Without a [path]
    one temporary directory per topology is made ([temp_dir.name] is
    absolute, so [path / temp_dir.name] is that name); with one, the
    directories are [path / "0"], [path / "1"], ... *)
Definition working_directories (path : option PathLike) (n : nat)
    : M (list Path * list Path * bool) :=
  match path with
  | None =>
      temp_dirs <-
        for_each (seq 0 n)
          (fun _ acc => name <- TemporaryDirectory ;; ret (acc ++ [name])) [] ;;
      ret (temp_dirs, temp_dirs, true)
  | Some path =>
      let path := Path_of path in
      ret (map (fun i : nat => joinpath path (pretty i)) (seq 0 n), [], false)
  end.

(** Lines 112-125 (and 194-207): the body of the loop over
    [zip(topologies, xtb_paths)]. *)
Definition evaluate_state (elements : list Z) (coordinates : Array2D)
    (keywords : gset string) (xcontrol_keywords : option XControl)
    (item : bytes * Path) (s : list float * list Array2D)
    : M (list float * list Array2D) :=
  let '(topology, xtb_path) := item in
  let '(energies, gradients) := s in
  on_fs (mkdir_exist_ok xtb_path) ;;;
  topo_exists <-
    (fun w => (Return (path_exists (fs w) (joinpath xtb_path "gfnff_topo")), w)) ;;
  (if negb topo_exists
   then on_fs (write_bytes (joinpath xtb_path "gfnff_topo") topology)
   else ret tt) ;;;
  call_run_xtb elements coordinates xtb_path keywords xcontrol_keywords ;;;
  let* (energy, gradient) := call_parse_engrad (joinpath xtb_path "xtb.engrad") in
  ret (energies ++ [energy], gradients ++ [gradient]).

(** [for temp_dir in temp_dirs: temp_dir.cleanup()] *)
Definition cleanup_temp_dirs (temp_dirs : list Path) : M unit :=
  for_each temp_dirs (fun temp_dir _ => on_fs (tempdir_cleanup temp_dir)) tt.

Definition e_g_function (mol : Mole) (topologies : list bytes) (results : loc)
    (keywords : option (list string)) (xcontrol_keywords : option XControl)
    (e_shift coupling : float) (path : option PathLike)
    : M (float * Array2D) :=
  log (EvBridge mol) ;;;
  let keywords := normalize_keywords keywords ∪ {["--grad"]} in
  let* (xtb_paths, temp_dirs, cleanup) :=
    working_directories path (length topologies) in
  let elements := atom_charges X mol in
  let coordinates := array_mul (atom_coords X mol) (BOHR_TO_ANGSTROM X) in
  let* (energies, gradients) :=
    for_each (zip topologies xtb_paths)
      (evaluate_state elements coordinates keywords xcontrol_keywords) ([], []) in
  energies <- lift (iadd_last energies e_shift) ;;
  let* (energies_ad, gradients_ad, indices) :=
    call_evb_eigenvalues energies gradients coupling in
  (if cleanup then cleanup_temp_dirs temp_dirs else ret tt) ;;;
  store_results results coordinates energies energies_ad gradients gradients_ad
    indices ;;;
  e <- lift (py_index energies_ad 1) ;;
  g <- lift (py_index gradients_ad 1) ;;
  ret (e, g).

(** [e_g_function_ci] has no [coupling] parameter and the module no global
    of that name: evaluating the solver's argument raises NameError. *)
Definition e_g_function_ci (mol : Mole) (topologies : list bytes) (results : loc)
    (keywords : option (list string)) (xcontrol_keywords : option XControl)
    (e_shift : float) (path : option PathLike)
    : M (float * Array2D) :=
  log (EvBridge mol) ;;;
  let keywords := normalize_keywords keywords ∪ {["--grad"]} in
  let* (xtb_paths, temp_dirs, cleanup) :=
    working_directories path (length topologies) in
  let elements := atom_charges X mol in
  let coordinates := array_mul (atom_coords X mol) (BOHR_TO_ANGSTROM X) in
  let* (energies, gradients) :=
    for_each (zip topologies xtb_paths)
      (evaluate_state elements coordinates keywords xcontrol_keywords) ([], []) in
  energies <- lift (iadd_last energies e_shift) ;;
  let* (energies_ad, gradients_ad, indices) :=
    (raise (NameError "coupling") : M (list float * list Array2D * list Z)) in
  (if cleanup then cleanup_temp_dirs temp_dirs else ret tt) ;;;
  store_results results coordinates energies energies_ad gradients gradients_ad
    indices ;;;
  e <- lift (py_index energies_ad 1) ;;
  g <- lift (py_index gradients_ad 1) ;;
  ret (e, g).

(** Lines 261-264: the body of the loop over [calculators]. *)
Definition evaluate_calculator (coordinates : Array2D) (calculator : loc)
    (s : list float * list Array2D) : M (list float * list Array2D) :=
  let '(energies, gradients) := s in
  calculator_set_coordinates calculator coordinates ;;;
  let* (energy, gradient) := calculator_sp calculator in
  ret (energies ++ [energy], gradients ++ [gradient]).

Definition e_g_function_python (mol : Mole) (calculators : list loc)
    (results : loc) (e_shift coupling : float) (path : option PathLike)
    : M (float * Array2D) :=
  log (EvBridge mol) ;;;
  let path := match path with None => cwd X | Some path => Path_of path end in
  let coordinates := array_mul (atom_coords X mol) (BOHR_TO_ANGSTROM X) in
  let* (energies, gradients) :=
    for_each calculators (evaluate_calculator coordinates) ([], []) in
  energies <- lift (iadd_last energies e_shift) ;;
  let* (energies_ad, gradients_ad, indices) :=
    call_evb_eigenvalues energies gradients coupling in
  store_results results coordinates energies energies_ad gradients gradients_ad
    indices ;;;
  e <- lift (py_index energies_ad 1) ;;
  g <- lift (py_index gradients_ad 1) ;;
  ret (e, g).

Definition e_g_function_ci_python (mol : Mole) (calculator : loc)
    (e_shift : float) (path : option PathLike) : M (float * Array2D) :=
  log (EvBridge mol) ;;;
  let path := match path with None => cwd X | Some path => Path_of path end in
  let coordinates := array_mul (atom_coords X mol) (BOHR_TO_ANGSTROM X) in
  calculator_set_coordinates calculator coordinates ;;;
  let* (energy, gradient) := calculator_sp calculator in
  let energy := PrimFloat.add energy e_shift in
  ret (energy, gradient).

(** ** Driving an optimiser *)

Definition print_streams (out err : string) : M unit :=
  fun w =>
    (Return tt, set_streams (sys_stdout w +:+ out) (sys_stderr w +:+ err) w).

(** The optimiser runs: each query is answered by [eval], and what [eval]
    raises ends the run. *)
Fixpoint drive {Q} (eval : Q -> M (float * Array2D)) (set_mol : Mole -> M unit)
    (o : Optimizer Q) : M unit :=
  match o with
  | OptReturn => ret tt
  | OptRaise e => raise e
  | OptQuery q k => r <- eval q ;; drive eval set_mol (k r)
  | OptFs f k =>
      (fun w => (Return tt, set_fs (f (fs w)) w)) ;;; drive eval set_mol k
  | OptPrint out err k => print_streams out err ;;; drive eval set_mol k
  | OptSetMol m k => set_mol m ;;; drive eval set_mol k
  end.

(** [as_pyscf_method(mol, f)]: an object with a [nuc_grad_method]. *)
Definition as_pyscf_method (mol : Mole) (f : Mole -> M (float * Array2D)) : Method :=
  MNucGradMethod (mkGradients f mol None).

(** [method.mol] *)
Definition method_mol (method : Method) : Mole :=
  match method with
  | MGradScanner g => scanner_mol g
  | MGradientsMixin g | MNucGradMethod g => grad_mol g
  | MOther _ mol => mol
  end.

(** The gradients a method has, if it has any: the function and the
    molecule an optimiser of pyscf works with. *)
Definition method_gradients (method : Method) : Outcome Gradients :=
  match method with
  | MGradScanner g => Return (mkGradients (scan g) (scanner_mol g) None)
  | MGradientsMixin g => Return g
  | MNucGradMethod g => Return g
  | MOther descr _ =>
      Raise (NotImplementedError
               ("Nuclear gradients of " +:+ descr +:+ " not available"))
  end.

(** [g.as_scanner()]: a new scanner object. *)
Definition as_scanner (g : Gradients) : M GScanner :=
  self <- alloc (PyGradScanner (grad_atmlst g)) ;;
  ret (mkGScanner (grad_scan g) (grad_mol g) self).

(** Lines 572-579: the scanner of a method, the method itself when it is
    one, or NotImplementedError. *)
Definition scanner_of_method (method : Method) : M GScanner :=
  match method with
  | MGradScanner g => ret g
  | MGradientsMixin g => as_scanner g
  | MNucGradMethod g => as_scanner g
  | MOther descr _ =>
      raise (NotImplementedError
               ("Nuclear gradients of " +:+ descr +:+ " not available"))
  end.

(** The module a solver name selects. *)
Inductive PyscfSolver : Type :=
| berny_solver
| geometric_solver.

(** [pyscf_solver.optimize(method, maxsteps=maxsteps, callback=callback,
    **conv_params)]; what it returns is dropped by every caller. *)
Definition pyscf_optimize (pyscf_solver : PyscfSolver) (method : Method)
    (maxsteps : Z) (callback : option Callback) (conv_params : gmap string Any)
    : M unit :=
  g <- lift (method_gradients method) ;;
  match pyscf_solver with
  | berny_solver =>
      log (EvOptimizer "berny_solver.optimize") ;;;
      drive (grad_scan g) (fun _ => ret tt)
        (berny_solver_optimize X (grad_mol g) maxsteps callback conv_params)
  | geometric_solver =>
      log (EvOptimizer "geometric_solver.optimize") ;;;
      drive (grad_scan g) (fun _ => ret tt)
        (geometric_solver_optimize X (grad_mol g) maxsteps callback conv_params)
  end.

(** Lines 353-356: [None] is the local [pyscf_solver] left unbound. *)
Definition select_solver (solver : string) : option PyscfSolver :=
  if String.eqb solver "pyberny" then Some berny_solver
  else if String.eqb solver "geometric" then Some geometric_solver
  else None.

Definition get_pyscf_mole (elements : list (Z + string)) (coordinates : Array2D)
    : M Mole :=
  elements <- lift (convert_elements_symbols X elements) ;;
  let atoms := zip elements coordinates in
  numbers <- lift (convert_elements_numbers X elements) ;;
  let n_electrons := foldl Z.add 0 numbers in
  lift (Mole_build X (n_electrons mod 2) atoms).

(** ** The transition-state drivers *)

Definition ts_from_gfnff (elements : list (Z + string)) (coordinates : Array2D)
    (topologies : list bytes) (keywords : option (list string))
    (xcontrol_keywords : option XControl) (e_shift coupling : float)
    (maxsteps : Z) (callback : option Callback)
    (conv_params : option (gmap string Any)) (solver : string)
    (path : option PathLike) : M loc :=
  let conv_params := default ∅ conv_params in
  path <-
    match path with
    | Some p =>
        if path_truthy path
        then on_fs (mkdir_exist_ok (Path_of p)) ;;; ret (Some (PathObj (Path_of p)))
        else ret path
    | None => ret path
    end ;;
  let keywords := normalize_keywords keywords ∪ {["--gfnff"]} in
  results <- alloc (PyOptResults OptResults_new) ;;
  mole <- get_pyscf_mole elements coordinates ;;
  let e_g_partial := fun mol =>
    e_g_function mol topologies results (Some (base.elements keywords))
      xcontrol_keywords e_shift coupling path in
  let pyscf_solver := select_solver solver in
  let* (_, out, err) :=
    with_redirect
      match pyscf_solver with
      | None => raise (UnboundLocalError "pyscf_solver")
      | Some pyscf_solver =>
          pyscf_optimize pyscf_solver (as_pyscf_method mole e_g_partial)
            maxsteps callback conv_params
      end in
  update_results results (set_stdout out) ;;;
  update_results results (set_stderr err) ;;;
  ret results.

Definition ts_from_gfnff_python (elements : list (Z + string))
    (coordinates : Array2D) (calculators : list loc) (e_shift coupling : float)
    (maxsteps : Z) (callback : option Callback)
    (conv_params : option (gmap string Any)) (solver : string)
    (path : option PathLike) : M loc :=
  let conv_params := default ∅ conv_params in
  path <-
    match path with
    | None => ret (cwd X)
    | Some p => on_fs (mkdir_exist_ok (Path_of p)) ;;; ret (Path_of p)
    end ;;
  results <- alloc (PyOptResults OptResults_new) ;;
  mole <- get_pyscf_mole elements coordinates ;;
  let e_g_partial := fun mol =>
    e_g_function_python mol calculators results e_shift coupling
      (Some (PathObj path)) in
  let pyscf_solver := select_solver solver in
  let* (_, out, err) :=
    with_redirect
      match pyscf_solver with
      | None => raise (UnboundLocalError "pyscf_solver")
      | Some pyscf_solver =>
          pyscf_optimize pyscf_solver (as_pyscf_method mole e_g_partial)
            maxsteps callback conv_params
      end in
  update_results results (set_stdout out) ;;;
  update_results results (set_stderr err) ;;;
  ret results.

(** As [ts_from_gfnff], but the directory is made with its parents. *)
Definition ts_from_gfnff_ci (elements : list (Z + string)) (coordinates : Array2D)
    (topologies : list bytes) (keywords : option (list string))
    (xcontrol_keywords : option XControl) (e_shift coupling : float)
    (maxsteps : Z) (callback : option Callback)
    (conv_params : option (gmap string Any)) (solver : string)
    (path : option PathLike) : M loc :=
  let conv_params := default ∅ conv_params in
  path <-
    match path with
    | Some p =>
        if path_truthy path
        then on_fs (mkdir_parents_exist_ok (Path_of p)) ;;;
             ret (Some (PathObj (Path_of p)))
        else ret path
    | None => ret path
    end ;;
  let keywords := normalize_keywords keywords ∪ {["--gfnff"]} in
  results <- alloc (PyOptResults OptResults_new) ;;
  mole <- get_pyscf_mole elements coordinates ;;
  let e_g_partial := fun mol =>
    e_g_function mol topologies results (Some (base.elements keywords))
      xcontrol_keywords e_shift coupling path in
  let pyscf_solver := select_solver solver in
  let* (_, out, err) :=
    with_redirect
      match pyscf_solver with
      | None => raise (UnboundLocalError "pyscf_solver")
      | Some pyscf_solver =>
          pyscf_optimize pyscf_solver (as_pyscf_method mole e_g_partial)
            maxsteps callback conv_params
      end in
  update_results results (set_stdout out) ;;;
  update_results results (set_stderr err) ;;;
  ret results.

(** ** The conical-intersection engine *)

(** [np.where(charges != 0)[0]] *)
Definition nonzero_indices (charges : list Z) : list Z :=
  map (fun p : nat * Z => Z.of_nat p.1)
      (filter (fun p : nat * Z => p.2 ≠ 0) (imap pair charges)).

(** [g_scanner.atmlst = l]: an assignment to an attribute of the scanner
    object, which is the caller's own when the method is a scanner. *)
Definition set_atmlst (g_scanner : GScanner) (l : list Z) : M unit :=
  put_obj (scanner_self g_scanner) (PyGradScanner (Some l)).

(** Lines 572-582: the body of the loop over [methods]. *)
Definition collect_scanner (include_ghost : bool) (method : Method)
    (g_scanners : list GScanner) : M (list GScanner) :=
  g_scanner <- scanner_of_method method ;;
  (if negb include_ghost
   then set_atmlst g_scanner (nonzero_indices (atom_charges X (method_mol method)))
   else ret tt) ;;;
  ret (g_scanners ++ [g_scanner]).

(** [geometric_solver.PySCFEngine(g_scanners[i])]: the engine keeps the
    scanner (here: its index) and the molecule [M] built from its [mol]. *)
Definition PySCFEngine_init (g_scanners : list GScanner) (i : nat) : M loc :=
  g <- lift (py_index g_scanners (Z.of_nat i)) ;;
  alloc (PyPySCFEngine i (scanner_mol g) None).

(** [engine.M] *)
Definition PySCFEngine_M (engine : loc) : M Mole :=
  o <- get_obj engine ;;
  match o with
  | PyPySCFEngine _ M_ _ => ret M_
  | _ => raise (AttributeError "M")
  end.

(** [engine.callback = callback] *)
Definition PySCFEngine_set_callback (engine : loc) (callback : option Callback)
    : M unit :=
  o <- get_obj engine ;;
  match o with
  | PyPySCFEngine scanner M_ _ => put_obj engine (PyPySCFEngine scanner M_ callback)
  | _ => raise (AttributeError "callback")
  end.

(** Attribute updates of the intersection engine; [mol.copy()] of a
    molecule, which is a value here, is the molecule. *)
Definition update_engine (engine : loc) (f : CIEngine -> CIEngine) : M unit :=
  o <- get_obj engine ;;
  match o with
  | PyConicalIntersection e => put_obj engine (PyConicalIntersection (f e))
  | _ => raise (AttributeError "ConicalIntersection")
  end.

Definition set_ci_maxsteps (n : Z) (e : CIEngine) : CIEngine :=
  mkCIEngine (ci_M e) (ci_engines e) (ci_sigma e) (ci_alpha e) (Some n)
    (ci_mol e) (ci_assert_convergence e).
Definition set_ci_mol (m : Mole) (e : CIEngine) : CIEngine :=
  mkCIEngine (ci_M e) (ci_engines e) (ci_sigma e) (ci_alpha e) (ci_maxsteps e)
    (Some m) (ci_assert_convergence e).
Definition set_ci_assert_convergence (b : bool) (e : CIEngine) : CIEngine :=
  mkCIEngine (ci_M e) (ci_engines e) (ci_sigma e) (ci_alpha e) (ci_maxsteps e)
    (ci_mol e) (Some b).

(** [engine.mol] *)
Definition engine_mol (engine : loc) : M Mole :=
  o <- get_obj engine ;;
  match o with
  | PyConicalIntersection e =>
      match ci_mol e with
      | Some m => ret m
      | None => raise (AttributeError "mol")
      end
  | _ => raise (AttributeError "mol")
  end.

(** A query of the optimiser: surface [key] of the engine's wrapper, at the
    geometry [mol]. *)
Definition ci_query (engine : loc) (g_scanners : list GScanner) (q : Z * Mole)
    : M (float * Array2D) :=
  let '(key, mol) := q in
  o <- get_obj engine ;;
  match o with
  | PyConicalIntersection e =>
      engine_i <- EnginesWrapper_getitem (ci_engines e) key ;;
      o_i <- get_obj engine_i ;;
      match o_i with
      | PyPySCFEngine scanner _ _ =>
          g <- lift (py_index g_scanners (Z.of_nat scanner)) ;;
          scan g mol
      | _ => raise (AttributeError "calc_new")
      end
  | _ => raise (AttributeError "engine_list")
  end.

(** [geometric.optimize.run_optimizer(customengine=engine, input=tmpf,
    constraints=constraints, **kwargs)] *)
Definition call_run_optimizer (engine : loc) (g_scanners : list GScanner)
    (tmpf : Path) (constraints : option Any) (kwargs : gmap string Any) : M unit :=
  log (EvOptimizer "geometric.optimize.run_optimizer") ;;;
  strategy <-
    (fun w => (Return (run_optimizer X (heap w) engine tmpf constraints kwargs), w)) ;;
  drive (ci_query engine g_scanners) (fun m => update_engine engine (set_ci_mol m))
    strategy.

(** Lines 619-623, under [# Remove the temporary files created by
    geomeTRIC]. *)
Definition remove_temporary_files (tmpf : Path) : M unit :=
  optim_xyz <-
    (fun w => (Return (path_exists (fs w) (path_suffix tmpf "_optim.xyz")), w)) ;;
  (if optim_xyz then on_fs (os_remove (path_suffix tmpf "_optim.xyz")) else ret tt) ;;;
  tmp_dir <-
    (fun w => (Return (path_exists (fs w) (path_suffix tmpf ".tmp")), w)) ;;
  (if tmp_dir then on_fs (shutil_rmtree (path_suffix tmpf ".tmp")) else ret tt).

(** [optimize_ci].  A key of [**kwargs] that names one of the function's own
    parameters is not modelled: the parameters are given as such. *)
Definition optimize_ci (methods : list Method)
    (assert_convergence include_ghost : bool) (constraints : option Any)
    (callback : option Callback) (maxsteps : Z) (alpha sigma : float)
    (kwargs : gmap string Any) : M (bool * Mole) :=
  g_scanners <- for_each methods (collect_scanner include_ghost) [] ;;
  tmpf <- (fun w => (Return (mktemp_name X (TMPDIR X) (fs w)), w)) ;;
  engine_1 <- PySCFEngine_init g_scanners 0 ;;
  engine_2 <- PySCFEngine_init g_scanners 1 ;;
  M_ <- PySCFEngine_M engine_1 ;;
  let meci_sigma := sigma in
  let meci_alpha := alpha in
  PySCFEngine_set_callback engine_1 callback ;;;
  engine_list <- alloc (PyList [engine_1; engine_2]) ;;
  engines_wrapper <- EnginesWrapper_init engine_list ;;
  engine <-
    alloc (PyConicalIntersection
             (mkCIEngine M_ engines_wrapper meci_sigma meci_alpha None None None)) ;;
  update_engine engine (set_ci_maxsteps maxsteps) ;;;
  g0 <- lift (py_index g_scanners 0) ;;
  update_engine engine (set_ci_mol (scanner_mol g0)) ;;;
  mol <- engine_mol engine ;;
  (if mol_symmetry X mol
   then update_engine engine (set_ci_mol (mol_pin_symmetry X mol))
   else ret tt) ;;;
  let kwargs :=
    <["logIni" := AnyPath (joinpath (parent (module_file X)) "log.ini")]> kwargs in
  update_engine engine (set_ci_assert_convergence assert_convergence) ;;;
  conv <-
    try_except
      (call_run_optimizer engine g_scanners tmpf constraints kwargs ;;; ret true)
      (fun e =>
         match e with
         | NotConvergedError msg => Some (log (EvLogNote msg) ;;; ret false)
         | _ => None
         end) ;;
  remove_temporary_files tmpf ;;;
  mol <- engine_mol engine ;;
  ret (conv, mol).

Definition ts_from_gfnff_ci_python (elements : list (Z + string))
    (coordinates : Array2D) (calculators : list loc) (e_shift : float)
    (maxsteps : Z) (alpha sigma : float) (callback : option Callback)
    (conv_params : option (gmap string Any)) (path : option PathLike)
    : M Array2D :=
  let conv_params := default ∅ conv_params in
  path <-
    match path with
    | None => ret (cwd X)
    | Some p => on_fs (mkdir_parents_exist_ok (Path_of p)) ;;; ret (Path_of p)
    end ;;
  mole <- get_pyscf_mole elements coordinates ;;
  calculator_0 <- lift (py_index calculators 0) ;;
  let e_g_partial_1 := fun mol =>
    e_g_function_ci_python mol calculator_0 0%float (Some (PathObj path)) in
  calculator_1 <- lift (py_index calculators 1) ;;
  let e_g_partial_2 := fun mol =>
    e_g_function_ci_python mol calculator_1 e_shift (Some (PathObj path)) in
  let* (_, opt_mole) :=
    optimize_ci
      [as_pyscf_method mole e_g_partial_1; as_pyscf_method mole e_g_partial_2]
      (ASSERT_CONV X) (INCLUDE_GHOST X) None callback maxsteps alpha sigma
      conv_params in
  let opt_coordinates := array_mul (atom_coords X opt_mole) (BOHR_TO_ANGSTROM X) in
  ret opt_coordinates.

(** ** Vocabulary of the statements *)

(** What the object at [l] holds, when it is an accumulator. *)
Definition results_at (w : World) (l : loc) : option OptResults :=
  match heap w !! l with
  | Some (PyOptResults r) => Some r
  | _ => None
  end.

(** One entry on each of the six lists. *)
Definition append_record (coordinates : Array2D)
    (energies energies_ad : list float) (gradients gradients_ad : list Array2D)
    (indices : list Z) (r : OptResults) : OptResults :=
  append_indices indices
    (append_gradients_adiabatic gradients_ad
       (append_gradients_diabatic gradients
          (append_energies_adiabatic energies_ad
             (append_energies_diabatic energies
                (append_coordinates coordinates r))))).

(** The (energy, gradient) pairs the evaluators gave back, in the order of
    the calls. *)
Fixpoint evaluator_results (evs : list Event) : list (float * Array2D) :=
  match evs with
  | [] => []
  | EvParseEngrad _ (Return r) :: evs' => r :: evaluator_results evs'
  | EvSp _ (Return r) :: evs' => r :: evaluator_results evs'
  | _ :: evs' => evaluator_results evs'
  end.

(** [ev] is a call of an evaluator, and the coordinates it hands over, if
    any, are [coordinates]. *)
Definition evaluator_event_with (coordinates : Array2D) (ev : Event) : Prop :=
  match ev with
  | EvRunXtb _ c _ _ _ => c = coordinates
  | EvSetCoordinates _ c => c = coordinates
  | EvParseEngrad _ _ => True
  | EvSp _ _ => True
  | _ => False
  end.

(** Lines 127-147 of [e_g_function], which are lines 266-281 of
    [e_g_function_python] but for the step between solver and store. *)
Definition bridge_tail (results : loc) (coordinates : Array2D)
    (cleanup_step : M unit) (e_shift coupling : float)
    (s : list float * list Array2D) : M (float * Array2D) :=
  let '(energies, gradients) := s in
  energies <- lift (iadd_last energies e_shift) ;;
  let* (energies_ad, gradients_ad, indices) :=
    call_evb_eigenvalues energies gradients coupling in
  cleanup_step ;;;
  store_results results coordinates energies energies_ad gradients gradients_ad
    indices ;;;
  e <- lift (py_index energies_ad 1) ;;
  g <- lift (py_index gradients_ad 1) ;;
  ret (e, g).

(** The pair a bridge returns from what the solver gave it. *)
Definition target_state (energies_ad : list float) (gradients_ad : list Array2D)
    : Outcome (float * Array2D) :=
  match py_index energies_ad 1 with
  | Return e =>
      match py_index gradients_ad 1 with
      | Return g => Return (e, g)
      | Raise x => Raise x
      end
  | Raise x => Raise x
  end.

(** A surface bridge with the arguments [functools.partial] binds in the
    drivers: what is left is a function of the geometry. *)
Inductive Bridge : Type :=
| BridgeXtb (topologies : list bytes) (keywords : option (list string))
    (xcontrol_keywords : option XControl) (path : option PathLike)
| BridgePython (calculators : list loc) (path : option PathLike).

Definition e_g_partial (b : Bridge) (results : loc) (e_shift coupling : float)
    (mol : Mole) : M (float * Array2D) :=
  match b with
  | BridgeXtb topologies keywords xcontrol_keywords path =>
      e_g_function mol topologies results keywords xcontrol_keywords e_shift
        coupling path
  | BridgePython calculators path =>
      e_g_function_python mol calculators results e_shift coupling path
  end.

(** One invocation after the other, at the geometries [mols]; an invocation
    that raises ends the sequence, as it ends an optimiser's run. *)
Definition invocations (f : Mole -> M (float * Array2D)) (mols : list Mole)
    : M unit :=
  for_each mols (fun mol _ => _ <- f mol ;; ret tt) tt.

(** The number of bridge invocations a stretch of the trace records. *)
Fixpoint bridge_invocations (evs : list Event) : nat :=
  match evs with
  | [] => 0
  | EvBridge _ :: evs' => S (bridge_invocations evs')
  | _ :: evs' => bridge_invocations evs'
  end.

(** The number of diabatic states a bridge evaluates: one for each
    topology, or for each calculator. *)
Definition n_states (b : Bridge) : nat :=
  match b with
  | BridgeXtb topologies _ _ _ => length topologies
  | BridgePython calculators _ => length calculators
  end.

(** The lengths of the six lists. *)
Definition sizes (r : OptResults) : list nat :=
  [length (coordinates r); length (energies_diabatic r);
   length (energies_adiabatic r); length (gradients_diabatic r);
   length (gradients_adiabatic r); length (indices r)].

(** The auxiliary topology file of a working directory. *)
Definition is_topology_file (q : Path) : Prop := last q = Some "gfnff_topo".

(** Every entry of [f] at a path of [P] is still there in [f'], with the
    same content. *)
Definition keeps (P : Path -> Prop) (f f' : FS) : Prop :=
  forall q n, P q -> f !! q = Some n -> f' !! q = Some n.

(** The assumption on the evaluator: running xtb leaves the entries at the
    paths of [P] as they are. *)
Definition run_xtb_keeps (P : Path -> Prop) : Prop :=
  forall elements coordinates path keywords xcontrol_keywords f r f',
    run_xtb X elements coordinates path keywords xcontrol_keywords f = (r, f') ->
    keeps P f f'.

(** Every list of [r'] starts with the list of [r]: what was recorded is
    still there, unchanged. *)
Definition extends (r r' : OptResults) : Prop :=
  coordinates r `prefix_of` coordinates r' /\
  energies_diabatic r `prefix_of` energies_diabatic r' /\
  energies_adiabatic r `prefix_of` energies_adiabatic r' /\
  gradients_diabatic r `prefix_of` gradients_diabatic r' /\
  gradients_adiabatic r `prefix_of` gradients_adiabatic r' /\
  indices r `prefix_of` indices r'.

(** [en] is [raw] with [d] added to its last entry and to no other. *)
Definition shifted_last (raw : list float) (d : float) (en : list float) : Prop :=
  length en = length raw /\
  (forall i : nat, (S i < length raw)%nat -> en !! i = raw !! i) /\
  exists x, last raw = Some x /\ last en = Some (PrimFloat.add x d).


(** The evaluator an event hands coordinates to, xtb in a directory or a
    calculator, with these coordinates. *)
Definition handed_to (ev : Event) : option ((Path + loc) * Array2D) :=
  match ev with
  | EvRunXtb _ c p _ _ => Some (inl p, c)
  | EvSetCoordinates l c => Some (inr l, c)
  | _ => None
  end.

(** The evaluators of a bridge, in the order of the states, where the
    arguments tell them: xtb in the directories [path / "0"],
    [path / "1"], ..., or the calculators. *)
Definition bridge_evaluators (b : Bridge) : option (list (Path + loc)) :=
  match b with
  | BridgeXtb topologies _ _ (Some p) =>
      Some (map (fun i : nat => inl (joinpath (Path_of p) (pretty i)))
              (seq 0 (length topologies)))
  | BridgeXtb _ _ _ None => None
  | BridgePython calculators _ => Some (map inr calculators)
  end.



(** What a driver raises before it comes to select the solver, if one of
    its first steps fails: the directory of [path], when one is to be
    made, cannot be made, or else the molecule cannot be built. *)
Definition setup_failure (made : option (Outcome FS)) (mole : Outcome Mole)
    : option exn :=
  match made with
  | Some (Raise e) => Some e
  | _ =>
      match mole with
      | Raise e => Some e
      | Return _ => None
      end
  end.

(** [ev] is a call of an evaluator. *)
Definition evaluator_call (ev : Event) : Prop :=
  match ev with
  | EvRunXtb _ _ _ _ _ | EvParseEngrad _ _ | EvSetCoordinates _ _ | EvSp _ _ => True
  | _ => False
  end.

(** What one invocation of a bridge does, whatever its outcome [o]: the
    trace grows by the invocation itself, by calls of the evaluators at
    [co], and by at most one call of the solver, after them, on the
    energies they gave back with [e_shift] added to the last; and either
    no accumulator changes and the invocation raises, or the record of
    this evaluation is appended to [results], nothing else changes in any
    accumulator, and [o] is read off what the solver returned. *)
Definition bridge_spec (results : loc) (mol : Mole) (co : Array2D)
    (e_shift coupling : float) (w : World) (o : Outcome (float * Array2D))
    (w' : World) : Prop :=
  exists evs,
    Forall (evaluator_event_with co) evs /\
    let raw := evaluator_results evs in
    ((trace w' = trace w ++ EvBridge mol :: evs /\
      (forall l, results_at w' l = results_at w l) /\
      is_Return o = false) \/
     (exists en,
        iadd_last (map fst raw) e_shift = Return en /\
        trace w' =
          trace w ++ EvBridge mol :: evs ++ [EvSolver en (map snd raw) coupling] /\
        (((forall l, results_at w' l = results_at w l) /\ is_Return o = false) \/
         (exists en_ad gr_ad idx r,
            evb_eigenvalues X en (map snd raw) coupling =
              Return (en_ad, gr_ad, idx) /\
            results_at w results = Some r /\
            results_at w' results =
              Some (append_record co en en_ad (map snd raw) gr_ad idx r) /\
            (forall l, l <> results -> results_at w' l = results_at w l) /\
            o = target_state en_ad gr_ad)))).


(** ** Vocabulary of the proofs *)

(** A stretch of a run in which only evaluators are called, all of them at
    [co]: no accumulator changes, and the trace grows by [evs]. *)
Definition eval_step (co : Array2D) (w w' : World) (evs : list Event) : Prop :=
  (forall l, results_at w' l = results_at w l) /\
  trace w' = trace w ++ evs /\
  Forall (evaluator_event_with co) evs.

(** What a loop body must do for the loop lemma: an evaluator step whose
    results are what was appended to the two lists. *)
Definition appends_results {A} (co : Array2D)
    (body : A -> list float * list Array2D -> M (list float * list Array2D))
    : Prop :=
  forall x s w o w',
    body x s w = (o, w') ->
    exists evs,
      eval_step co w w' evs /\
      match o with
      | Return s' =>
          s' = (s.1 ++ map fst (evaluator_results evs),
                s.2 ++ map snd (evaluator_results evs))
      | Raise _ => True
      end.

(** Steps that touch neither the objects nor the trace. *)
Definition quiet (w w' : World) : Prop := heap w' = heap w /\ trace w' = trace w.

(** [keeps], between the file systems of two worlds. *)
Definition wkeeps (P : Path -> Prop) (w w' : World) : Prop :=
  keeps P (fs w) (fs w').

(** [o] is not NotConvergedError being raised. *)
Definition not_NotConverged {A} (o : Outcome A) : Prop :=
  forall msg, o <> Raise (NotConvergedError msg).

(** A step that leaves the files alone and does not raise
    NotConvergedError. *)
Definition benign {A} (c : M A) : Prop :=
  forall w o w', c w = (o, w') -> fs w' = fs w /\ not_NotConverged o.

(** What is left of [optimize_ci] once the optimiser is done: the
    temporary files are removed and the pair is returned. *)
Definition ci_finish (tmpf : Path) (engine : loc) (conv : bool)
    : M (bool * Mole) :=
  bind (remove_temporary_files tmpf)
    (fun _ => bind (engine_mol engine) (fun mol => ret (conv, mol))).


(** ** Vocabulary of the further statements *)

(** The bridge works in temporary directories of its own: [e_g_function]
    without a [path]. *)
Definition uses_temp_dirs (b : Bridge) : bool :=
  match b with
  | BridgeXtb _ _ _ None => true
  | _ => false
  end.

(** What the trace records of one state evaluated by xtb in the directory
    [d], with the result [r]: xtb runs there, then its output is read. *)
Definition xtb_state_events (elements : list Z) (coordinates : Array2D)
    (keywords : gset string) (xcontrol_keywords : option XControl)
    (d : Path) (r : float * Array2D) : list Event :=
  [EvRunXtb elements coordinates d keywords xcontrol_keywords;
   EvParseEngrad (joinpath d "xtb.engrad") (Return r)].

(** What the trace records of one state evaluated by a calculator, with
    the result [r]: the geometry is set, then the single point is asked. *)
Definition calculator_state_events (coordinates : Array2D) (calculator : loc)
    (r : float * Array2D) : list Event :=
  [EvSetCoordinates calculator coordinates; EvSp calculator (Return r)].

(** The end of the drivers [ts_from_gfnff], [ts_from_gfnff_python] and
    [ts_from_gfnff_ci], from the selection of the solver on: the optimiser
    runs over the bridge [b] under the redirection, and the two buffers
    are stored in the accumulator, which is returned. *)
Definition driver_block (b : Bridge) (results : loc) (e_shift coupling : float)
    (solver : string) (mole : Mole) (maxsteps : Z) (callback : option Callback)
    (conv_params : gmap string Any) : M loc :=
  bind
    (with_redirect
       match select_solver solver with
       | None => raise (UnboundLocalError "pyscf_solver")
       | Some pyscf_solver =>
           pyscf_optimize pyscf_solver
             (as_pyscf_method mole (e_g_partial b results e_shift coupling))
             maxsteps callback conv_params
       end)
    (fun x =>
       let '(_, out, err) := x in
       bind (update_results results (set_stdout out))
         (fun _ => bind (update_results results (set_stderr err))
                     (fun _ => ret results))).

(** The world in which a driver enters that block: the files are [f0], the
    accumulator at [results] is new and empty, and nothing else differs
    from [w]. *)
Definition block_entry (w : World) (f0 : FS) (results : loc) : World :=
  mkWorld f0 (<[results := PyOptResults OptResults_new]> (heap w)) (trace w)
    (sys_stdout w) (sys_stderr w).

(** [ev] is a call of an evaluator that failed, with [e]. *)
Definition evaluator_failed (e : exn) (ev : Event) : Prop :=
  match ev with
  | EvParseEngrad _ (Raise e') => e' = e
  | EvSp _ (Raise e') => e' = e
  | _ => False
  end.

(** No call of an evaluator on [evs] failed. *)
Definition no_failure (evs : list Event) : Prop :=
  forall ev e, ev ∈ evs -> ~ evaluator_failed e ev.

(** What a stretch of a run has to do with the failures of evaluators:
    either none failed, or exactly one did, it is the last event, and the
    run raised what it raised; and a run that returns saw no failure. *)
Definition fails_last {A} (o : Outcome A) (evs : list Event) : Prop :=
  (is_Return o = true -> no_failure evs) /\
  (no_failure evs \/
   exists pre ev e,
     evs = pre ++ [ev] /\ no_failure pre /\ evaluator_failed e ev /\
     o = Raise e).

(** [ev] is not a call of the secular solver. *)
Definition not_solver (ev : Event) : Prop :=
  match ev with
  | EvSolver _ _ _ => False
  | _ => True
  end.

(** From [w] to [w'] no accumulator has changed, none has been made, and
    the solver has not been called. *)
Definition no_record (w w' : World) : Prop :=
  (forall l, results_at w' l = results_at w l) /\
  exists evs, trace w' = trace w ++ evs /\ Forall not_solver evs.

(** A computation that never records and never calls the solver. *)
Definition silent {A} (c : M A) : Prop :=
  forall w o w', c w = (o, w') -> no_record w w'.

(** The method has nuclear gradients: one of the first three branches of
    lines 572-577 is taken. *)
Definition has_gradients (method : Method) : bool :=
  match method with
  | MOther _ _ => false
  | _ => true
  end.

(** The scanner objects among [methods]: the caller's own. *)
Definition own_scanners (methods : list Method) : list loc :=
  omap (fun method =>
          match method with
          | MGradScanner g => Some (scanner_self g)
          | _ => None
          end) methods.

(** [g] is the scanner the loop of [optimize_ci] takes for [method]: the
    method itself when it is a scanner, and otherwise a scanner over the
    function and the molecule of its gradients. *)
Definition scanner_for (method : Method) (g : GScanner) : Prop :=
  match method with
  | MGradScanner g0 => g = g0
  | MGradientsMixin gr | MNucGradMethod gr =>
      scan g = grad_scan gr /\ scanner_mol g = grad_mol gr
  | MOther _ _ => False
  end.

(** The [atmlst] line 581 assigns to the scanner of [method]. *)
Definition real_atoms (method : Method) : list Z :=
  nonzero_indices (atom_charges X (method_mol method)).

(** Lines 608-624 of [optimize_ci]: the optimiser runs, non-convergence is
    caught and noted, the temporary files are removed, and the flag is
    returned with the molecule of the engine. *)
Definition ci_run (engine : loc) (g_scanners : list GScanner) (tmpf : Path)
    (constraints : option Any) (kwargs : gmap string Any) : M (bool * Mole) :=
  bind
    (try_except
       (bind (call_run_optimizer engine g_scanners tmpf constraints kwargs)
          (fun _ => ret true))
       (fun e =>
          match e with
          | NotConvergedError msg =>
              Some (bind (log (EvLogNote msg)) (fun _ => ret false))
          | _ => None
          end))
    (fun conv =>
       bind (remove_temporary_files tmpf)
         (fun _ => bind (engine_mol engine) (fun mol => ret (conv, mol)))).


(** The objects [optimize_ci] has made when it calls the optimiser, on top
    of the heap [h]: the two engines, the first of them with the callback,
    their list, its wrapper, and the intersection engine with the
    attributes set on it. *)
Definition ci_objects (h : gmap loc pyobj) (e1 e2 lst wr eng : loc)
    (g1 g2 : GScanner) (assert_convergence : bool)
    (callback : option Callback) (maxsteps : Z) (alpha sigma : float)
    : gmap loc pyobj :=
  let mol1 := scanner_mol g1 in
  <[eng :=
      PyConicalIntersection
        (mkCIEngine mol1 wr sigma alpha (Some maxsteps)
           (Some (if mol_symmetry X mol1 then mol_pin_symmetry X mol1 else mol1))
           (Some assert_convergence))]>
    (<[wr := PyEnginesWrapper lst]>
       (<[lst := PyList [e1; e2]]>
          (<[e2 := PyPySCFEngine 1 (scanner_mol g2) None]>
             (<[e1 := PyPySCFEngine 0 mol1 callback]> h)))).

End Model.

Arguments OptReturn {H Q}.
Arguments OptRaise {H Q} e.
Arguments OptQuery {H Q} q k.
Arguments OptFs {H Q} f k.
Arguments OptPrint {H Q} out err k.
Arguments OptSetMol {H Q} m k.

(** * A concrete world

    Stand-ins for the collaborators, small enough to run: a molecule is its
    coordinates, a calculator has a fixed energy (or fails), xtb writes its
    output file and the energy is read off the staged topology, the solver
    does not mix the states, and an optimiser asks for one evaluation. *)

Module Example.

Record Calculator : Type := mkCalculator {
  calc_energy : float;
  calc_fails : bool;
  calc_coordinates : Array2D
}.

Definition foreign : Foreign :=
  {| Mole := Array2D; XTBCalculator := Calculator; Callback := unit;
     Opaque := unit |}.

Section World.

#[local] Existing Instance foreign.

Definition zero_gradient (coordinates : Array2D) : Array2D :=
  map (map (fun _ => 0%float)) coordinates.

(** xtb leaves [xtb.engrad] in its working directory. *)
Definition writes_engrad (elements : list Z) (coordinates : Array2D) (path : Path)
    (keywords : gset string) (xcontrol_keywords : option XControl) (f : FS)
    : Outcome unit * FS :=
  (Return tt, <[joinpath path "xtb.engrad" := File []]> f).

(** The energy of a state is told by the length of its topology. *)
Definition reads_engrad (path : Path) (f : FS) : Outcome (float * Array2D) :=
  match f !! path, f !! joinpath (parent path) "gfnff_topo" with
  | Some (File _), Some (File topology) =>
      Return (match topology with
              | [] => 0%float
              | [_] => 0.125%float
              | _ => 0.25%float
              end, [[0%float; 0%float; 0%float]])
  | _, _ => Raise (ExternalError "xtb.engrad")
  end.

Definition single_point (c : Calculator) : Outcome (float * Array2D) * Calculator :=
  if calc_fails c then (Raise (ExternalError "xtb"), c)
  else (Return (calc_energy c, zero_gradient (calc_coordinates c)), c).

(** Without coupling the adiabatic states are the diabatic ones. *)
Definition unmixed (energies : list float) (gradients : list Array2D)
    (coupling : float) : Outcome (list float * list Array2D * list Z) :=
  Return (energies, gradients, map Z.of_nat (seq 0 (length energies))).

(** One evaluation at the initial geometry, then done. *)
Definition one_step (mol : Mole) (maxsteps : Z) (callback : option Callback)
    (conv_params : gmap string Any) : Optimizer Mole :=
  OptQuery mol (fun _ => OptPrint "Converged!" "" OptReturn).

(** The intersection search: geomeTRIC leaves its two artifacts, asks both
    surfaces once, and ends as [ending] says. *)
Definition two_surfaces (ending : Optimizer (Z * Mole)) (h : gmap loc pyobj)
    (engine : loc) (tmpf : Path) (constraints : option Any)
    (kwargs : gmap string Any) : Optimizer (Z * Mole) :=
  match h !! engine with
  | Some (PyConicalIntersection e) =>
      match ci_mol e with
      | Some mol =>
          OptFs (fun f =>
                   <[path_suffix tmpf "_optim.xyz" := File []]>
                     (<[path_suffix tmpf ".tmp" := Dir]> f))
            (OptQuery (0, mol) (fun _ => OptQuery (1, mol) (fun _ => ending)))
      | None => OptRaise (AttributeError "mol")
      end
  | _ => OptRaise (AttributeError "engine")
  end.

Definition externals (ending : Optimizer (Z * Mole)) : Externals :=
  {| BOHR_TO_ANGSTROM := 0.5%float;
     TMP_DIR := None;
     TMPDIR := None;
     INCLUDE_GHOST := true;
     ASSERT_CONV := true;
     module_file := ["polanyi"; "pyscf.py"];
     cwd := ["work"];
     resolve := fun s => ["work"; s];
     str_strip := fun s => s;
     str_lower := fun s => s;
     mkdtemp_name := fun _ f => ["tmp"; "xtb" +:+ pretty (size f)];
     mktemp_name := fun _ _ => ["tmp"; "geom"];
     atom_charges := fun mol => map (fun _ => 1) mol;
     atom_coords := fun mol => mol;
     mol_symmetry := fun _ => false;
     mol_pin_symmetry := fun mol => mol;
     Mole_build := fun _ atoms => Return (map snd atoms);
     run_xtb := writes_engrad;
     parse_engrad := reads_engrad;
     calc_set_coordinates := fun c coordinates =>
       mkCalculator (calc_energy c) (calc_fails c) coordinates;
     calc_sp := single_point;
     evb_eigenvalues := unmixed;
     convert_elements_symbols := fun elements =>
       Return (map (fun e => match e with inl _ => "H" | inr s => s end) elements);
     convert_elements_numbers := fun symbols => Return (map (fun _ => 1) symbols);
     berny_solver_optimize := one_step;
     geometric_solver_optimize := one_step;
     run_optimizer := two_surfaces ending |}.

(** The optimiser converges. *)
Definition X : Externals := externals OptReturn.


(** A hydrogen molecule, in Bohr. *)
Definition mol : Mole := [[0; 0; 0]; [0; 0; 1.5]]%float.

Definition results : loc := 1%positive.
Definition calculator_1 : loc := 2%positive.
Definition calculator_2 : loc := 3%positive.
Definition calculator_broken : loc := 4%positive.
Definition memo : loc := 5%positive.
Definition engine_list : loc := 6%positive.
Definition wrapper : loc := 7%positive.

(** A working directory that has a topology staged for state 0 already. *)
Definition w0 : World :=
  {| fs := {[ ["tmp"] := Dir; ["work"] := Dir; ["work"; "0"] := Dir;
              ["work"; "0"; "gfnff_topo"] := File [] ]};
     heap := {[ results := PyOptResults OptResults_new;
                calculator_1 := PyCalculator (mkCalculator 0%float false []);
                calculator_2 := PyCalculator (mkCalculator 0.125%float false []);
                calculator_broken := PyCalculator (mkCalculator 0%float true []);
                memo := PyDict ∅;
                engine_list := PyList [calculator_1; calculator_2];
                wrapper := PyEnginesWrapper engine_list ]};
     trace := [];
     sys_stdout := "";
     sys_stderr := "" |}.

Definition topologies : list bytes := [[Byte.x01; Byte.x02]; [Byte.x03]].

Definition bridge_xtb : Bridge :=
  BridgeXtb topologies None None (Some (PathObj ["work"])).

Definition bridge_python : Bridge :=
  BridgePython [calculator_1; calculator_2] None.

Definition e_shift : float := 0.25%float.
Definition coupling : float := 0%float.

(** One invocation of the xtb bridge in [w0]. *)
Definition w1 : World := snd (e_g_partial X bridge_xtb results e_shift coupling mol w0).

(** What the solver is given in that invocation. *)
Definition solver_energies : list float := [0; 0.375]%float.
Definition solver_gradients : list Array2D := [[[0; 0; 0]]; [[0; 0; 0]]]%float.

(** The two surfaces of an intersection search, and the search. *)
Definition ci_methods (E : Externals) (second : loc) : list Method :=
  [as_pyscf_method mol
     (fun m => e_g_function_ci_python E m calculator_1 0%float None);
   as_pyscf_method mol
     (fun m => e_g_function_ci_python E m second e_shift None)].

Definition run_optimize_ci (E : Externals) (second : loc)
    : Outcome (bool * Mole) * World :=
  optimize_ci E (ci_methods E second) true true None None 10 0.03125%float
    3.5%float ∅ w0.

(** The arguments of an intersection search over two calculators. *)
Definition run_ci (E : Externals) (calculators : list loc) : Outcome Array2D * World :=
  ts_from_gfnff_ci_python E [inr "H"; inr "H"] mol calculators e_shift 10
    0.03125%float 3.5%float None None None w0.


(** A solver that gives back the ground state only. *)
Definition ground_state_only (energies : list float) (gradients : list Array2D)
    (coupling : float) : Outcome (list float * list Array2D * list Z) :=
  Return (take 1 energies, take 1 gradients, [0]).

Definition X_one_state : Externals :=
  {| BOHR_TO_ANGSTROM := BOHR_TO_ANGSTROM X;
     TMP_DIR := TMP_DIR X;
     TMPDIR := TMPDIR X;
     INCLUDE_GHOST := INCLUDE_GHOST X;
     ASSERT_CONV := ASSERT_CONV X;
     module_file := module_file X;
     cwd := cwd X;
     resolve := resolve X;
     str_strip := str_strip X;
     str_lower := str_lower X;
     mkdtemp_name := mkdtemp_name X;
     mktemp_name := mktemp_name X;
     atom_charges := atom_charges X;
     atom_coords := atom_coords X;
     mol_symmetry := mol_symmetry X;
     mol_pin_symmetry := mol_pin_symmetry X;
     Mole_build := Mole_build X;
     run_xtb := run_xtb X;
     parse_engrad := parse_engrad X;
     calc_set_coordinates := calc_set_coordinates X;
     calc_sp := calc_sp X;
     evb_eigenvalues := ground_state_only;
     convert_elements_symbols := convert_elements_symbols X;
     convert_elements_numbers := convert_elements_numbers X;
     berny_solver_optimize := berny_solver_optimize X;
     geometric_solver_optimize := geometric_solver_optimize X;
     run_optimizer := run_optimizer X |}.

(** Invocations of the bridges in [w0]: in temporary directories, over the
    two calculators, over a calculator that fails, and with the solver
    that gives one state. *)
Definition run_temporary : Outcome (float * Array2D) * World :=
  e_g_function X mol topologies results None None e_shift coupling None w0.

Definition run_python : Outcome (float * Array2D) * World :=
  e_g_partial X bridge_python results e_shift coupling mol w0.

Definition run_broken : Outcome (float * Array2D) * World :=
  e_g_function_python X mol [calculator_1; calculator_broken] results e_shift
    coupling None w0.

Definition run_one_state : Outcome (float * Array2D) * World :=
  e_g_partial X_one_state bridge_python results e_shift coupling mol w0.

(** The gradient a calculator gives at the geometry of [mol]. *)
Definition flat : Array2D := [[0; 0; 0]; [0; 0; 0]]%float.

(** Runs of the drivers in [w0]. *)
Definition run_ts_from_gfnff : Outcome loc * World :=
  ts_from_gfnff X [inr "H"; inr "H"] mol topologies None None e_shift coupling
    10 None None "geometric" (Some (PathObj ["work"])) w0.

Definition run_ts_from_gfnff_python : Outcome loc * World :=
  ts_from_gfnff_python X [inr "H"; inr "H"] mol [calculator_1; calculator_2]
    e_shift coupling 10 None None "pyberny" None w0.

(** The reference of the first object made in [w0]. *)
Definition new_results : loc := 8%positive.



(** A directory whose parent is missing. *)
Definition nested : option PathLike := Some (PathObj ["work"; "a"; "b"]).

(** [w0] with a gradient scanner of the caller's, on the first surface. *)
Definition scanner_object : loc := 20%positive.

Definition w_scanner : World :=
  set_heap (<[scanner_object := PyGradScanner None]> (heap w0)) w0.

Definition own_scanner : GScanner :=
  mkGScanner (fun m => e_g_function_ci_python X m calculator_1 0%float None) mol
    scanner_object.

End World.

End Example.

(** * Properties *)

Section Proofs.

Context `{Foreign}.

Implicit Types (w : World) (l : loc).

(** ** Running a computation *)

Lemma bind_run {A B} (c : M A) (k : A -> M B) w o w' :
  bind c k w = (o, w') ->
  (exists a w1, c w = (Return a, w1) /\ k a w1 = (o, w')) \/
  (exists e, c w = (Raise e, w') /\ o = Raise e).
Proof.
  unfold bind. destruct (c w) as [[a | e] w1] eqn:Hc; intros Hk.
  - left. eauto.
  - right. inversion Hk; subst. eauto.
Qed.

Lemma bind_Return {A B} (c : M A) (k : A -> M B) w a w1 :
  c w = (Return a, w1) -> bind c k w = k a w1.
Proof. unfold bind. intros ->. reflexivity. Qed.

Lemma bind_Raise {A B} (c : M A) (k : A -> M B) w e w1 :
  c w = (Raise e, w1) -> bind c k w = (Raise e, w1).
Proof. unfold bind. intros ->. reflexivity. Qed.

(** Splits a hypothesis [bind c k w = (o, w')] into its two runs. *)
Ltac bind_inv Hrun :=
  let a := fresh "a" in
  let w1 := fresh "w" in
  let e := fresh "e" in
  let Hc := fresh "Hc" in
  let Ho := fresh "Ho" in
  apply bind_run in Hrun as [(a & w1 & Hc & Hrun) | (e & Hrun & Ho)];
  [| match type of Ho with
     | ?o = _ => first [is_var o; subst o | discriminate Ho | injection Ho as <-]
     end].

(** ** The engines wrapper *)

Lemma alloc_fresh (o : pyobj) w :
  exists l, alloc o w = (Return l, set_heap (<[l := o]> (heap w)) w) /\
            heap w !! l = None.
Proof.
  exists (fresh (dom (heap w))). split; [reflexivity |].
  apply not_elem_of_dom, is_fresh.
Qed.

(** C8.  [__deepcopy__] of a wrapper makes one new object, a wrapper around
    the very list of engines the original holds: it returns a reference
    [new] that the heap did not use and that differs from [self]; every
    index that [self] answers, [new] answers with the identical engine
    reference; the lengths agree; and apart from the new wrapper and the
    memo dictionary no object of the heap is created or changed, so no
    engine is cloned. *)
Theorem EnginesWrapper_deepcopy_shares (self memo : loc) w engines entries :
  heap w !! self = Some (PyEnginesWrapper engines) ->
  heap w !! memo = Some (PyDict entries) ->
  exists new w',
    EnginesWrapper_deepcopy self memo w = (Return new, w') /\
    new <> self /\ heap w !! new = None /\
    heap w' !! new = Some (PyEnginesWrapper engines) /\
    heap w' !! memo = Some (PyDict (<[self := new]> entries)) /\
    (forall l, l <> new -> l <> memo -> heap w' !! l = heap w !! l) /\
    (forall key engine,
       (EnginesWrapper_getitem self key w).1 = Return engine ->
       (EnginesWrapper_getitem new key w').1 = Return engine) /\
    (forall n,
       (EnginesWrapper_len self w).1 = Return n ->
       (EnginesWrapper_len new w').1 = Return n).
Proof.
  intros Hself Hmemo.
  destruct (alloc_fresh (PyEnginesWrapper engines) w) as (new & Halloc & Hnew).
  assert (Hns : new <> self) by congruence.
  assert (Hnm : memo <> new) by congruence.
  set (h1 := <[new := PyEnginesWrapper engines]> (heap w)).
  set (w' := set_heap (<[memo := PyDict (<[self := new]> entries)]> h1)
               (set_heap h1 w)).
  assert (Hrun : EnginesWrapper_deepcopy self memo w = (Return new, w')).
  { unfold EnginesWrapper_deepcopy, EnginesWrapper_init.
    unfold bind at 1. unfold get_obj at 1. rewrite Hself.
    rewrite (bind_Return _ _ _ _ _ Halloc).
    unfold bind at 1. unfold get_obj at 1. simpl.
    rewrite lookup_insert_ne by congruence. rewrite Hmemo. reflexivity. }
  assert (Hframe : forall l, l <> new -> l <> memo ->
                             heap w' !! l = heap w !! l).
  { intros l Hl1 Hl2. simpl. rewrite lookup_insert_ne by congruence.
    unfold h1. apply lookup_insert_ne. congruence. }
  assert (Hw'new : heap w' !! new = Some (PyEnginesWrapper engines)).
  { simpl. rewrite lookup_insert_ne by congruence. apply lookup_insert_eq. }
  exists new, w'. repeat split; try assumption.
  - simpl. apply lookup_insert_eq.
  - intros key engine Hget.
    unfold EnginesWrapper_getitem, bind in *.
    destruct (EnginesWrapper_engines self w) as [[items | e] w1] eqn:Hitems;
      [| discriminate].
    assert (Hi : (EnginesWrapper_engines new w').1 = Return items).
    { revert Hitems. unfold EnginesWrapper_engines, bind, get_obj, ret, raise.
      rewrite Hself, Hw'new.
      destruct (heap w !! engines) as [[|it| | | | | |]|] eqn:Hlist;
        intros Hitems; inversion Hitems; subst.
      rewrite Hframe by congruence. rewrite Hlist. reflexivity. }
    destruct (EnginesWrapper_engines new w') as [[items' | e'] w2];
      simpl in Hi; inversion Hi; subst.
    unfold lift in *. exact Hget.
  - intros n Hlen.
    unfold EnginesWrapper_len, bind in *.
    destruct (EnginesWrapper_engines self w) as [[items | e] w1] eqn:Hitems;
      [| discriminate].
    assert (Hi : (EnginesWrapper_engines new w').1 = Return items).
    { revert Hitems. unfold EnginesWrapper_engines, bind, get_obj, ret, raise.
      rewrite Hself, Hw'new.
      destruct (heap w !! engines) as [[|it| | | | | |]|] eqn:Hlist;
        intros Hitems; inversion Hitems; subst.
      rewrite Hframe by congruence. rewrite Hlist. reflexivity. }
    destruct (EnginesWrapper_engines new w') as [[items' | e'] w2];
      simpl in Hi; inversion Hi; subst.
    exact Hlen.
Qed.

(** ** Steps of the evaluators *)

Context (X : Externals).

Lemma eval_step_refl co w : eval_step co w w [].
Proof. repeat split; [symmetry; apply app_nil_r | constructor]. Qed.

Lemma eval_step_trans co w w1 w2 evs1 evs2 :
  eval_step co w w1 evs1 -> eval_step co w1 w2 evs2 ->
  eval_step co w w2 (evs1 ++ evs2).
Proof.
  intros (Hr1 & Ht1 & Hf1) (Hr2 & Ht2 & Hf2). repeat split.
  - intros l. rewrite Hr2. apply Hr1.
  - rewrite Ht2, Ht1. symmetry. apply app_assoc.
  - apply Forall_app. split; assumption.
Qed.

Lemma evaluator_results_app evs1 evs2 :
  evaluator_results (evs1 ++ evs2) =
  evaluator_results evs1 ++ evaluator_results evs2.
Proof.
  induction evs1 as [| ev evs1 IH]; [reflexivity |].
  destruct ev as [| | p [r | e] | | c [r | e] | | |]; simpl;
    rewrite ?IH; reflexivity.
Qed.

Lemma for_each_appends_results {A} co
    (body : A -> list float * list Array2D -> M (list float * list Array2D))
    (items : list A) :
  appends_results co body ->
  appends_results co (fun (_ : unit) s => for_each items body s).
Proof.
  intros Hbody. induction items as [| x items IH]; intros [] s w o w' Hrun.
  - simpl in Hrun. inversion Hrun; subst. exists []. split.
    + apply eval_step_refl.
    + simpl. rewrite !app_nil_r. destruct s; reflexivity.
  - simpl in Hrun. bind_inv Hrun.
    + destruct (Hbody _ _ _ _ _ Hc) as (evs1 & Hs1 & ->).
      destruct (IH tt _ _ _ _ Hrun) as (evs2 & Hs2 & Ho).
      exists (evs1 ++ evs2). split.
      * eapply eval_step_trans; eassumption.
      * destruct o as [s' |]; [| exact I]. rewrite Ho. simpl.
        rewrite evaluator_results_app, !map_app, !app_assoc. reflexivity.
    + destruct (Hbody _ _ _ _ _ Hrun) as (evs1 & Hs1 & _).
      exists evs1. split; [assumption | exact I].
Qed.

Lemma on_fs_run (f : FS -> Outcome FS) w o w' :
  on_fs f w = (o, w') ->
  heap w' = heap w /\ trace w' = trace w /\
  match f (fs w) with
  | Return fs' => fs w' = fs' /\ o = Return tt
  | Raise e => fs w' = fs w /\ o = Raise e
  end.
Proof.
  unfold on_fs. destruct (f (fs w)); intros Hrun; inversion Hrun; subst;
    simpl; auto.
Qed.

Lemma results_at_heap w w' :
  heap w' = heap w -> forall l, results_at w' l = results_at w l.
Proof. intros Hh l. unfold results_at. rewrite Hh. reflexivity. Qed.

Lemma evaluate_state_appends elements co keywords xcontrol_keywords :
  appends_results co (evaluate_state X elements co keywords xcontrol_keywords).
Proof.
  intros [topology xtb_path] [energies gradients] w o w' Hrun.
  unfold evaluate_state in Hrun.
  bind_inv Hrun;
    [| apply on_fs_run in Hrun as (Hh & Ht & _); exists []; split;
       [repeat split; [apply results_at_heap, Hh | rewrite Ht, app_nil_r; reflexivity
                       | constructor] | exact I]].
  apply on_fs_run in Hc as (Hh0 & Ht0 & _).
  bind_inv Hrun; [| inversion Hrun].
  inversion Hc; subst w1 a0; clear Hc.
  bind_inv Hrun.
  2:{ exists []. split; [| exact I].
      destruct (negb _).
      - apply on_fs_run in Hrun as (Hh & Ht & _). repeat split.
        + intros l. apply results_at_heap. rewrite Hh. exact Hh0.
        + rewrite app_nil_r, Ht. exact Ht0.
        + constructor.
      - inversion Hrun. }
  assert (Hh1 : heap w1 = heap w /\ trace w1 = trace w).
  { destruct (negb _).
    - apply on_fs_run in Hc as (Hh & Ht & _).
      split; [rewrite Hh; exact Hh0 | rewrite Ht; exact Ht0].
    - inversion Hc; subst. split; assumption. }
  destruct Hh1 as [Hh1 Ht1]. clear Hc.
  set (ev1 := EvRunXtb elements co xtb_path keywords xcontrol_keywords) in *.
  assert (Hx : forall o2 w2,
             call_run_xtb X elements co xtb_path keywords xcontrol_keywords w1
             = (o2, w2) ->
             heap w2 = heap w /\ trace w2 = trace w ++ [ev1]).
  { intros o2 w2. unfold call_run_xtb, bind, log. simpl.
    destruct (run_xtb X _ _ _ _ _ _) as [r fs']. intros Hr.
    inversion Hr; subst. simpl. rewrite Hh1, Ht1. split; reflexivity. }
  bind_inv Hrun.
  2:{ apply Hx in Hrun as [Hh2 Ht2]. exists [ev1]. split; [| exact I].
      repeat split; [apply results_at_heap, Hh2 | exact Ht2 |].
      repeat constructor. }
  apply Hx in Hc as [Hh2 Ht2].
  unfold bind, call_parse_engrad in Hrun.
  set (p := joinpath xtb_path "xtb.engrad") in *.
  destruct (parse_engrad X p (fs w2)) as [[energy gradient] | e] eqn:Hp.
  - inversion Hrun; subst o w'; clear Hrun.
    exists [ev1; EvParseEngrad p (Return (energy, gradient))]. split.
    + repeat split.
      * apply results_at_heap. simpl. exact Hh2.
      * simpl. rewrite Ht2, <- app_assoc. reflexivity.
      * repeat constructor.
    + reflexivity.
  - inversion Hrun; subst o w'; clear Hrun.
    exists [ev1; EvParseEngrad p (Raise e)]. split; [| exact I].
    repeat split.
    + apply results_at_heap. simpl. exact Hh2.
    + simpl. rewrite Ht2, <- app_assoc. reflexivity.
    + repeat constructor.
Qed.

Lemma results_at_calculator w w' (calculator : loc) c c' :
  heap w !! calculator = Some (PyCalculator c) ->
  heap w' = <[calculator := PyCalculator c']> (heap w) ->
  forall l, results_at w' l = results_at w l.
Proof.
  intros Hc Hh l. unfold results_at. rewrite Hh.
  destruct (decide (calculator = l)) as [<- | Hne].
  - rewrite lookup_insert_eq, Hc. reflexivity.
  - rewrite lookup_insert_ne by assumption. reflexivity.
Qed.

Lemma calculator_set_coordinates_run (calculator : loc) co w o w' :
  calculator_set_coordinates X calculator co w = (o, w') ->
  exists evs, eval_step co w w' evs /\ evaluator_results evs = [] /\
              fs w' = fs w.
Proof.
  unfold calculator_set_coordinates, bind, get_obj, log, put_obj, raise.
  destruct (heap w !! calculator) as [[| | | | | |c|]|] eqn:Hobj; intros Hrun;
    inversion Hrun; subst o w'; clear Hrun;
    try (exists []; split; [apply eval_step_refl | split; reflexivity]).
  exists [EvSetCoordinates calculator co]. split; [| split; reflexivity].
  repeat split.
  - eapply results_at_calculator; [exact Hobj | reflexivity].
  - constructor; [reflexivity | constructor].
Qed.

Lemma calculator_sp_run (calculator : loc) co w o w' :
  calculator_sp X calculator w = (o, w') ->
  exists evs, eval_step co w w' evs /\ fs w' = fs w /\
              match o with
              | Return r => evaluator_results evs = [r]
              | Raise _ => True
              end.
Proof.
  unfold calculator_sp, bind, get_obj, log, put_obj, raise, lift.
  destruct (heap w !! calculator) as [[| | | | | |c|]|] eqn:Hobj; intros Hrun;
    try (inversion Hrun; subst o w'; clear Hrun;
         exists []; split; [apply eval_step_refl | split; [reflexivity | exact I]]).
  destruct (calc_sp X c) as [r c'] eqn:Hsp. simpl in Hrun.
  inversion Hrun; subst o w'; clear Hrun.
  exists [EvSp calculator r]. split; [| split; [reflexivity |]].
  - repeat split.
    + eapply results_at_calculator; [exact Hobj | reflexivity].
    + constructor; [exact I | constructor].
  - destruct r; [reflexivity | exact I].
Qed.

Lemma evaluate_calculator_appends co :
  appends_results co (evaluate_calculator X co).
Proof.
  intros calculator [energies gradients] w o w' Hrun.
  unfold evaluate_calculator in Hrun.
  bind_inv Hrun.
  - apply calculator_set_coordinates_run in Hc as (evs1 & Hs1 & He1 & _).
    unfold bind in Hrun.
    destruct (calculator_sp X calculator w0) as [[[energy gradient] | e] w2]
      eqn:Hsp;
      apply (calculator_sp_run _ co) in Hsp as (evs2 & Hs2 & _ & He2);
      inversion Hrun; subst o w'; clear Hrun;
      exists (evs1 ++ evs2);
      (split; [eapply eval_step_trans; eassumption |]); [| exact I].
    rewrite evaluator_results_app, He1, He2. reflexivity.
  - apply calculator_set_coordinates_run in Hrun as (evs1 & Hs1 & _).
    exists evs1. split; [assumption | exact I].
Qed.

(** ** The accumulator *)

Lemma update_results_run (results : loc) (f : OptResults -> OptResults) w :
  update_results results f w =
  match heap w !! results with
  | Some (PyOptResults r) =>
      (Return tt, set_heap (<[results := PyOptResults (f r)]> (heap w)) w)
  | Some _ => (Raise (AttributeError "OptResults"), w)
  | None => (Raise (AttributeError "dangling reference"), w)
  end.
Proof.
  unfold update_results, bind, get_obj, put_obj, raise.
  destruct (heap w !! results) as [[]|]; reflexivity.
Qed.

Lemma store_results_run (results : loc) co en en_ad gr gr_ad idx w :
  match results_at w results with
  | Some r =>
      store_results results co en en_ad gr gr_ad idx w =
      (Return tt,
       set_heap (<[results := PyOptResults (append_record co en en_ad gr gr_ad idx r)]>
                   (heap w)) w)
  | None =>
      exists e, store_results results co en en_ad gr gr_ad idx w = (Raise e, w)
  end.
Proof.
  unfold results_at, store_results.
  destruct (heap w !! results) as [[r| | | | | | |]|] eqn:Hobj;
    try (eexists; unfold bind; rewrite update_results_run, Hobj; reflexivity).
  unfold bind. rewrite update_results_run, Hobj.
  repeat (rewrite update_results_run; simpl; rewrite lookup_insert_eq).
  unfold ret, set_heap. simpl. rewrite !insert_insert_eq. reflexivity.
Qed.

(** ** The tail of a bridge *)

Lemma quiet_refl w : quiet w w.
Proof. split; reflexivity. Qed.

Lemma quiet_trans w w1 w2 : quiet w w1 -> quiet w1 w2 -> quiet w w2.
Proof. intros [H1 H2] [H3 H4]. split; [rewrite H3 | rewrite H4]; assumption. Qed.

Lemma for_each_invariant {A S} (R : World -> World -> Prop)
    (body : A -> S -> M S) (items : list A) :
  (forall w, R w w) ->
  (forall w w1 w2, R w w1 -> R w1 w2 -> R w w2) ->
  (forall x s w o w', body x s w = (o, w') -> R w w') ->
  forall s w o w', for_each items body s w = (o, w') -> R w w'.
Proof.
  intros Hrefl Htrans Hbody. induction items as [| x items IH];
    intros s w o w' Hrun; simpl in Hrun.
  - inversion Hrun; subst. apply Hrefl.
  - bind_inv Hrun.
    + eapply Htrans; [eapply Hbody | eapply IH]; eassumption.
    + eapply Hbody; eassumption.
Qed.

Lemma on_fs_quiet (f : FS -> Outcome FS) w o w' :
  on_fs f w = (o, w') -> quiet w w'.
Proof. intros Hrun. apply on_fs_run in Hrun as (Hh & Ht & _). split; assumption. Qed.

Lemma TemporaryDirectory_quiet w o w' :
  TemporaryDirectory X w = (o, w') -> quiet w w'.
Proof.
  unfold TemporaryDirectory.
  destruct (os_mkdir _ _); intros Hrun; inversion Hrun; subst;
    split; reflexivity.
Qed.

Lemma working_directories_quiet path n w o w' :
  working_directories X path n w = (o, w') -> quiet w w'.
Proof.
  unfold working_directories. destruct path as [p |]; intros Hrun.
  - inversion Hrun; subst. apply quiet_refl.
  - bind_inv Hrun.
    + inversion Hrun; subst.
      eapply (for_each_invariant quiet); [apply quiet_refl | apply quiet_trans | |
                                          exact Hc].
      intros x s w1 o1 w1' Hb. bind_inv Hb.
      * inversion Hb; subst. eapply TemporaryDirectory_quiet; eassumption.
      * eapply TemporaryDirectory_quiet; eassumption.
    + eapply (for_each_invariant quiet); [apply quiet_refl | apply quiet_trans | |
                                          exact Hrun].
      intros x s w1 o1 w1' Hb. bind_inv Hb.
      * inversion Hb; subst. eapply TemporaryDirectory_quiet; eassumption.
      * eapply TemporaryDirectory_quiet; eassumption.
Qed.

Lemma cleanup_temp_dirs_quiet temp_dirs w o w' :
  cleanup_temp_dirs temp_dirs w = (o, w') -> quiet w w'.
Proof.
  unfold cleanup_temp_dirs.
  apply (for_each_invariant quiet); [apply quiet_refl | apply quiet_trans |].
  intros x s w1 o1 w1'. apply on_fs_quiet.
Qed.

Lemma bridge_tail_run (results : loc) co (cleanup_step : M unit)
    e_shift coupling en0 gr0 w o w' :
  (forall w1 o1 w1', cleanup_step w1 = (o1, w1') -> quiet w1 w1') ->
  bridge_tail X results co cleanup_step e_shift coupling (en0, gr0) w = (o, w') ->
  (quiet w w' /\ is_Return o = false) \/
  (exists en,
     iadd_last en0 e_shift = Return en /\
     trace w' = trace w ++ [EvSolver en gr0 coupling] /\
     ((heap w' = heap w /\ is_Return o = false) \/
      (exists en_ad gr_ad idx r,
         evb_eigenvalues X en gr0 coupling = Return (en_ad, gr_ad, idx) /\
         results_at w results = Some r /\
         heap w' =
           <[results := PyOptResults (append_record co en en_ad gr0 gr_ad idx r)]>
             (heap w) /\
         o = target_state en_ad gr_ad))).
Proof.
  intros Hclean Hrun. unfold bridge_tail in Hrun.
  bind_inv Hrun.
  2:{ left. unfold lift in Hrun. inversion Hrun; subst.
      split; [apply quiet_refl | reflexivity]. }
  unfold lift in Hc. inversion Hc; subst w0; clear Hc.
  rename a into en, H1 into Hen.
  right. exists en. split; [assumption |].
  unfold call_evb_eigenvalues in Hrun. unfold bind at 1 in Hrun.
  unfold bind at 1 in Hrun. unfold log at 1 in Hrun. unfold lift at 1 in Hrun.
  destruct (evb_eigenvalues X en gr0 coupling) as [[[en_ad gr_ad] idx] | e]
    eqn:Hevb.
  2:{ inversion Hrun; subst. simpl. split; [reflexivity |].
      left. split; reflexivity. }
  set (w1 := add_event (EvSolver en gr0 coupling) w) in *.
  bind_inv Hrun.
  2:{ apply Hclean in Hrun as [Hh Ht]. split; [rewrite Ht; reflexivity |].
      left. split; [rewrite Hh; reflexivity | reflexivity]. }
  apply Hclean in Hc as [Hh Ht].
  pose proof (store_results_run results co en en_ad gr0 gr_ad idx w0) as Hstore.
  unfold results_at in *. rewrite Hh in Hstore. simpl in Hstore.
  destruct (heap w !! results) as [[r| | | | | | |]|] eqn:Hobj.
  2-9: (destruct Hstore as [e' Hstore]; rewrite (bind_Raise _ _ _ _ _ Hstore) in Hrun;
        inversion Hrun; subst;
        split; [rewrite Ht; reflexivity |];
        left; split; [rewrite Hh; reflexivity | reflexivity]).
  rewrite (bind_Return _ _ _ _ _ Hstore) in Hrun.
  assert (Ho : forall w2,
             bind (lift (py_index en_ad 1))
               (fun e => bind (lift (py_index gr_ad 1)) (fun g => ret (e, g))) w2
             = (target_state en_ad gr_ad, w2)).
  { intros w2. unfold bind, lift, ret, target_state.
    destruct (py_index en_ad 1); [destruct (py_index gr_ad 1) |]; reflexivity. }
  rewrite Ho in Hrun. inversion Hrun; subst o w'; clear Hrun.
  simpl. split; [rewrite Ht; reflexivity |].
  right. exists en_ad, gr_ad, idx, r. repeat split.
Qed.

(** ** What an invocation of a bridge does *)

Lemma trace_cons_app (t : list Event) ev evs :
  (t ++ [ev]) ++ evs = t ++ ev :: evs.
Proof. rewrite <- app_assoc. reflexivity. Qed.

Lemma bridge_failed (results : loc) mol co e_shift coupling w w1 w' evs
    (o : Outcome (float * Array2D)) :
  trace w1 = trace w ++ [EvBridge mol] -> heap w1 = heap w ->
  eval_step co w1 w' evs -> is_Return o = false ->
  bridge_spec X results mol co e_shift coupling w o w'.
Proof.
  intros Ht Hh (Hr & Ht' & Hf) Ho. exists evs. split; [assumption |].
  left. repeat split.
  - rewrite Ht', Ht. apply trace_cons_app.
  - intros l. rewrite Hr. apply results_at_heap, Hh.
  - assumption.
Qed.

Lemma bridge_compose (results : loc) mol co (cleanup_step : M unit)
    e_shift coupling w w1 w2 w' evs o :
  trace w1 = trace w ++ [EvBridge mol] -> heap w1 = heap w ->
  eval_step co w1 w2 evs ->
  (forall w3 o3 w3', cleanup_step w3 = (o3, w3') -> quiet w3 w3') ->
  bridge_tail X results co cleanup_step e_shift coupling
    (map fst (evaluator_results evs), map snd (evaluator_results evs)) w2
  = (o, w') ->
  bridge_spec X results mol co e_shift coupling w o w'.
Proof.
  intros Ht Hh Hstep Hclean Hrun.
  apply bridge_tail_run in Hrun; [| assumption].
  destruct Hrun as [[[Hh' Ht'] Ho] | (en & Hen & Ht' & Hrest)].
  - destruct Hstep as (Hr & Ht2 & Hf).
    apply (bridge_failed _ _ _ _ _ _ w1 _ evs); try assumption.
    split; [| split; [| assumption]].
    + intros l. rewrite <- Hr. apply results_at_heap, Hh'.
    + rewrite Ht'. assumption.
  - destruct Hstep as (Hr & Ht2 & Hf).
    exists evs. split; [assumption |]. right. exists en. split; [assumption |].
    split.
    { rewrite Ht', Ht2, Ht, trace_cons_app, <- app_assoc. reflexivity. }
    destruct Hrest as [[Hh' Ho] | (en_ad & gr_ad & idx & r & Hevb & Hres & Hh' & Ho)].
    + left. split; [| assumption].
      intros l. rewrite <- (results_at_heap _ _ Hh l), <- Hr.
      apply results_at_heap, Hh'.
    + right. exists en_ad, gr_ad, idx, r.
      assert (Hres0 : forall l, results_at w2 l = results_at w l).
      { intros l. rewrite Hr. apply results_at_heap, Hh. }
      repeat split; try assumption.
      * rewrite <- Hres0. assumption.
      * unfold results_at. rewrite Hh', lookup_insert_eq. reflexivity.
      * intros l Hl. rewrite <- Hres0. unfold results_at.
        rewrite Hh', lookup_insert_ne by congruence. reflexivity.
Qed.

Lemma log_run (ev : Event) w : log ev w = (Return tt, add_event ev w).
Proof. reflexivity. Qed.

Lemma e_g_function_spec mol topologies (results : loc) keywords
    xcontrol_keywords e_shift coupling path w o w' :
  e_g_function X mol topologies results keywords xcontrol_keywords e_shift
    coupling path w = (o, w') ->
  bridge_spec X results mol
    (array_mul (atom_coords X mol) (BOHR_TO_ANGSTROM X)) e_shift coupling w o w'.
Proof.
  intros Hrun. unfold e_g_function in Hrun.
  rewrite (bind_Return _ _ _ _ _ (log_run _ _)) in Hrun.
  set (w0 := add_event (EvBridge mol) w) in *.
  set (co := array_mul (atom_coords X mol) (BOHR_TO_ANGSTROM X)) in *.
  assert (Ht0 : trace w0 = trace w ++ [EvBridge mol]) by reflexivity.
  assert (Hh0 : heap w0 = heap w) by reflexivity.
  bind_inv Hrun.
  2:{ apply working_directories_quiet in Hrun as [Hh Ht].
      eapply (bridge_failed _ _ _ _ _ _ w' w' []); try reflexivity.
      - rewrite Ht. exact Ht0.
      - rewrite Hh. exact Hh0.
      - apply eval_step_refl. }
  apply working_directories_quiet in Hc as [Hh1 Ht1].
  destruct a as [[xtb_paths temp_dirs] cleanup].
  bind_inv Hrun.
  - apply (for_each_appends_results co _ _ (evaluate_state_appends _ co _ _) tt)
      in Hc as (evs & Hstep & ->).
    simpl in Hrun.
    eapply (bridge_compose _ _ _ _ _ _ _ w1 _ _ evs); [| | exact Hstep | | exact Hrun].
    + rewrite Ht1. exact Ht0.
    + rewrite Hh1. exact Hh0.
    + intros w3 o3 w3'. destruct cleanup.
      * apply cleanup_temp_dirs_quiet.
      * intros Hr. inversion Hr; subst. apply quiet_refl.
  - apply (for_each_appends_results co _ _ (evaluate_state_appends _ co _ _) tt)
      in Hrun as (evs & Hstep & _).
    eapply (bridge_failed _ _ _ _ _ _ w1 _ evs); try eassumption; try reflexivity.
Qed.

Lemma e_g_function_python_spec mol calculators (results : loc) e_shift coupling
    path w o w' :
  e_g_function_python X mol calculators results e_shift coupling path w
  = (o, w') ->
  bridge_spec X results mol
    (array_mul (atom_coords X mol) (BOHR_TO_ANGSTROM X)) e_shift coupling w o w'.
Proof.
  intros Hrun. unfold e_g_function_python in Hrun.
  rewrite (bind_Return _ _ _ _ _ (log_run _ _)) in Hrun.
  set (w0 := add_event (EvBridge mol) w) in *.
  set (co := array_mul (atom_coords X mol) (BOHR_TO_ANGSTROM X)) in *.
  assert (Ht0 : trace w0 = trace w ++ [EvBridge mol]) by reflexivity.
  assert (Hh0 : heap w0 = heap w) by reflexivity.
  cbv zeta in Hrun.
  bind_inv Hrun.
  - apply (for_each_appends_results co _ _ (evaluate_calculator_appends co) tt)
      in Hc as (evs & Hstep & ->).
    simpl in Hrun.
    eapply (bridge_compose _ _ _ (ret tt) _ _ _ w0 _ _ evs);
      [exact Ht0 | exact Hh0 | exact Hstep | |].
    + intros w3 o3 w3' Hr. inversion Hr; subst. apply quiet_refl.
    + exact Hrun.
  - apply (for_each_appends_results co _ _ (evaluate_calculator_appends co) tt)
      in Hrun as (evs & Hstep & _).
    eapply (bridge_failed _ _ _ _ _ _ w0 _ evs); try eassumption; reflexivity.
Qed.

Lemma e_g_partial_spec (b : Bridge) (results : loc) e_shift coupling mol w o w' :
  e_g_partial X b results e_shift coupling mol w = (o, w') ->
  bridge_spec X results mol
    (array_mul (atom_coords X mol) (BOHR_TO_ANGSTROM X)) e_shift coupling w o w'.
Proof.
  destruct b; simpl; [apply e_g_function_spec | apply e_g_function_python_spec].
Qed.



(** ** The accumulator over invocations *)

Lemma evaluator_event_is_call co ev :
  evaluator_event_with co ev -> evaluator_call ev.
Proof. destruct ev; simpl; auto. Qed.

Lemma sizes_append_record co en en_ad gr gr_ad idx r :
  sizes (append_record co en en_ad gr gr_ad idx r) = map S (sizes r).
Proof.
  unfold sizes, append_record. simpl. rewrite !length_app. simpl.
  rewrite !Nat.add_1_r. reflexivity.
Qed.

Lemma extends_append_record co en en_ad gr gr_ad idx r :
  extends r (append_record co en en_ad gr gr_ad idx r).
Proof. repeat split; simpl; apply prefix_app_r; reflexivity. Qed.

Lemma extends_refl r : extends r r.
Proof. repeat split; reflexivity. Qed.

Lemma extends_trans r1 r2 r3 : extends r1 r2 -> extends r2 r3 -> extends r1 r3.
Proof.
  intros (A1 & A2 & A3 & A4 & A5 & A6) (B1 & B2 & B3 & B4 & B5 & B6).
  repeat split; etransitivity; eassumption.
Qed.

Lemma bridge_appends_or_raises (b : Bridge) (results : loc) e_shift coupling
    mol w o w' r :
  e_g_partial X b results e_shift coupling mol w = (o, w') ->
  results_at w results = Some r ->
  (results_at w' results = Some r /\ is_Return o = false) \/
  (exists co en en_ad gr gr_ad idx,
     results_at w' results = Some (append_record co en en_ad gr gr_ad idx r)).
Proof.
  intros Hrun Hr. apply e_g_partial_spec in Hrun as (evs & _ & Hspec).
  destruct Hspec as [(_ & Hres & Ho) | (en & _ & _ & Hrest)].
  { left. rewrite Hres. split; assumption. }
  destruct Hrest as [[Hres Ho] | (en_ad & gr_ad & idx & r0 & _ & Hr0 & Hres & _)].
  { left. rewrite Hres. split; assumption. }
  right. rewrite Hr in Hr0. inversion Hr0; subst r0. eauto 10.
Qed.

Lemma bridge_invocations_app evs1 evs2 :
  bridge_invocations (evs1 ++ evs2) =
  (bridge_invocations evs1 + bridge_invocations evs2)%nat.
Proof.
  induction evs1 as [| ev evs1 IH]; [reflexivity |].
  destruct ev; simpl; rewrite IH; reflexivity.
Qed.

Lemma bridge_invocations_evaluators evs :
  Forall evaluator_call evs -> bridge_invocations evs = 0%nat.
Proof.
  induction 1 as [| ev evs Hev _ IH]; [reflexivity |].
  destruct ev; simpl in *; try contradiction; exact IH.
Qed.

(** An invocation that returns: one entry more, one invocation on the
    trace. *)
Lemma bridge_returns_appended (b : Bridge) (results : loc) e_shift coupling
    mol w a w' r :
  e_g_partial X b results e_shift coupling mol w = (Return a, w') ->
  results_at w results = Some r ->
  exists r' evs,
    results_at w' results = Some r' /\ extends r r' /\
    sizes r' = map S (sizes r) /\
    trace w' = trace w ++ evs /\ bridge_invocations evs = 1%nat.
Proof.
  intros Hrun Hr. apply e_g_partial_spec in Hrun as (evs & Hevs & Hspec).
  destruct Hspec as [(_ & _ & Ho) | (en & _ & Ht & Hrest)]; [discriminate |].
  destruct Hrest as [[_ Ho] | (en_ad & gr_ad & idx & r0 & _ & Hr0 & Hres & _)];
    [discriminate |].
  rewrite Hr in Hr0. inversion Hr0; subst r0.
  eexists _, _. split; [exact Hres |].
  split; [apply extends_append_record |].
  split; [apply sizes_append_record |]. split; [exact Ht |].
  simpl. rewrite bridge_invocations_app, bridge_invocations_evaluators.
  - reflexivity.
  - eapply Forall_impl; [exact Hevs |]. apply evaluator_event_is_call.
Qed.

(** A run of an optimiser over a bridge, when it returns: the accumulator
    has grown by the number of invocations. *)
Lemma drive_bridge_grows (b : Bridge) (results : loc) e_shift coupling
    (strategy : Optimizer Mole) :
  forall w w' r,
    drive (e_g_partial X b results e_shift coupling) (fun _ => ret tt) strategy w
    = (Return tt, w') ->
    results_at w results = Some r ->
    exists r' evs,
      trace w' = trace w ++ evs /\
      results_at w' results = Some r' /\ extends r r' /\
      sizes r' = map (Nat.add (bridge_invocations evs)) (sizes r).
Proof.
  induction strategy as [| e | q k IH | f k IH | out err k IH | m k IH];
    intros w w' r Hrun Hr; simpl in Hrun.
  - inversion Hrun; subst. exists r, []. rewrite app_nil_r.
    repeat split; try apply extends_refl; assumption.
  - discriminate.
  - bind_inv Hrun.
    destruct (bridge_returns_appended _ _ _ _ _ _ _ _ _ Hc Hr)
      as (r1 & evs1 & Hr1 & Hext1 & Hsizes1 & Ht1 & Hn1).
    destruct (IH _ _ _ _ Hrun Hr1) as (r' & evs2 & Ht2 & Hr' & Hext2 & Hsizes2).
    exists r', (evs1 ++ evs2). split; [rewrite Ht2, Ht1, app_assoc; reflexivity |].
    split; [exact Hr' |]. split; [eapply extends_trans; eassumption |].
    rewrite Hsizes2, Hsizes1, bridge_invocations_app, Hn1.
    unfold sizes. simpl. repeat f_equal; lia.
  - bind_inv Hrun. inversion Hc; subst. apply (IH _ _ r) in Hrun; [| exact Hr].
    exact Hrun.
  - bind_inv Hrun. inversion Hc; subst. apply (IH _ _ r) in Hrun; [| exact Hr].
    exact Hrun.
  - bind_inv Hrun. inversion Hc; subst. apply (IH _ _ r) in Hrun; [| exact Hr].
    exact Hrun.
Qed.

(** ** The energy shift *)

Lemma iadd_last_spec raw d en :
  iadd_last raw d = Return en -> shifted_last raw d en.
Proof.
  unfold iadd_last, py_index. cbv zeta.
  change (-1 <? 0) with true. cbv iota.
  set (n := Z.of_nat (length raw)).
  destruct ((-1 + n <? 0) || (n <=? -1 + n)) eqn:Hrange; [discriminate |].
  apply orb_false_elim in Hrange as [Hneg _]. apply Z.ltb_ge in Hneg.
  assert (Hpos : (0 < length raw)%nat) by lia.
  replace (Z.to_nat (-1 + n)) with (Nat.pred (length raw)) by lia.
  destruct (raw !! Nat.pred (length raw)) as [x |] eqn:Hx; [| discriminate].
  intros Hen. inversion Hen; subst en; clear Hen.
  split; [apply length_insert |]. split.
  - intros i Hi. apply list_lookup_insert_ne. lia.
  - exists x. split.
    + rewrite last_lookup. exact Hx.
    + rewrite last_lookup, length_insert. apply list_lookup_insert_eq. lia.
Qed.

(** In a trace that ends with its only call of the solver, a call of the
    solver is that last event. *)
Lemma solver_call_is_last (evs pre post : list Event) en gr c en' gr' c' :
  Forall evaluator_call evs ->
  evs ++ [EvSolver en gr c] = pre ++ EvSolver en' gr' c' :: post ->
  pre = evs /\ post = [] /\ en' = en /\ gr' = gr /\ c' = c.
Proof.
  intros Hcalls. revert pre. induction Hcalls as [| ev evs Hev _ IH]; intros pre Heq.
  - destruct pre as [| p pre]; simpl in Heq.
    + inversion Heq; subst. repeat split.
    + inversion Heq as [[Hp Hnil]]. destruct pre; discriminate.
  - destruct pre as [| p pre]; simpl in Heq.
    + inversion Heq; subst. destruct Hev.
    + inversion Heq as [[Hp Htl]]. subst p.
      destruct (IH _ Htl) as (-> & -> & -> & -> & ->). repeat split.
Qed.

Lemma no_solver_call (evs pre post : list Event) en gr c :
  Forall evaluator_call evs -> evs <> pre ++ EvSolver en gr c :: post.
Proof.
  intros Hcalls Heq. subst evs. apply Forall_app in Hcalls as [_ Hcalls].
  inversion Hcalls as [| ? ? Hev _]. destruct Hev.
Qed.

(** ** Units at the evaluator boundary *)

Lemma e_g_function_ci_python_trace mol (calculator : loc) e_shift path w o w' :
  e_g_function_ci_python X mol calculator e_shift path w = (o, w') ->
  exists evs,
    trace w' = trace w ++ EvBridge mol :: evs /\
    Forall (evaluator_event_with
              (array_mul (atom_coords X mol) (BOHR_TO_ANGSTROM X))) evs.
Proof.
  intros Hrun. unfold e_g_function_ci_python in Hrun.
  rewrite (bind_Return _ _ _ _ _ (log_run _ _)) in Hrun. cbv zeta in Hrun.
  set (co := array_mul (atom_coords X mol) (BOHR_TO_ANGSTROM X)) in *.
  bind_inv Hrun.
  - apply calculator_set_coordinates_run in Hc as (evs1 & (_ & Ht1 & Hf1) & _).
    assert (Hsp : exists o2, calculator_sp X calculator w0 = (o2, w')).
    { unfold bind in Hrun.
      destruct (calculator_sp X calculator w0) as [[[energy gradient] | e] w2];
        inversion Hrun; subst; eauto. }
    destruct Hsp as [o2 Hsp].
    apply (calculator_sp_run _ co) in Hsp as (evs2 & (_ & Ht2 & Hf2) & _).
    exists (evs1 ++ evs2). split.
    + rewrite Ht2, Ht1. simpl. rewrite <- !app_assoc. reflexivity.
    + apply Forall_app. split; assumption.
  - apply calculator_set_coordinates_run in Hrun as (evs1 & (_ & Ht1 & Hf1) & _).
    exists evs1. split; [| assumption].
    rewrite Ht1. simpl. rewrite <- app_assoc. reflexivity.
Qed.

Lemma e_g_function_ci_trace mol topologies (results : loc) keywords
    xcontrol_keywords e_shift path w o w' :
  e_g_function_ci X mol topologies results keywords xcontrol_keywords e_shift
    path w = (o, w') ->
  exists evs,
    trace w' = trace w ++ EvBridge mol :: evs /\
    Forall (evaluator_event_with
              (array_mul (atom_coords X mol) (BOHR_TO_ANGSTROM X))) evs.
Proof.
  intros Hrun. unfold e_g_function_ci in Hrun.
  rewrite (bind_Return _ _ _ _ _ (log_run _ _)) in Hrun.
  set (co := array_mul (atom_coords X mol) (BOHR_TO_ANGSTROM X)) in *.
  bind_inv Hrun.
  2:{ apply working_directories_quiet in Hrun as [_ Ht].
      exists []. split; [rewrite Ht; reflexivity | constructor]. }
  apply working_directories_quiet in Hc as [_ Ht1].
  destruct a as [[xtb_paths temp_dirs] cleanup].
  assert (Hloop : forall s o2 w2,
             for_each (zip topologies xtb_paths)
               (evaluate_state X (atom_charges X mol) co
                  (normalize_keywords X keywords ∪ {["--grad"]})
                  xcontrol_keywords) s w0 = (o2, w2) ->
             exists evs,
               trace w2 = trace w ++ EvBridge mol :: evs /\
               Forall (evaluator_event_with co) evs).
  { intros s o2 w2 Hl.
    apply (for_each_appends_results co _ _ (evaluate_state_appends _ co _ _) tt)
      in Hl as (evs & (_ & Ht2 & Hf) & _).
    exists evs. split; [| exact Hf].
    rewrite Ht2, Ht1. simpl. rewrite <- app_assoc. reflexivity. }
  bind_inv Hrun; [| eapply Hloop; exact Hrun].
  apply Hloop in Hc as (evs & Ht & Hf). exists evs. split; [| exact Hf].
  destruct a as [energies gradients].
  bind_inv Hrun.
  - unfold lift in Hc. inversion Hc; subst.
    unfold bind, raise in Hrun. inversion Hrun; subst. exact Ht.
  - unfold lift in Hrun. inversion Hrun; subst. exact Ht.
Qed.


Lemma ts_from_gfnff_ci_python_result elements coordinates calculators e_shift
    maxsteps alpha sigma callback conv_params path w opt_coordinates w' :
  ts_from_gfnff_ci_python X elements coordinates calculators e_shift
    maxsteps alpha sigma callback conv_params path w
  = (Return opt_coordinates, w') ->
  exists methods w1 conv opt_mole,
    optimize_ci X methods (ASSERT_CONV X) (INCLUDE_GHOST X) None callback
      maxsteps alpha sigma (default ∅ conv_params) w1
    = (Return (conv, opt_mole), w') /\
    opt_coordinates = array_mul (atom_coords X opt_mole) (BOHR_TO_ANGSTROM X).
Proof.
  intros Hrun. unfold ts_from_gfnff_ci_python in Hrun. cbv zeta in Hrun.
  bind_inv Hrun. bind_inv Hrun. bind_inv Hrun. bind_inv Hrun. bind_inv Hrun.
  destruct a3 as [conv opt_mole]. inversion Hrun; subst.
  eauto 10.
Qed.

(** ** Staging *)

Lemma keeps_refl (P : Path -> Prop) f : keeps P f f.
Proof. intros q n _ Hq. exact Hq. Qed.

Lemma keeps_trans (P : Path -> Prop) f1 f2 f3 : keeps P f1 f2 -> keeps P f2 f3 -> keeps P f1 f3.
Proof. intros H12 H23 q n Hp Hq. eapply H23, H12; eassumption. Qed.

Lemma node_at_None f p : node_at f p = None -> f !! p = None.
Proof. destruct p; [discriminate | intros Hn; exact Hn]. Qed.

Lemma insert_absent_keeps (P : Path -> Prop) f p (n : node) :
  node_at f p = None -> keeps P f (<[p := n]> f).
Proof.
  intros Hn q m _ Hq. apply node_at_None in Hn.
  rewrite lookup_insert_ne; [exact Hq |]. intros ->. congruence.
Qed.

(** [mkdir(exist_ok=True)] creates the directory only where there is
    nothing: no entry that exists is changed. *)
Lemma mkdir_exist_ok_keeps (P : Path -> Prop) p f f' :
  mkdir_exist_ok p f = Return f' -> keeps P f f'.
Proof.
  unfold mkdir_exist_ok.
  destruct (node_at f p) as [[| c] |] eqn:Hp; intros Hrun;
    [inversion Hrun; subst; apply keeps_refl | discriminate |].
  destruct (node_at f (parent p)) as [[| c] |]; inversion Hrun; subst.
  apply insert_absent_keeps, Hp.
Qed.

Lemma os_mkdir_keeps (P : Path -> Prop) p f f' : os_mkdir p f = Return f' -> keeps P f f'.
Proof.
  unfold os_mkdir. destruct (node_at f p) eqn:Hp; [discriminate |].
  destruct (node_at f (parent p)) as [[| c] |]; intros Hrun; inversion Hrun; subst.
  apply insert_absent_keeps, Hp.
Qed.

(** A file written where [path_exists] found nothing changes no entry. *)
Lemma write_bytes_absent_keeps (P : Path -> Prop) p content f f' :
  path_exists f p = false ->
  write_bytes p content f = Return f' -> keeps P f f'.
Proof.
  unfold path_exists, write_bytes.
  destruct (node_at f p) eqn:Hp; [discriminate |]. intros _.
  destruct (node_at f (parent p)) as [[| c] |]; intros Hrun; inversion Hrun; subst.
  apply insert_absent_keeps, Hp.
Qed.

Lemma on_fs_keeps (P : Path -> Prop) (f : FS -> Outcome FS) w o w' :
  (forall f', f (fs w) = Return f' -> keeps P (fs w) f') ->
  on_fs f w = (o, w') -> wkeeps P w w'.
Proof.
  intros Hf Hrun. apply on_fs_run in Hrun as (_ & _ & Hfs). unfold wkeeps.
  destruct (f (fs w)) as [f' | e].
  - destruct Hfs as [-> _]. apply Hf. reflexivity.
  - destruct Hfs as [-> _]. apply keeps_refl.
Qed.

Lemma evaluate_state_keeps (P : Path -> Prop) elements co keywords xcontrol_keywords item s w o w' :
  run_xtb_keeps X P ->
  evaluate_state X elements co keywords xcontrol_keywords item s w = (o, w') ->
  wkeeps P w w'.
Proof.
  intros Hxtb Hrun. destruct item as [topology xtb_path], s as [energies gradients].
  unfold evaluate_state in Hrun.
  assert (Hmk : forall o1 w1, on_fs (mkdir_exist_ok xtb_path) w = (o1, w1) ->
                              wkeeps P w w1).
  { intros o1 w1. apply on_fs_keeps. intros f'. apply mkdir_exist_ok_keeps. }
  bind_inv Hrun; [| eapply Hmk; eassumption].
  apply Hmk in Hc. unfold wkeeps in *.
  eapply keeps_trans; [exact Hc |]. clear Hc Hmk.
  bind_inv Hrun; [| inversion Hrun].
  inversion Hc; subst a0 w1; clear Hc.
  assert (Hwr : forall o1 w1,
             (if negb (path_exists (fs w0) (joinpath xtb_path "gfnff_topo"))
              then on_fs (write_bytes (joinpath xtb_path "gfnff_topo") topology)
              else ret tt) w0 = (o1, w1) ->
             keeps P (fs w0) (fs w1)).
  { intros o1 w1.
    destruct (path_exists (fs w0) (joinpath xtb_path "gfnff_topo")) eqn:Hex; simpl.
    - intros Hr. inversion Hr; subst. apply keeps_refl.
    - apply on_fs_keeps. intros f'. apply write_bytes_absent_keeps, Hex. }
  bind_inv Hrun; [| eapply Hwr; eassumption].
  apply Hwr in Hc. eapply keeps_trans; [exact Hc |]. clear Hc Hwr.
  assert (Hx : forall o2 w2,
             call_run_xtb X elements co xtb_path keywords xcontrol_keywords w1
             = (o2, w2) -> keeps P (fs w1) (fs w2)).
  { intros o2 w2. unfold call_run_xtb, bind, log. simpl.
    destruct (run_xtb X _ _ _ _ _ _) as [r f'] eqn:Hr. intros Heq.
    inversion Heq; subst. simpl. eapply Hxtb. exact Hr. }
  bind_inv Hrun; [| eapply Hx; eassumption].
  apply Hx in Hc. eapply keeps_trans; [exact Hc |]. clear Hc Hx.
  unfold bind, call_parse_engrad in Hrun.
  destruct (parse_engrad X _ (fs w2)) as [[energy gradient] | e];
    inversion Hrun; subst; apply keeps_refl.
Qed.

Lemma wkeeps_refl (P : Path -> Prop) w : wkeeps P w w.
Proof. apply keeps_refl. Qed.

Lemma wkeeps_trans (P : Path -> Prop) w w1 w2 : wkeeps P w w1 -> wkeeps P w1 w2 -> wkeeps P w w2.
Proof. apply keeps_trans. Qed.

Lemma TemporaryDirectory_keeps (P : Path -> Prop) w o w' :
  TemporaryDirectory X w = (o, w') -> wkeeps P w w'.
Proof.
  unfold TemporaryDirectory, wkeeps.
  destruct (os_mkdir _ _) eqn:Hmk; intros Hrun; inversion Hrun; subst; simpl.
  - eapply os_mkdir_keeps. exact Hmk.
  - apply keeps_refl.
Qed.

Lemma working_directories_keeps (P : Path -> Prop) path n w o w' :
  working_directories X path n w = (o, w') -> wkeeps P w w'.
Proof.
  unfold working_directories. destruct path as [p |]; intros Hrun.
  - inversion Hrun; subst. apply wkeeps_refl.
  - assert (Hloop : forall s o1 w1,
               for_each (seq 0 n)
                 (fun (_ : nat) (acc : list Path) =>
                    bind (TemporaryDirectory X) (fun name => ret (acc ++ [name])))
                 s w = (o1, w1) -> wkeeps P w w1).
    { intros s o1 w1.
      apply (for_each_invariant (wkeeps P)); [apply wkeeps_refl | apply wkeeps_trans |].
      intros x s1 w2 o2 w2' Hb. bind_inv Hb.
      - inversion Hb; subst. eapply TemporaryDirectory_keeps; eassumption.
      - eapply TemporaryDirectory_keeps; eassumption. }
    bind_inv Hrun.
    + inversion Hrun; subst. eapply Hloop; eassumption.
    + eapply Hloop; eassumption.
Qed.

(** The clean-up of the temporary directories only removes entries. *)
Lemma cleanup_temp_dirs_subseteq temp_dirs w o w' :
  cleanup_temp_dirs temp_dirs w = (o, w') -> fs w' ⊆ fs w.
Proof.
  unfold cleanup_temp_dirs.
  apply (for_each_invariant (fun w w' => fs w' ⊆ fs w)).
  - intros w0. reflexivity.
  - intros w0 w1 w2 H1 H2. etransitivity; eassumption.
  - intros p s w1 o1 w1' Hrun. apply on_fs_run in Hrun as (_ & _ & Hfs).
    unfold tempdir_cleanup in Hfs.
    destruct (node_at (fs w1) p) as [[| c] |]; destruct Hfs as [-> _];
      try reflexivity.
    unfold remove_tree. apply map_filter_subseteq.
Qed.

Lemma store_results_fs (results : loc) co en en_ad gr gr_ad idx w o w' :
  store_results results co en en_ad gr gr_ad idx w = (o, w') -> fs w' = fs w.
Proof.
  pose proof (store_results_run results co en en_ad gr gr_ad idx w) as Hstore.
  destruct (results_at w results).
  - rewrite Hstore. intros Hrun. inversion Hrun; subst. reflexivity.
  - destruct Hstore as [e ->]. intros Hrun. inversion Hrun; subst. reflexivity.
Qed.

(** After the evaluators, only the clean-up step touches the file system. *)
Lemma bridge_tail_fs (results : loc) co (cleanup_step : M unit)
    e_shift coupling s w o w' :
  bridge_tail X results co cleanup_step e_shift coupling s w = (o, w') ->
  fs w' = fs w \/
  exists w1 o1 w1',
    fs w1 = fs w /\ cleanup_step w1 = (o1, w1') /\ fs w' = fs w1'.
Proof.
  destruct s as [en0 gr0]. intros Hrun. unfold bridge_tail in Hrun.
  bind_inv Hrun.
  2:{ left. unfold lift in Hrun. inversion Hrun; subst. reflexivity. }
  unfold lift in Hc. inversion Hc; subst w0; clear Hc.
  unfold call_evb_eigenvalues in Hrun. unfold bind at 1 in Hrun.
  unfold bind at 1 in Hrun. unfold log at 1 in Hrun. unfold lift at 1 in Hrun.
  destruct (evb_eigenvalues X a gr0 coupling) as [[[en_ad gr_ad] idx] | e].
  2:{ left. inversion Hrun; subst. reflexivity. }
  bind_inv Hrun.
  2:{ right. eexists _, _, _. split; [| split; [exact Hrun | reflexivity]].
      reflexivity. }
  right. exists (add_event (EvSolver a gr0 coupling) w), (Return a0), w0.
  split; [reflexivity |]. split; [exact Hc |].
  bind_inv Hrun.
  - apply store_results_fs in Hc0. rewrite <- Hc0.
    unfold bind, lift, ret in Hrun.
    destruct (py_index en_ad 1); [destruct (py_index gr_ad 1) |];
      inversion Hrun; subst; reflexivity.
  - apply store_results_fs in Hrun. exact Hrun.
Qed.

Lemma for_each_evaluate_state_keeps (P : Path -> Prop) elements co keywords
    xcontrol_keywords items s w o w' :
  run_xtb_keeps X P ->
  for_each items (evaluate_state X elements co keywords xcontrol_keywords) s w
  = (o, w') ->
  wkeeps P w w'.
Proof.
  intros Hxtb.
  apply (for_each_invariant (wkeeps P)); [apply wkeeps_refl | apply wkeeps_trans |].
  intros item s1 w1 o1 w1'. apply evaluate_state_keeps, Hxtb.
Qed.

Lemma e_g_function_fs (P : Path -> Prop) mol topologies (results : loc)
    keywords xcontrol_keywords e_shift coupling path w o w' :
  run_xtb_keeps X P ->
  e_g_function X mol topologies results keywords xcontrol_keywords e_shift
    coupling path w = (o, w') ->
  exists f1, keeps P (fs w) f1 /\ fs w' ⊆ f1 /\ (path <> None -> fs w' = f1).
Proof.
  intros Hxtb Hrun. unfold e_g_function in Hrun.
  rewrite (bind_Return _ _ _ _ _ (log_run _ _)) in Hrun.
  set (w0 := add_event (EvBridge mol) w) in *.
  assert (Hfs0 : fs w0 = fs w) by reflexivity.
  bind_inv Hrun.
  2:{ apply (working_directories_keeps P) in Hrun. exists (fs w').
      split; [exact Hrun |]. split; [reflexivity | intros _; reflexivity]. }
  assert (Hmode : path <> None -> snd a = false).
  { destruct path as [p |]; [| congruence]. intros _.
    unfold working_directories in Hc. inversion Hc; subst. reflexivity. }
  apply (working_directories_keeps P) in Hc. unfold wkeeps in Hc.
  rewrite Hfs0 in Hc.
  destruct a as [[xtb_paths temp_dirs] cleanup]. simpl in Hmode.
  bind_inv Hrun.
  2:{ apply (for_each_evaluate_state_keeps P) in Hrun; [| assumption].
      exists (fs w'). split; [eapply keeps_trans; eassumption |].
      split; [reflexivity | intros _; reflexivity]. }
  apply (for_each_evaluate_state_keeps P) in Hc0; [| assumption].
  assert (Hk : keeps P (fs w) (fs w2)) by (eapply keeps_trans; eassumption).
  destruct a as [energies gradients].
  change (bridge_tail X results
            (array_mul (atom_coords X mol) (BOHR_TO_ANGSTROM X))
            (if cleanup then cleanup_temp_dirs temp_dirs else ret tt)
            e_shift coupling (energies, gradients) w2 = (o, w')) in Hrun.
  apply bridge_tail_fs in Hrun as [Hsame | (w3 & o3 & w3' & Hfs3 & Hclean & Hfs')].
  - exists (fs w2). split; [assumption |]. rewrite Hsame.
    split; [reflexivity | intros _; reflexivity].
  - exists (fs w2). split; [assumption |]. rewrite Hfs', <- Hfs3. split.
    + destruct cleanup.
      * eapply cleanup_temp_dirs_subseteq. exact Hclean.
      * inversion Hclean; subst. reflexivity.
    + intros Hpath. rewrite (Hmode Hpath) in Hclean.
      inversion Hclean; subst. reflexivity.
Qed.

Lemma e_g_function_ci_fs (P : Path -> Prop) mol topologies (results : loc)
    keywords xcontrol_keywords e_shift path w o w' :
  run_xtb_keeps X P ->
  e_g_function_ci X mol topologies results keywords xcontrol_keywords e_shift
    path w = (o, w') ->
  keeps P (fs w) (fs w') /\ o = Raise (NameError "coupling") \/
  keeps P (fs w) (fs w') /\ is_Return o = false.
Proof.
  intros Hxtb Hrun. unfold e_g_function_ci in Hrun.
  rewrite (bind_Return _ _ _ _ _ (log_run _ _)) in Hrun.
  set (w0 := add_event (EvBridge mol) w) in *.
  assert (Hfs0 : fs w0 = fs w) by reflexivity.
  bind_inv Hrun.
  2:{ apply (working_directories_keeps P) in Hrun. right.
      split; [exact Hrun | reflexivity]. }
  apply (working_directories_keeps P) in Hc. unfold wkeeps in Hc.
  rewrite Hfs0 in Hc.
  destruct a as [[xtb_paths temp_dirs] cleanup].
  bind_inv Hrun.
  2:{ apply (for_each_evaluate_state_keeps P) in Hrun; [| assumption].
      right. split; [eapply keeps_trans; eassumption | reflexivity]. }
  apply (for_each_evaluate_state_keeps P) in Hc0; [| assumption].
  assert (Hk : keeps P (fs w) (fs w2)) by (eapply keeps_trans; eassumption).
  destruct a as [energies gradients].
  bind_inv Hrun.
  - unfold lift in Hc1. inversion Hc1; subst. left.
    unfold bind, raise in Hrun. inversion Hrun; subst. split; [assumption | reflexivity].
  - unfold lift in Hrun. inversion Hrun; subst. right. split; [assumption | reflexivity].
Qed.

(** C5.  Staging is idempotent.  Let [P] be paths whose entries the
    evaluator itself leaves alone (the [gfnff_topo] files, the working
    directories).  An invocation of [e_g_function] or [e_g_function_ci]
    never overwrites an entry that exists at such a path: the directory is
    made and the topology written only where nothing is.  With a [path]
    given, the entry is there afterwards with the same content, also after
    any number of invocations; without one, the only other thing that can
    happen to it is that the clean-up of the temporary directories removes
    it. *)
Theorem staging_never_overwrites (P : Path -> Prop) :
  run_xtb_keeps X P ->
  (forall mol topologies (results : loc) keywords xcontrol_keywords e_shift
          coupling path w o w' q n,
     e_g_function X mol topologies results keywords xcontrol_keywords e_shift
       coupling path w = (o, w') ->
     P q -> fs w !! q = Some n ->
     (fs w' !! q = Some n \/ fs w' !! q = None) /\
     (path <> None -> fs w' !! q = Some n)) /\
  (forall mol topologies (results : loc) keywords xcontrol_keywords e_shift
          path w o w' q n,
     e_g_function_ci X mol topologies results keywords xcontrol_keywords e_shift
       path w = (o, w') ->
     P q -> fs w !! q = Some n -> fs w' !! q = Some n) /\
  (forall topologies (results : loc) keywords xcontrol_keywords e_shift
          coupling p mols w o w' q n,
     invocations
       (fun mol =>
          e_g_function X mol topologies results keywords xcontrol_keywords
            e_shift coupling (Some p)) mols w = (o, w') ->
     P q -> fs w !! q = Some n -> fs w' !! q = Some n).
Proof.
  intros Hxtb. split; [| split].
  - intros mol topologies results keywords xcontrol_keywords e_shift coupling
      path w o w' q n Hrun Hp Hq.
    apply (e_g_function_fs P) in Hrun as (f1 & Hk & Hsub & Heq); [| assumption].
    pose proof (Hk _ _ Hp Hq) as Hq1. split.
    + destruct (fs w' !! q) as [n' |] eqn:Hq'; [| right; reflexivity].
      left. pose proof (lookup_weaken _ _ _ _ Hq' Hsub) as Hq2.
      rewrite Hq1 in Hq2. inversion Hq2; subst. reflexivity.
    + intros Hpath. rewrite (Heq Hpath). exact Hq1.
  - intros mol topologies results keywords xcontrol_keywords e_shift path
      w o w' q n Hrun Hp Hq.
    apply (e_g_function_ci_fs P) in Hrun; [| assumption].
    destruct Hrun as [[Hk _] | [Hk _]]; eapply Hk; eassumption.
  - intros topologies results keywords xcontrol_keywords e_shift coupling p
      mols w o w' q n Hrun Hp Hq.
    assert (Hk : wkeeps P w w'); [| eapply Hk; eassumption].
    revert Hrun. unfold invocations.
    apply (for_each_invariant (wkeeps P)); [apply wkeeps_refl | apply wkeeps_trans |].
    intros mol s w1 o1 w1' Hb.
    assert (Hone : forall o2 w2,
               e_g_function X mol topologies results keywords
                 xcontrol_keywords e_shift coupling (Some p) w1 = (o2, w2) ->
               wkeeps P w1 w2).
    { intros o2 w2 Hr.
      apply (e_g_function_fs P) in Hr as (f1 & Hk & _ & Heq); [| assumption].
      unfold wkeeps. rewrite Heq by discriminate. exact Hk. }
    bind_inv Hb.
    + inversion Hb; subst. eapply Hone; eassumption.
    + eapply Hone; eassumption.
Qed.

(** ** Solver selection *)

Lemma select_solver_unknown solver :
  solver <> "pyberny" -> solver <> "geometric" -> select_solver solver = None.
Proof.
  intros Hb Hg. unfold select_solver.
  apply String.eqb_neq in Hb. apply String.eqb_neq in Hg.
  rewrite Hb, Hg. reflexivity.
Qed.

Lemma get_pyscf_mole_pure elements coordinates :
  exists o, forall w, get_pyscf_mole X elements coordinates w = (o, w).
Proof.
  unfold get_pyscf_mole, bind, lift.
  destruct (convert_elements_symbols X elements) as [symbols | e];
    [| eexists; intros w; reflexivity].
  destruct (convert_elements_numbers X symbols) as [numbers | e];
    eexists; intros w; reflexivity.
Qed.

Lemma alloc_trace (o : pyobj) w :
  exists l w', alloc o w = (Return l, w') /\ trace w' = trace w /\ fs w' = fs w.
Proof. eexists _, _. split; [reflexivity |]. split; reflexivity. Qed.

(** The drivers after the bridge is bound, when no solver was selected. *)
Lemma unbound_solver_block w :
  with_redirect (raise (UnboundLocalError "pyscf_solver") : M unit) w =
  (Raise (UnboundLocalError "pyscf_solver"),
   set_streams (sys_stdout w) (sys_stderr w) (set_streams "" "" w)).
Proof. reflexivity. Qed.

(** C9, amended.  A solver name that is neither "pyberny" nor "geometric"
    selects nothing: the local [pyscf_solver] stays unbound.
    [ts_from_gfnff] and [ts_from_gfnff_python] then raise, and the trace
    is what it was: no optimiser was entered and no evaluator called.
    What they raise is the unbound-variable error, unless a step before
    the selection fails: if the directory of [path] cannot be made, or
    else the molecule cannot be built, the exception is that step's. *)
Theorem unknown_solver_is_unbound solver elements coordinates topologies
    keywords xcontrol_keywords calculators e_shift coupling maxsteps callback
    conv_params path w :
  solver <> "pyberny" -> solver <> "geometric" ->
  let mole := (get_pyscf_mole X elements coordinates w).1 in
  select_solver solver = None /\
  (exists w',
     ts_from_gfnff X elements coordinates topologies keywords xcontrol_keywords
       e_shift coupling maxsteps callback conv_params solver path w
     = (Raise
          (default (UnboundLocalError "pyscf_solver")
             (setup_failure
                match path with
                | Some p =>
                    if path_truthy path
                    then Some (mkdir_exist_ok (Path_of X p) (fs w))
                    else None
                | None => None
                end mole)), w') /\
     trace w' = trace w) /\
  (exists w',
     ts_from_gfnff_python X elements coordinates calculators e_shift coupling
       maxsteps callback conv_params solver path w
     = (Raise
          (default (UnboundLocalError "pyscf_solver")
             (setup_failure
                match path with
                | Some p => Some (mkdir_exist_ok (Path_of X p) (fs w))
                | None => None
                end mole)), w') /\
     trace w' = trace w).
Proof.
  intros Hb Hg mole. pose proof (select_solver_unknown _ Hb Hg) as Hsel.
  destruct (get_pyscf_mole_pure elements coordinates) as [omol Hmol].
  assert (Hmole : mole = omol) by (unfold mole; rewrite Hmol; reflexivity).
  rewrite Hmole. clear mole Hmole.
  split; [exact Hsel |]. split.
  - unfold ts_from_gfnff. rewrite Hsel. cbv zeta.
    set (setup := match path with
                  | Some p =>
                      if path_truthy path
                      then bind (on_fs (mkdir_exist_ok (Path_of X p)))
                             (fun _ => ret (Some (PathObj (Path_of X p))))
                      else ret path
                  | None => ret path
                  end).
    set (made := match path with
                 | Some p =>
                     if path_truthy path
                     then Some (mkdir_exist_ok (Path_of X p) (fs w))
                     else None
                 | None => None
                 end).
    assert (Hsetup :
              (exists e, setup w = (Raise e, w) /\ made = Some (Raise e)) \/
              (exists path' w1,
                 setup w = (Return path', w1) /\ trace w1 = trace w /\
                 forall e, made <> Some (Raise e))).
    { unfold setup, made. destruct path as [p |];
        [| right; eexists _, _; repeat split; discriminate].
      destruct (path_truthy (Some p)) eqn:Htruthy;
        [| right; eexists _, _; repeat split; discriminate].
      unfold bind, on_fs.
      destruct (mkdir_exist_ok (Path_of X p) (fs w)) as [f' | e] eqn:Hmk.
      - right. eexists _, _. repeat split. discriminate.
      - left. exists e. split; reflexivity. }
    destruct Hsetup as [(e & Hs & ->) | (path' & w1 & Hs & Ht & Hmade)].
    { exists w. rewrite (bind_Raise _ _ _ _ _ Hs). split; reflexivity. }
    rewrite (bind_Return _ _ _ _ _ Hs).
    destruct (alloc_trace (PyOptResults OptResults_new) w1)
      as (results & w2 & Halloc & Ht2 & _).
    rewrite (bind_Return _ _ _ _ _ Halloc).
    assert (Hfail : setup_failure made omol =
                    match omol with Raise e => Some e | Return _ => None end).
    { unfold setup_failure. destruct made as [[f | e] |]; try reflexivity.
      exfalso. eapply Hmade. reflexivity. }
    rewrite Hfail.
    destruct omol as [mole | e].
    + rewrite (bind_Return _ _ _ _ _ (Hmol w2)).
      rewrite (bind_Raise _ _ _ _ _ (unbound_solver_block w2)).
      eexists. split; [reflexivity |]. simpl. rewrite Ht2. exact Ht.
    + rewrite (bind_Raise _ _ _ _ _ (Hmol w2)).
      exists w2. split; [reflexivity | rewrite Ht2; exact Ht].
  - unfold ts_from_gfnff_python. rewrite Hsel. cbv zeta.
    set (setup := match path with
                  | None => ret (cwd X)
                  | Some p =>
                      bind (on_fs (mkdir_exist_ok (Path_of X p)))
                        (fun _ => ret (Path_of X p))
                  end).
    set (made := match path with
                 | Some p => Some (mkdir_exist_ok (Path_of X p) (fs w))
                 | None => None
                 end).
    assert (Hsetup :
              (exists e, setup w = (Raise e, w) /\ made = Some (Raise e)) \/
              (exists path' w1,
                 setup w = (Return path', w1) /\ trace w1 = trace w /\
                 forall e, made <> Some (Raise e))).
    { unfold setup, made. destruct path as [p |];
        [| right; eexists _, _; repeat split; discriminate].
      unfold bind, on_fs.
      destruct (mkdir_exist_ok (Path_of X p) (fs w)) as [f' | e] eqn:Hmk.
      - right. eexists _, _. repeat split. discriminate.
      - left. exists e. split; reflexivity. }
    destruct Hsetup as [(e & Hs & ->) | (path' & w1 & Hs & Ht & Hmade)].
    { exists w. rewrite (bind_Raise _ _ _ _ _ Hs). split; reflexivity. }
    rewrite (bind_Return _ _ _ _ _ Hs).
    destruct (alloc_trace (PyOptResults OptResults_new) w1)
      as (results & w2 & Halloc & Ht2 & _).
    rewrite (bind_Return _ _ _ _ _ Halloc).
    assert (Hfail : setup_failure made omol =
                    match omol with Raise e => Some e | Return _ => None end).
    { unfold setup_failure. destruct made as [[f | e] |]; try reflexivity.
      exfalso. eapply Hmade. reflexivity. }
    rewrite Hfail.
    destruct omol as [mole | e].
    + rewrite (bind_Return _ _ _ _ _ (Hmol w2)).
      rewrite (bind_Raise _ _ _ _ _ (unbound_solver_block w2)).
      eexists. split; [reflexivity |]. simpl. rewrite Ht2. exact Ht.
    + rewrite (bind_Raise _ _ _ _ _ (Hmol w2)).
      exists w2. split; [reflexivity | rewrite Ht2; exact Ht].
Qed.

(** ** The intersection engine *)

Lemma not_NotConverged_Raise {A B} (e : exn) :
  not_NotConverged (Raise e : Outcome A) -> not_NotConverged (Raise e : Outcome B).
Proof. intros Hn msg Heq. inversion Heq; subst. eapply Hn. reflexivity. Qed.

Lemma benign_bind {A B} (c : M A) (k : A -> M B) :
  benign c -> (forall a, benign (k a)) -> benign (bind c k).
Proof.
  intros Hc Hk w o w' Hrun. bind_inv Hrun.
  - destruct (Hc _ _ _ Hc0) as [Hfs _]. destruct (Hk _ _ _ _ Hrun) as [Hfs' Hn].
    split; [rewrite Hfs'; exact Hfs | exact Hn].
  - destruct (Hc _ _ _ Hrun) as [Hfs Hn].
    split; [assumption | eapply not_NotConverged_Raise; exact Hn].
Qed.

Lemma benign_ret {A} (a : A) : benign (ret a).
Proof.
  intros w o w' Hrun. inversion Hrun; subst.
  split; [reflexivity | intros msg; discriminate].
Qed.

Lemma benign_lift {A} (o : Outcome A) : not_NotConverged o -> benign (lift o).
Proof. intros Hn w o' w' Hrun. inversion Hrun; subst. split; [reflexivity | exact Hn]. Qed.

Lemma benign_raise {A} (e : exn) :
  (forall msg, e <> NotConvergedError msg) -> benign (raise e : M A).
Proof.
  intros Hn w o w' Hrun. inversion Hrun; subst. split; [reflexivity |].
  intros msg Heq. inversion Heq. eapply Hn. eassumption.
Qed.

Lemma py_index_raises {A} (l : list A) i e : py_index l i = Raise e -> e = IndexError.
Proof.
  unfold py_index. cbv zeta.
  destruct (_ || _); [intros Heq; inversion Heq; reflexivity |].
  destruct (l !! _); intros Heq; inversion Heq; reflexivity.
Qed.

Lemma benign_py_index {A} (l : list A) i : benign (lift (py_index l i)).
Proof.
  apply benign_lift. intros msg Heq. apply py_index_raises in Heq. discriminate.
Qed.

Lemma benign_alloc (o : pyobj) : benign (alloc o).
Proof.
  intros w o' w' Hrun. inversion Hrun; subst.
  split; [reflexivity | intros msg; discriminate].
Qed.

Lemma benign_get_obj l : benign (get_obj l).
Proof.
  intros w o w'. unfold get_obj. destruct (heap w !! l); intros Hrun;
    inversion Hrun; subst; (split; [reflexivity | intros msg; discriminate]).
Qed.

Lemma benign_put_obj l (o : pyobj) : benign (put_obj l o).
Proof.
  intros w o' w' Hrun. inversion Hrun; subst.
  split; [reflexivity | intros msg; discriminate].
Qed.

Lemma benign_for_each {A S} (body : A -> S -> M S) (items : list A) :
  (forall x s, benign (body x s)) -> forall s, benign (for_each items body s).
Proof.
  intros Hbody. induction items as [| x items IH]; intros s; simpl.
  - apply benign_ret.
  - apply benign_bind; [apply Hbody | exact IH].
Qed.

(** Builds a proof of [benign] by the structure of the computation. *)
Ltac benign_tac :=
  repeat first
    [ apply benign_ret
    | apply benign_py_index
    | apply benign_alloc
    | apply benign_get_obj
    | apply benign_put_obj
    | apply benign_raise; discriminate
    | apply benign_bind; [| intros ?]
    | match goal with
      | |- benign (match ?x with _ => _ end) => destruct x
      | |- benign (if ?x then _ else _) => destruct x
      end ].

Lemma benign_collect_scanner include_ghost method g_scanners :
  benign (collect_scanner X include_ghost method g_scanners).
Proof.
  unfold collect_scanner, scanner_of_method, as_scanner, set_atmlst.
  destruct method; benign_tac.
Qed.

Lemma benign_PySCFEngine_init g_scanners i : benign (PySCFEngine_init g_scanners i).
Proof. unfold PySCFEngine_init. benign_tac. Qed.

Lemma benign_PySCFEngine_M l : benign (PySCFEngine_M l).
Proof. unfold PySCFEngine_M. benign_tac. Qed.

Lemma benign_PySCFEngine_set_callback l cb : benign (PySCFEngine_set_callback l cb).
Proof. unfold PySCFEngine_set_callback. benign_tac. Qed.

Lemma benign_update_engine l (f : CIEngine -> CIEngine) : benign (update_engine l f).
Proof. unfold update_engine. benign_tac. Qed.

Lemma benign_engine_mol l : benign (engine_mol l).
Proof. unfold engine_mol. benign_tac. Qed.

Lemma benign_EnginesWrapper_init l : benign (EnginesWrapper_init l).
Proof. unfold EnginesWrapper_init. benign_tac. Qed.

Lemma try_except_run {A} (c : M A) (handler : exn -> option (M A)) w o w' :
  try_except c handler w = (o, w') ->
  exists o1 w1,
    c w = (o1, w1) /\
    match o1 with
    | Return a => o = Return a /\ w' = w1
    | Raise e =>
        match handler e with
        | Some h => h w1 = (o, w')
        | None => o = Raise e /\ w' = w1
        end
    end.
Proof.
  unfold try_except. destruct (c w) as [[a | e] w1]; intros Hrun.
  - exists (Return a), w1. inversion Hrun; subst. auto.
  - exists (Raise e), w1. split; [reflexivity |].
    destruct (handler e); [exact Hrun | inversion Hrun; subst; auto].
Qed.

(** Proves [benign c] for the steps of [optimize_ci]. *)
Ltac benign_solve :=
  repeat first
    [ apply benign_PySCFEngine_init
    | apply benign_collect_scanner
    | apply benign_PySCFEngine_M
    | apply benign_PySCFEngine_set_callback
    | apply benign_update_engine
    | apply benign_engine_mol
    | apply benign_EnginesWrapper_init
    | apply benign_for_each; intros ? ?
    | progress benign_tac
    | match goal with
      | |- benign (fun w => (Return _, w)) =>
          let Hr := fresh in
          intros ? ? ? Hr; inversion Hr; subst;
          split; [reflexivity | intros ?; discriminate]
      end ].

(** One step of the part of [optimize_ci] that comes before the optimiser. *)
Ltac pre_step Hrun Hfs :=
  let a := fresh "a" in
  let w1 := fresh "w" in
  let e := fresh "e" in
  let Hc := fresh "Hc" in
  let Ho := fresh "Ho" in
  let Hb := fresh "Hb" in
  let Hn := fresh "Hn" in
  let Hben := fresh "Hben" in
  apply bind_run in Hrun as [(a & w1 & Hc & Hrun) | (e & Hrun & Ho)];
  [ match type of Hc with
    | ?c _ = _ =>
        assert (Hben : benign c) by benign_solve;
        pose proof (Hben _ _ _ Hc) as [Hb _]; rewrite Hfs in Hb;
        clear Hfs Hben Hc; rename Hb into Hfs
    end
  | match type of Hrun with
    | ?c _ = _ =>
        assert (Hben : benign c) by benign_solve;
        left; pose proof (Hben _ _ _ Hrun) as [Hb Hn]; rewrite Hfs in Hb;
        rewrite Ho;
        split; [exact Hb | split; [reflexivity |
                                   eapply not_NotConverged_Raise; exact Hn]]
    end ].

Lemma run_then_true (c : M unit) w (o2 : Outcome bool) w2 :
  bind c (fun _ => ret true) w = (o2, w2) ->
  exists o1,
    c w = (o1, w2) /\
    match o1 with
    | Return _ => o2 = Return true
    | Raise e => o2 = Raise e
    end.
Proof.
  intros Hb. bind_inv Hb.
  - inversion Hb; subst. eexists (Return _). split; [eassumption | reflexivity].
  - exists (Raise e). split; [assumption | reflexivity].
Qed.

(** The run of [optimize_ci], around the run of the optimiser: either the
    optimiser is not reached; or it returns, or raises NotConvergedError,
    and [optimize_ci] finishes with the flag set accordingly; or it raises
    something else, and [optimize_ci] stops there, in the world the
    optimiser left. *)
Lemma optimize_ci_run methods assert_convergence include_ghost constraints
    callback maxsteps alpha sigma kwargs w o w' :
  optimize_ci X methods assert_convergence include_ghost constraints callback
    maxsteps alpha sigma kwargs w = (o, w') ->
  (fs w' = fs w /\ is_Return o = false /\ not_NotConverged o) \/
  (exists engine g_scanners kwargs' w0 o1 w1,
     let tmpf := mktemp_name X (TMPDIR X) (fs w) in
     fs w0 = fs w /\
     call_run_optimizer X engine g_scanners tmpf constraints kwargs' w0 = (o1, w1) /\
     match o1 with
     | Return _ => ci_finish tmpf engine true w1 = (o, w')
     | Raise (NotConvergedError msg) =>
         ci_finish tmpf engine false (add_event (EvLogNote msg) w1) = (o, w')
     | Raise e => o = Raise e /\ w' = w1
     end).
Proof.
  intros Hrun. unfold optimize_ci in Hrun. cbv zeta in Hrun.
  assert (Hfs : fs w = fs w) by reflexivity. revert Hrun Hfs.
  generalize w at 1 2. intros wc Hrun Hfs.
  pre_step Hrun Hfs.
  bind_inv Hrun; [| inversion Hrun].
  match goal with
  | Hq : (Return (mktemp_name _ _ _), _) = _ |- _ =>
      inversion Hq; subst; clear Hq
  end.
  rewrite Hfs in Hrun.
  do 13 (pre_step Hrun Hfs).
  set (tmpf := mktemp_name X (TMPDIR X) (fs w)) in *.
  right.
  bind_inv Hrun.
  - match goal with
    | Ht : try_except _ _ _ = _ |- _ =>
        apply try_except_run in Ht as (ob & wb & Hb & Hmatch)
    end.
    apply run_then_true in Hb as (o1 & Hcall & Hob).
    eexists _, _, _, _, o1, wb. split; [exact Hfs |]. split; [exact Hcall |].
    destruct o1 as [[] | e]; subst ob.
    + destruct Hmatch as [Hconv ->]. inversion Hconv; subst. exact Hrun.
    + destruct e; try (apply proj1 in Hmatch; discriminate Hmatch).
      inversion Hmatch; subst. exact Hrun.
  - apply try_except_run in Hrun as (ob & wb & Hb & Hmatch).
    apply run_then_true in Hb as (o1 & Hcall & Hob).
    eexists _, _, _, _, o1, wb. split; [exact Hfs |]. split; [exact Hcall |].
    destruct o1 as [[] | e1]; subst ob.
    + destruct Hmatch as [Hconv _]. discriminate.
    + destruct e1;
        try (pose proof (proj1 Hmatch) as Hconv; pose proof (proj2 Hmatch) as Hw;
             inversion Hconv; subst; split; reflexivity).
      inversion Hmatch.
Qed.

Lemma path_suffix_not_root p suffix : path_suffix p suffix <> [].
Proof.
  unfold path_suffix. destruct (reverse p) as [| x r]; [discriminate |].
  intros Heq. apply app_eq_nil in Heq as [_ Heq]. discriminate.
Qed.

Lemma path_exists_lookup f p :
  p <> [] -> path_exists f p = false <-> f !! p = None.
Proof.
  intros Hp. unfold path_exists. destruct p as [| c p]; [congruence |]. simpl.
  destruct (f !! (c :: p)); split; intros Heq; congruence.
Qed.

Lemma remove_tree_lookup_None p q f :
  f !! q = None \/ p `prefix_of` q -> remove_tree p f !! q = None.
Proof.
  intros Hq. unfold remove_tree. apply map_lookup_filter_None.
  destruct Hq as [Hq | Hq]; [left; exact Hq | right].
  intros n _ Hn. apply Hn. exact Hq.
Qed.

(** The block that removes the temporary files: when it returns, neither
    of the two artifacts exists; it raises only what the file system
    raises. *)
Lemma remove_temporary_files_run tmpf w o w' :
  remove_temporary_files tmpf w = (o, w') ->
  heap w' = heap w /\ not_NotConverged o /\
  (o = Return tt ->
   path_exists (fs w') (path_suffix tmpf "_optim.xyz") = false /\
   path_exists (fs w') (path_suffix tmpf ".tmp") = false).
Proof.
  unfold remove_temporary_files.
  set (p1 := path_suffix tmpf "_optim.xyz").
  set (p2 := path_suffix tmpf ".tmp").
  assert (Hp1 : p1 <> []) by apply path_suffix_not_root.
  assert (Hp2 : p2 <> []) by apply path_suffix_not_root.
  intros Hrun. bind_inv Hrun; [| inversion Hrun].
  inversion Hc; subst a w0; clear Hc.
  (* the first artifact *)
  assert (Hfirst : forall o1 w1,
             (if path_exists (fs w) p1 then on_fs (os_remove p1) else ret tt) w
             = (o1, w1) ->
             heap w1 = heap w /\ not_NotConverged o1 /\
             (o1 = Return tt -> fs w1 !! p1 = None)).
  { intros o1 w1. destruct (path_exists (fs w) p1) eqn:Hex.
    - intros Hr. apply on_fs_run in Hr as (Hh & _ & Hfs).
      split; [exact Hh |]. unfold os_remove in Hfs.
      destruct (node_at (fs w) p1) as [[| c] |]; destruct Hfs as [Hfs ->];
        (split; [intros msg; discriminate |]); intros Ho; try discriminate.
      rewrite Hfs. apply lookup_delete_eq.
    - intros Hr. inversion Hr; subst.
      split; [reflexivity |]. split; [intros msg; discriminate |].
      intros _. apply path_exists_lookup; assumption. }
  bind_inv Hrun.
  2:{ destruct (Hfirst _ _ Hrun) as (Hh & Hn & _).
      split; [exact Hh |]. split; [| discriminate].
      eapply not_NotConverged_Raise. exact Hn. }
  destruct (Hfirst _ _ Hc) as (Hh1 & _ & Hgone1). destruct a.
  specialize (Hgone1 eq_refl). clear Hc Hfirst.
  bind_inv Hrun; [| inversion Hrun].
  inversion Hc; subst; clear Hc.
  match type of Hrun with
  | (if path_exists (fs ?wx) _ then _ else _) _ = _ => rename wx into wm
  end.
  destruct (path_exists (fs wm) p2) eqn:Hex.
  - apply on_fs_run in Hrun as (Hh & _ & Hfs).
    split; [rewrite Hh; exact Hh1 |]. unfold shutil_rmtree in Hfs.
    destruct (node_at (fs wm) p2) as [[| c] |]; destruct Hfs as [Hfs ->];
      (split; [intros msg; discriminate |]); intros Ho; try discriminate.
    rewrite Hfs. split; apply path_exists_lookup; try assumption;
      apply remove_tree_lookup_None; [left; assumption | right; reflexivity].
  - inversion Hrun; subst. split; [exact Hh1 |].
    split; [intros msg; discriminate |]. intros _.
    split; [apply path_exists_lookup; assumption | exact Hex].
Qed.

Lemma ci_finish_run tmpf (engine : loc) conv w o w' :
  ci_finish tmpf engine conv w = (o, w') ->
  not_NotConverged o /\
  forall conv' mol,
    o = Return (conv', mol) ->
    conv' = conv /\
    path_exists (fs w') (path_suffix tmpf "_optim.xyz") = false /\
    path_exists (fs w') (path_suffix tmpf ".tmp") = false.
Proof.
  unfold ci_finish. intros Hrun. bind_inv Hrun.
  2:{ apply remove_temporary_files_run in Hrun as (_ & Hn & _).
      split; [eapply not_NotConverged_Raise; exact Hn | discriminate]. }
  apply remove_temporary_files_run in Hc as (_ & _ & Hgone). destruct a.
  destruct (Hgone eq_refl) as [Hg1 Hg2]. clear Hgone.
  bind_inv Hrun.
  - destruct (benign_engine_mol engine _ _ _ Hc) as [Hfs _].
    inversion Hrun; subst. split; [intros msg; discriminate |].
    intros conv' mol Heq. inversion Heq; subst. rewrite Hfs. auto.
  - destruct (benign_engine_mol engine _ _ _ Hrun) as [_ Hn].
    split; [eapply not_NotConverged_Raise; exact Hn | discriminate].
Qed.

(** On the paths on which [optimize_ci] returns, the two temporary
    artifacts are gone, whichever of them existed. *)
Lemma optimize_ci_returns_clean methods assert_convergence include_ghost
    constraints callback maxsteps alpha sigma kwargs w conv mol w' :
  optimize_ci X methods assert_convergence include_ghost constraints callback
    maxsteps alpha sigma kwargs w = (Return (conv, mol), w') ->
  let tmpf := mktemp_name X (TMPDIR X) (fs w) in
  path_exists (fs w') (path_suffix tmpf "_optim.xyz") = false /\
  path_exists (fs w') (path_suffix tmpf ".tmp") = false.
Proof.
  intros Hrun. apply optimize_ci_run in Hrun
    as [(_ & Ho & _) | (engine & g_scanners & kwargs' & w0 & o1 & w1 & Hrun)];
    [discriminate |].
  cbv zeta in *. destruct Hrun as (_ & _ & Hmatch).
  destruct o1 as [[] | e].
  - apply ci_finish_run in Hmatch as [_ Hflag].
    destruct (Hflag _ _ eq_refl) as (_ & H1 & H2). auto.
  - destruct e; try (apply proj1 in Hmatch; discriminate Hmatch).
    apply ci_finish_run in Hmatch as [_ Hflag].
    destruct (Hflag _ _ eq_refl) as (_ & H1 & H2). auto.
Qed.


(** ** A whole run of a driver *)

Lemma pyscf_optimize_grows (b : Bridge) (results : loc) e_shift coupling
    pyscf_solver mole maxsteps callback conv_params w w' r :
  pyscf_optimize X pyscf_solver
    (as_pyscf_method mole (e_g_partial X b results e_shift coupling))
    maxsteps callback conv_params w = (Return tt, w') ->
  results_at w results = Some r ->
  exists r' evs,
    trace w' = trace w ++ evs /\
    results_at w' results = Some r' /\ extends r r' /\
    sizes r' = map (Nat.add (bridge_invocations evs)) (sizes r).
Proof.
  intros Hrun Hr. unfold pyscf_optimize, as_pyscf_method in Hrun. simpl in Hrun.
  unfold bind at 1 in Hrun. unfold lift in Hrun.
  destruct pyscf_solver;
    rewrite (bind_Return _ _ _ _ _ (log_run _ _)) in Hrun;
    eapply drive_bridge_grows in Hrun; try exact Hr;
    destruct Hrun as (r' & evs & Ht & Hr' & Hext & Hsizes);
    eexists r', (_ :: evs);
    (split; [rewrite Ht; simpl; rewrite <- app_assoc; reflexivity |]);
    (split; [exact Hr' |]); (split; [exact Hext |]); exact Hsizes.
Qed.

Lemma with_redirect_Return {A} (c : M A) w a out err w' :
  with_redirect c w = (Return (a, out, err), w') ->
  exists w1,
    c (set_streams "" "" w) = (Return a, w1) /\
    w' = set_streams (sys_stdout w) (sys_stderr w) w1.
Proof.
  unfold with_redirect. destruct (c (set_streams "" "" w)) as [[a1 | e] w1];
    intros Hrun; inversion Hrun; subst. eauto.
Qed.

Lemma sizes_set_streams out err r :
  sizes (set_stderr err (set_stdout out r)) = sizes r.
Proof. reflexivity. Qed.

(** The end of a driver: the run of the optimiser under the redirection,
    then the two captured strings stored in the accumulator. *)
Lemma driver_end_grows (b : Bridge) (results : loc) e_shift coupling solver
    mole maxsteps callback conv_params w l w' :
  bind
    (with_redirect
       match select_solver solver with
       | None => raise (UnboundLocalError "pyscf_solver")
       | Some pyscf_solver =>
           pyscf_optimize X pyscf_solver
             (as_pyscf_method mole (e_g_partial X b results e_shift coupling))
             maxsteps callback conv_params
       end)
    (fun x =>
       let '(_, out, err) := x in
       bind (update_results results (set_stdout out))
         (fun _ => bind (update_results results (set_stderr err))
                     (fun _ => ret results))) w = (Return l, w') ->
  results_at w results = Some OptResults_new ->
  l = results /\
  exists r evs,
    trace w' = trace w ++ evs /\ results_at w' results = Some r /\
    sizes r = replicate 6 (bridge_invocations evs).
Proof.
  intros Hrun Hr. bind_inv Hrun. destruct a as [[[] out] err].
  apply with_redirect_Return in Hc as (w1 & Hopt & ->).
  destruct (select_solver solver) as [pyscf_solver |]; [| discriminate].
  eapply pyscf_optimize_grows in Hopt; [| exact Hr].
  destruct Hopt as (r' & evs & Ht & Hr' & _ & Hsizes).
  unfold bind in Hrun. rewrite !update_results_run in Hrun. simpl in Hrun.
  unfold results_at in Hr'.
  destruct (heap w1 !! results) as [[r1| | | | | | |]|] eqn:Hobj; try discriminate.
  inversion Hr'; subst r1. rewrite update_results_run in Hrun. simpl in Hrun.
  rewrite lookup_insert_eq in Hrun. inversion Hrun; subst l w'.
  split; [reflexivity |]. eexists _, evs. split; [exact Ht |]. split.
  - unfold results_at. simpl. rewrite lookup_insert_eq. reflexivity.
  - rewrite sizes_set_streams, Hsizes. unfold sizes. simpl.
    rewrite !Nat.add_0_r. reflexivity.
Qed.

(** When [ts_from_gfnff] returns, what it returns is an accumulator whose
    six lists have one entry for each invocation of the bridge that the
    optimiser made. *)
Corollary ts_from_gfnff_accumulator elements coordinates topologies keywords
    xcontrol_keywords e_shift coupling maxsteps callback conv_params solver
    path w results w' :
  ts_from_gfnff X elements coordinates topologies keywords xcontrol_keywords
    e_shift coupling maxsteps callback conv_params solver path w
  = (Return results, w') ->
  exists r evs,
    trace w' = trace w ++ evs /\ results_at w' results = Some r /\
    sizes r = replicate 6 (bridge_invocations evs).
Proof.
  intros Hrun. unfold ts_from_gfnff in Hrun. cbv zeta in Hrun.
  bind_inv Hrun.
  assert (Ht0 : trace w0 = trace w).
  { destruct path as [p |]; [destruct (path_truthy (Some p)) |];
      try (inversion Hc; subst; reflexivity).
    bind_inv Hc. inversion Hc; subst. apply on_fs_run in Hc0 as (_ & Ht & _).
    exact Ht. }
  clear Hc. bind_inv Hrun.
  inversion Hc; subst a0 w1; clear Hc.
  set (l := fresh (dom (heap w0))) in *.
  set (w1 := set_heap (<[l := PyOptResults OptResults_new]> (heap w0)) w0) in *.
  bind_inv Hrun.
  destruct (get_pyscf_mole_pure elements coordinates) as [omol Hmol].
  rewrite Hmol in Hc. inversion Hc; subst omol w2; clear Hc.
  eapply (driver_end_grows (BridgeXtb topologies _ xcontrol_keywords a)) in Hrun.
  - destruct Hrun as (-> & r & evs & Ht & Hr & Hsizes).
    exists r, evs. split; [rewrite Ht; simpl; rewrite Ht0; reflexivity |].
    split; assumption.
  - unfold results_at. simpl. rewrite lookup_insert_eq. reflexivity.
Qed.


(** * More of the module

    The bridge of the intersection driver, the evaluator loops, the
    temporary directories, the record an invocation stores, the drivers
    as wholes, and the start and the end of the intersection search. *)

(** ** [e_g_function_ci] *)

Lemma no_solver_at_end (t : list Event) mol evs pre en gr c :
  Forall evaluator_call evs ->
  t ++ EvBridge mol :: evs <> t ++ pre ++ [EvSolver en gr c].
Proof.
  intros Hcalls Heq. apply app_inv_head in Heq.
  destruct pre as [| p pre]; simpl in Heq; [discriminate |].
  inversion Heq as [[Hp Htl]].
  eapply no_solver_call; eassumption.
Qed.

Lemma run_xtb_keeps_nothing : run_xtb_keeps X (fun _ => False).
Proof. intros ? ? ? ? ? ? ? ? _ q n []. Qed.

Lemma e_g_function_ci_results mol topologies (results : loc) keywords
    xcontrol_keywords e_shift path w o w' :
  e_g_function_ci X mol topologies results keywords xcontrol_keywords e_shift
    path w = (o, w') ->
  forall l, results_at w' l = results_at w l.
Proof.
  intros Hrun l. unfold e_g_function_ci in Hrun.
  rewrite (bind_Return _ _ _ _ _ (log_run _ _)) in Hrun.
  set (co := array_mul (atom_coords X mol) (BOHR_TO_ANGSTROM X)) in *.
  set (w0 := add_event (EvBridge mol) w) in *.
  change (results_at w l) with (results_at w0 l).
  bind_inv Hrun.
  2:{ apply working_directories_quiet in Hrun as [Hh _].
      apply results_at_heap, Hh. }
  apply working_directories_quiet in Hc as [Hh1 _].
  rewrite <- (results_at_heap _ _ Hh1 l).
  destruct a as [[xtb_paths temp_dirs] cleanup].
  bind_inv Hrun.
  2:{ apply (for_each_appends_results co _ _ (evaluate_state_appends _ co _ _) tt)
        in Hrun as (evs & (Hr & _) & _).
      apply Hr. }
  apply (for_each_appends_results co _ _ (evaluate_state_appends _ co _ _) tt)
    in Hc as (evs & (Hr & _) & _).
  rewrite <- Hr. destruct a as [energies gradients].
  bind_inv Hrun.
  - unfold lift in Hc. inversion Hc; subst.
    unfold bind, raise in Hrun. inversion Hrun; subst. reflexivity.
  - unfold lift in Hrun. inversion Hrun; subst. reflexivity.
Qed.

(** [e_g_function_ci] never returns, and never records.  It is
    [e_g_function] up to the call of the secular solver, whose argument
    [coupling] is neither a parameter of this function nor a name of the
    module: every invocation raises, no accumulator changes, only
    evaluators are called; and whenever [e_g_function], given the same
    arguments in the same world, gets as far as calling the solver,
    [e_g_function_ci] raises NameError for [coupling]. *)
Theorem e_g_function_ci_never_returns mol topologies (results : loc) keywords
    xcontrol_keywords e_shift path w o w' :
  e_g_function_ci X mol topologies results keywords xcontrol_keywords e_shift
    path w = (o, w') ->
  is_Return o = false /\
  (forall l, results_at w' l = results_at w l) /\
  (exists evs,
     trace w' = trace w ++ EvBridge mol :: evs /\ Forall evaluator_call evs) /\
  (forall coupling o1 w1 pre en gr,
     e_g_function X mol topologies results keywords xcontrol_keywords e_shift
       coupling path w = (o1, w1) ->
     trace w1 = trace w ++ pre ++ [EvSolver en gr coupling] ->
     o = Raise (NameError "coupling")).
Proof.
  intros Hci.
  assert (Hshape : exists evs,
             trace w' = trace w ++ EvBridge mol :: evs /\
             Forall evaluator_call evs).
  { destruct (e_g_function_ci_trace _ _ _ _ _ _ _ _ _ _ Hci) as (evs & Ht & Hf).
    exists evs. split; [exact Ht |].
    eapply Forall_impl; [exact Hf |]. apply evaluator_event_is_call. }
  split; [| split; [| split; [exact Hshape |]]].
  - destruct (e_g_function_ci_fs _ _ _ _ _ _ _ _ _ _ _ run_xtb_keeps_nothing Hci)
      as [[_ ->] | [_ Ho]]; [reflexivity | exact Ho].
  - eapply e_g_function_ci_results. exact Hci.
  - intros coupling o1 w1 pre en gr Hfun Ht1.
    destruct Hshape as (evs & Ht & Hcalls).
    assert (Hsame : w1 = w' -> False).
    { intros ->. rewrite Ht in Ht1. revert Ht1. apply no_solver_at_end, Hcalls. }
    unfold e_g_function_ci in Hci. unfold e_g_function in Hfun.
    rewrite (bind_Return _ _ _ _ _ (log_run _ _)) in Hci.
    rewrite (bind_Return _ _ _ _ _ (log_run _ _)) in Hfun.
    unfold bind at 1 in Hci. unfold bind at 1 in Hfun.
    destruct (working_directories X path (length topologies) _)
      as [[[[xtb_paths temp_dirs] cleanup] | e] w2].
    2:{ exfalso. apply Hsame. inversion Hci; inversion Hfun; subst. reflexivity. }
    unfold bind at 1 in Hci. unfold bind at 1 in Hfun.
    destruct (for_each (zip topologies xtb_paths) _ _ w2)
      as [[[energies gradients] | e] w3].
    2:{ exfalso. apply Hsame. inversion Hci; inversion Hfun; subst. reflexivity. }
    unfold bind at 1 in Hci. unfold bind at 1 in Hfun. unfold lift in Hci, Hfun.
    destruct (iadd_last energies e_shift) as [en1 | e].
    2:{ exfalso. apply Hsame. inversion Hci; inversion Hfun; subst. reflexivity. }
    unfold bind, raise in Hci. inversion Hci; subst. reflexivity.
Qed.

(** A bridge over no state at all: the loop over the evaluators is empty,
    and [energies[-1] += e_shift] raises IndexError before the solver is
    called; nothing but the invocation itself has happened. *)
Theorem bridge_without_states mol (results : loc) e_shift coupling w :
  (forall keywords xcontrol_keywords path,
     e_g_function X mol [] results keywords xcontrol_keywords e_shift coupling
       path w = (Raise IndexError, add_event (EvBridge mol) w)) /\
  (forall keywords xcontrol_keywords path,
     e_g_function_ci X mol [] results keywords xcontrol_keywords e_shift path w
     = (Raise IndexError, add_event (EvBridge mol) w)) /\
  (forall path,
     e_g_function_python X mol [] results e_shift coupling path w
     = (Raise IndexError, add_event (EvBridge mol) w)).
Proof.
  split; [| split].
  - intros keywords xcontrol_keywords [p |]; reflexivity.
  - intros keywords xcontrol_keywords [p |]; reflexivity.
  - intros path. reflexivity.
Qed.

(** ** The record of an invocation *)

(** The record an invocation appends, field by field: the geometry in
    Angstrom, as the evaluators were given it; the diabatic energies the
    solver was given and the evaluators' gradients; the adiabatic energies
    and gradients and the indices the solver returned.  The two strings of
    the accumulator and every other accumulator are left alone. *)
Theorem bridge_record_content (b : Bridge) (results : loc) e_shift coupling
    mol w o w' r r' :
  e_g_partial X b results e_shift coupling mol w = (o, w') ->
  results_at w results = Some r ->
  results_at w' results = Some r' ->
  r' <> r ->
  exists evs en en_ad gr_ad idx,
    Forall evaluator_call evs /\
    trace w' =
      trace w ++ EvBridge mol :: evs ++
        [EvSolver en (map snd (evaluator_results evs)) coupling] /\
    evb_eigenvalues X en (map snd (evaluator_results evs)) coupling =
      Return (en_ad, gr_ad, idx) /\
    coordinates r' =
      coordinates r ++ [array_mul (atom_coords X mol) (BOHR_TO_ANGSTROM X)] /\
    energies_diabatic r' = energies_diabatic r ++ [en] /\
    energies_adiabatic r' = energies_adiabatic r ++ [en_ad] /\
    gradients_diabatic r' =
      gradients_diabatic r ++ [map snd (evaluator_results evs)] /\
    gradients_adiabatic r' = gradients_adiabatic r ++ [gr_ad] /\
    indices r' = indices r ++ [idx] /\
    stdout r' = stdout r /\ stderr r' = stderr r /\
    (forall l, l <> results -> results_at w' l = results_at w l).
Proof.
  intros Hrun Hr Hr' Hne.
  apply e_g_partial_spec in Hrun as (evs & Hevs & Hspec).
  assert (Hsame : results_at w' results = results_at w results -> False).
  { rewrite Hr, Hr'. intros Heq. apply Hne. congruence. }
  destruct Hspec as [(_ & Hres & _) | (en & Hen & Ht & Hrest)].
  { exfalso. apply Hsame, Hres. }
  destruct Hrest
    as [[Hres _] | (en_ad & gr_ad & idx & r0 & Hevb & Hr0 & Hres & Hothers & _)].
  { exfalso. apply Hsame, Hres. }
  rewrite Hr in Hr0. inversion Hr0; subst r0; clear Hr0.
  rewrite Hr' in Hres. inversion Hres; subst r'; clear Hres.
  exists evs, en, en_ad, gr_ad, idx.
  split; [eapply Forall_impl; [exact Hevs | apply evaluator_event_is_call] |].
  split; [exact Ht |]. split; [exact Hevb |].
  repeat split; try reflexivity. exact Hothers.
Qed.

(** The tail of a bridge without a clean-up step, from an accumulator. *)
Lemma bridge_tail_plain (results : loc) co e_shift coupling en0 gr0 w r :
  results_at w results = Some r ->
  bridge_tail X results co (ret tt) e_shift coupling (en0, gr0) w =
  match iadd_last en0 e_shift with
  | Raise e => (Raise e, w)
  | Return en =>
      let w1 := add_event (EvSolver en gr0 coupling) w in
      match evb_eigenvalues X en gr0 coupling with
      | Raise e => (Raise e, w1)
      | Return (en_ad, gr_ad, idx) =>
          (target_state en_ad gr_ad,
           set_heap
             (<[results :=
                  PyOptResults (append_record co en en_ad gr0 gr_ad idx r)]>
                (heap w1)) w1)
      end
  end.
Proof.
  intros Hr. unfold bridge_tail. unfold bind at 1. unfold lift at 1.
  destruct (iadd_last en0 e_shift) as [en | e]; [| reflexivity].
  unfold call_evb_eigenvalues. unfold bind at 1. unfold bind at 1.
  unfold log at 1. unfold lift at 1. cbv zeta.
  set (w1 := add_event (EvSolver en gr0 coupling) w).
  destruct (evb_eigenvalues X en gr0 coupling) as [[[en_ad gr_ad] idx] | e];
    [| reflexivity].
  unfold bind at 1. unfold ret at 1.
  pose proof (store_results_run results co en en_ad gr0 gr_ad idx w1) as Hstore.
  change (results_at w1 results) with (results_at w results) in Hstore.
  rewrite Hr in Hstore. rewrite (bind_Return _ _ _ _ _ Hstore).
  unfold bind, lift, ret, target_state.
  destruct (py_index en_ad 1); [destruct (py_index gr_ad 1) |]; reflexivity.
Qed.

Lemma target_state_short {A B} (en_ad : list A) (gr_ad : list B) :
  (length en_ad < 2 \/ length gr_ad < 2)%nat ->
  match py_index en_ad 1 with
  | Return e =>
      match py_index gr_ad 1 with
      | Return g => False
      | Raise x => x = IndexError
      end
  | Raise x => x = IndexError
  end.
Proof.
  intros Hshort.
  destruct (py_index en_ad 1) as [e | x] eqn:He;
    [| eapply py_index_raises; exact He].
  destruct (py_index gr_ad 1) as [g | x] eqn:Hg;
    [| eapply py_index_raises; exact Hg].
  unfold py_index in He, Hg. simpl in He, Hg.
  destruct en_ad as [| ? [| ? ?]]; try discriminate.
  destruct gr_ad as [| ? [| ? ?]]; try discriminate.
  simpl in Hshort. lia.
Qed.

(** What a bridge without temporary directories does after its loop. *)
Lemma plain_bridge_run (b : Bridge) (results : loc) e_shift coupling mol w o w' r :
  uses_temp_dirs b = false ->
  e_g_partial X b results e_shift coupling mol w = (o, w') ->
  results_at w results = Some r ->
  exists evs,
    Forall evaluator_call evs /\
    ((trace w' = trace w ++ EvBridge mol :: evs /\ is_Return o = false) \/
     exists w2 en0 gr0,
       trace w2 = trace w ++ EvBridge mol :: evs /\
       results_at w2 results = Some r /\
       bridge_tail X results
         (array_mul (atom_coords X mol) (BOHR_TO_ANGSTROM X)) (ret tt)
         e_shift coupling (en0, gr0) w2 = (o, w')).
Proof.
  intros Hplain Hrun Hr.
  set (co := array_mul (atom_coords X mol) (BOHR_TO_ANGSTROM X)).
  set (w0 := add_event (EvBridge mol) w).
  assert (Hstep : forall evs w2,
             eval_step co w0 w2 evs ->
             Forall evaluator_call evs /\
             trace w2 = trace w ++ EvBridge mol :: evs /\
             results_at w2 results = Some r).
  { intros evs w2 (Hres & Ht & Hf). split; [| split].
    - eapply Forall_impl; [exact Hf |]. apply evaluator_event_is_call.
    - rewrite Ht. apply trace_cons_app.
    - rewrite Hres. exact Hr. }
  destruct b as [topologies keywords xcontrol_keywords [p |] | calculators path];
    try discriminate; simpl in Hrun.
  - unfold e_g_function in Hrun.
    rewrite (bind_Return _ _ _ _ _ (log_run _ _)) in Hrun.
    fold w0 co in Hrun. unfold working_directories in Hrun.
    unfold bind at 1 in Hrun. unfold ret at 1 in Hrun.
    bind_inv Hrun.
    + apply (for_each_appends_results co _ _ (evaluate_state_appends _ co _ _) tt)
        in Hc as (evs & Hs & _).
      destruct (Hstep _ _ Hs) as (Hf & Ht & Hres).
      destruct a as [energies gradients].
      exists evs. split; [exact Hf |]. right.
      exists w1, energies, gradients. split; [exact Ht |].
      split; [exact Hres | exact Hrun].
    + apply (for_each_appends_results co _ _ (evaluate_state_appends _ co _ _) tt)
        in Hrun as (evs & Hs & _).
      destruct (Hstep _ _ Hs) as (Hf & Ht & _).
      exists evs. split; [exact Hf |]. left. split; [exact Ht | reflexivity].
  - unfold e_g_function_python in Hrun.
    rewrite (bind_Return _ _ _ _ _ (log_run _ _)) in Hrun.
    fold w0 in Hrun. cbv zeta in Hrun. fold co in Hrun.
    bind_inv Hrun.
    + apply (for_each_appends_results co _ _ (evaluate_calculator_appends co) tt)
        in Hc as (evs & Hs & _).
      destruct (Hstep _ _ Hs) as (Hf & Ht & Hres).
      destruct a as [energies gradients].
      exists evs. split; [exact Hf |]. right.
      exists w1, energies, gradients. split; [exact Ht |].
      split; [exact Hres | exact Hrun].
    + apply (for_each_appends_results co _ _ (evaluate_calculator_appends co) tt)
        in Hrun as (evs & Hs & _).
      destruct (Hstep _ _ Hs) as (Hf & Ht & _).
      exists evs. split; [exact Hf |]. left. split; [exact Ht | reflexivity].
Qed.

(** A solver that gives back fewer than two adiabatic states.  The record
    is stored before the target state is taken from it: the invocation
    raises IndexError, and the accumulator has the entry of an invocation
    that failed.  (For a bridge that does not work in temporary
    directories; with them, their clean-up comes in between.) *)
Theorem bridge_short_solver_output (b : Bridge) (results : loc) e_shift
    coupling mol w o w' r pre en gr c en_ad gr_ad idx :
  uses_temp_dirs b = false ->
  e_g_partial X b results e_shift coupling mol w = (o, w') ->
  results_at w results = Some r ->
  trace w' = trace w ++ pre ++ [EvSolver en gr c] ->
  evb_eigenvalues X en gr c = Return (en_ad, gr_ad, idx) ->
  (length en_ad < 2 \/ length gr_ad < 2)%nat ->
  o = Raise IndexError /\
  results_at w' results =
    Some (append_record (array_mul (atom_coords X mol) (BOHR_TO_ANGSTROM X))
            en en_ad gr gr_ad idx r).
Proof.
  intros Hplain Hrun Hr Ht Hevb Hshort.
  destruct (plain_bridge_run _ _ _ _ _ _ _ _ _ Hplain Hrun Hr)
    as (evs & Hcalls & [[Ht' _] | (w2 & en0 & gr0 & Ht2 & Hr2 & Htail)]).
  { exfalso. rewrite Ht' in Ht. revert Ht. apply no_solver_at_end, Hcalls. }
  rewrite (bridge_tail_plain _ _ _ _ _ _ _ _ Hr2) in Htail.
  destruct (iadd_last en0 e_shift) as [en1 | e].
  2:{ exfalso. inversion Htail; subst. rewrite Ht2 in Ht. revert Ht.
      apply no_solver_at_end, Hcalls. }
  cbv zeta in Htail.
  assert (Hargs : trace w' = trace w2 ++ [EvSolver en1 gr0 coupling]).
  { destruct (evb_eigenvalues X en1 gr0 coupling) as [[[? ?] ?] | ?];
      inversion Htail; subst; reflexivity. }
  rewrite Ht, Ht2 in Hargs.
  rewrite (app_assoc (trace w) pre) in Hargs.
  apply app_inj_tail in Hargs as [_ Hev]. inversion Hev; subst en1 gr0 c.
  rewrite Hevb in Htail. inversion Htail; subst o w'; clear Htail.
  split.
  - pose proof (target_state_short en_ad gr_ad Hshort) as Hts.
    unfold target_state.
    destruct (py_index en_ad 1); [destruct (py_index gr_ad 1) |];
      try contradiction; subst; reflexivity.
  - unfold results_at. simpl. rewrite lookup_insert_eq. reflexivity.
Qed.

(** ** The evaluation loops *)

(** A loop that returns: the trace has grown by what each pass left, in
    the order of the items. *)
Lemma for_each_events {A S} (body : A -> S -> M S)
    (full : A -> list Event -> Prop) (items : list A) :
  (forall x s w s' w',
     body x s w = (Return s', w') ->
     exists evs, trace w' = trace w ++ evs /\ full x evs) ->
  forall s w s' w',
    for_each items body s w = (Return s', w') ->
    exists evss, trace w' = trace w ++ concat evss /\ Forall2 full items evss.
Proof.
  intros Hbody. induction items as [| x items IH]; intros s w s' w' Hrun;
    simpl in Hrun.
  - inversion Hrun; subst. exists []. simpl. rewrite app_nil_r.
    split; [reflexivity | constructor].
  - bind_inv Hrun.
    destruct (Hbody _ _ _ _ _ Hc) as (evs & Ht1 & Hfull).
    destruct (IH _ _ _ _ Hrun) as (evss & Ht2 & Hall).
    exists (evs :: evss). simpl. split; [| constructor; assumption].
    rewrite Ht2, Ht1, app_assoc. reflexivity.
Qed.

Lemma Forall2_state_events {A R} (f : A -> R -> list Event) (items : list A)
    (evss : list (list Event)) :
  Forall2 (fun x evs => exists r, evs = f x r) items evss ->
  exists rs, length rs = length items /\ evss = zip_with f items rs.
Proof.
  induction 1 as [| x evs items evss [r ->] _ (rs & Hlen & ->)].
  - exists []. split; reflexivity.
  - exists (r :: rs). simpl. split; [rewrite Hlen |]; reflexivity.
Qed.

Lemma evaluator_results_xtb elements co keywords xcontrol_keywords dirs rs :
  length rs = length dirs ->
  evaluator_results
    (concat (zip_with (xtb_state_events elements co keywords xcontrol_keywords)
               dirs rs)) = rs.
Proof.
  revert rs. induction dirs as [| d dirs IH]; intros [| r rs] Hlen;
    try discriminate; [reflexivity |].
  simpl. rewrite IH; [reflexivity |]. simpl in Hlen. lia.
Qed.

Lemma evaluator_results_calculators co calculators rs :
  length rs = length calculators ->
  evaluator_results
    (concat (zip_with (calculator_state_events co) calculators rs)) = rs.
Proof.
  revert rs. induction calculators as [| c calculators IH]; intros [| r rs] Hlen;
    try discriminate; [reflexivity |].
  simpl. rewrite IH; [reflexivity |]. simpl in Hlen. lia.
Qed.

Lemma evaluate_state_full elements co keywords xcontrol_keywords topology d
    s w s' w' :
  evaluate_state X elements co keywords xcontrol_keywords (topology, d) s w
  = (Return s', w') ->
  exists r,
    trace w' =
      trace w ++ xtb_state_events elements co keywords xcontrol_keywords d r.
Proof.
  destruct s as [energies gradients]. intros Hrun.
  unfold evaluate_state in Hrun.
  bind_inv Hrun. apply on_fs_run in Hc as (_ & Ht0 & _).
  bind_inv Hrun. inversion Hc; subst w1 a0; clear Hc.
  bind_inv Hrun.
  assert (Ht1 : trace w1 = trace w).
  { destruct (negb _).
    - apply on_fs_run in Hc as (_ & Ht & _). rewrite Ht. exact Ht0.
    - inversion Hc; subst. exact Ht0. }
  clear Hc. bind_inv Hrun.
  assert (Ht2 : trace w2 =
                trace w ++ [EvRunXtb elements co d keywords xcontrol_keywords]).
  { revert Hc. unfold call_run_xtb, bind, log. simpl.
    destruct (run_xtb X _ _ _ _ _ _) as [r fs']. intros Hr.
    inversion Hr; subst. simpl. rewrite Ht1. reflexivity. }
  clear Hc. unfold bind, call_parse_engrad in Hrun.
  destruct (parse_engrad X (joinpath d "xtb.engrad") (fs w2))
    as [[energy gradient] | e]; inversion Hrun; subst.
  exists (energy, gradient). simpl. rewrite Ht2, <- app_assoc. reflexivity.
Qed.

Lemma evaluate_calculator_full co (calculator : loc) s w s' w' :
  evaluate_calculator X co calculator s w = (Return s', w') ->
  exists r, trace w' = trace w ++ calculator_state_events co calculator r.
Proof.
  destruct s as [energies gradients]. intros Hrun.
  unfold evaluate_calculator in Hrun. bind_inv Hrun.
  assert (Ht1 : trace w0 = trace w ++ [EvSetCoordinates calculator co] /\
                exists c, heap w0 !! calculator = Some (PyCalculator c)).
  { revert Hc. unfold calculator_set_coordinates, bind, get_obj, log, put_obj,
      raise.
    destruct (heap w !! calculator) as [[| | | | | |c|]|]; intros Hr;
      inversion Hr; subst. simpl. rewrite lookup_insert_eq. eauto. }
  destruct Ht1 as (Ht1 & c & Hobj). clear Hc.
  revert Hrun. unfold bind at 1. unfold calculator_sp, bind, get_obj, log,
    put_obj, lift. rewrite Hobj.
  destruct (calc_sp X c) as [[[energy gradient] | e] c']; simpl;
    intros Hr; inversion Hr; subst.
  exists (energy, gradient). simpl. rewrite Ht1, <- app_assoc. reflexivity.
Qed.

(** The temporary directories: each is made where nothing was, so they are
    new and different from one another. *)
Lemma TemporaryDirectory_new w name w' :
  TemporaryDirectory X w = (Return name, w') ->
  node_at (fs w) name = None /\ fs w' = <[name := Dir]> (fs w).
Proof.
  unfold TemporaryDirectory.
  destruct (os_mkdir _ _) as [fs' |] eqn:Hos; intros Hr; inversion Hr; subst.
  unfold os_mkdir in Hos.
  destruct (node_at (fs w) (mkdtemp_name X (TMP_DIR X) (fs w))) eqn:Hn;
    [discriminate |].
  destruct (node_at (fs w) (parent _)) as [[| c] |]; inversion Hos; subst.
  split; reflexivity.
Qed.

Lemma temporary_directories_new (l : list nat) :
  forall acc w acc' w',
    for_each l
      (fun (_ : nat) (acc : list Path) =>
         bind (TemporaryDirectory X) (fun name => ret (acc ++ [name])))
      acc w = (Return acc', w') ->
    exists new,
      acc' = acc ++ new /\ length new = length l /\ NoDup new /\
      (forall d, d ∈ new -> node_at (fs w) d = None) /\
      (forall d, node_at (fs w') d = None -> node_at (fs w) d = None).
Proof.
  induction l as [| i l IH]; intros acc w acc' w' Hrun; simpl in Hrun.
  - inversion Hrun; subst. exists []. rewrite app_nil_r.
    repeat split; auto; try constructor; intros d Hd; inversion Hd.
  - bind_inv Hrun. bind_inv Hc. inversion Hc; subst a w0; clear Hc.
    rename a0 into name.
    apply TemporaryDirectory_new in Hc0 as [Hnew Hfs1].
    destruct (IH _ _ _ _ Hrun) as (new & -> & Hlen & Hnd & Habs & Hmono).
    assert (Hback : forall d, node_at (fs w1) d = None -> node_at (fs w) d = None).
    { intros d Hd. destruct d as [| c d]; [discriminate |]. simpl in *.
      rewrite Hfs1 in Hd. apply lookup_insert_None in Hd as [Hd _]. exact Hd. }
    assert (Hthere : node_at (fs w1) name = Some Dir).
    { destruct name as [| c name]; [reflexivity |]. simpl.
      rewrite Hfs1. apply lookup_insert_eq. }
    exists (name :: new). rewrite <- app_assoc. simpl.
    split; [reflexivity |]. split; [rewrite Hlen; reflexivity |].
    split; [| split].
    + constructor; [| exact Hnd]. intros Hin. apply Habs in Hin. congruence.
    + intros d Hd. apply elem_of_cons in Hd as [-> | Hd]; [exact Hnew |].
      apply Hback, Habs, Hd.
    + intros d Hd. apply Hback, Hmono, Hd.
Qed.

Lemma tempdir_cleanup_gone d f f' :
  tempdir_cleanup d f = Return f' -> d <> [] -> f' !! d = None.
Proof.
  unfold tempdir_cleanup. intros Hrun Hd.
  destruct (node_at f d) as [[| c] |] eqn:Hn; inversion Hrun; subst.
  - apply remove_tree_lookup_None. right. reflexivity.
  - apply node_at_None, Hn.
Qed.

(** When the clean-up returns, none of the directories is left. *)
Lemma cleanup_temp_dirs_gone temp_dirs :
  forall w w',
    cleanup_temp_dirs temp_dirs w = (Return tt, w') ->
    forall d, d ∈ temp_dirs -> d <> [] -> fs w' !! d = None.
Proof.
  induction temp_dirs as [| t temp_dirs IH]; intros w w' Hrun d Hd Hne.
  - inversion Hd.
  - unfold cleanup_temp_dirs in Hrun. simpl in Hrun. bind_inv Hrun.
    destruct a.
    change (cleanup_temp_dirs temp_dirs w0 = (Return tt, w')) in Hrun.
    apply elem_of_cons in Hd as [-> | Hd]; [| eapply IH; eassumption].
    apply on_fs_run in Hc as (_ & _ & Hfs).
    destruct (tempdir_cleanup t (fs w)) as [f' |] eqn:Hclean;
      [| destruct Hfs; discriminate].
    destruct Hfs as [Hfs _].
    apply cleanup_temp_dirs_subseteq in Hrun.
    eapply lookup_weaken_None; [| exact Hrun].
    rewrite Hfs. eapply tempdir_cleanup_gone; eassumption.
Qed.

(** The tail of a bridge, when the invocation returns. *)
Lemma bridge_tail_Return (results : loc) co (cleanup_step : M unit) e_shift
    coupling en0 gr0 w a w' :
  bridge_tail X results co cleanup_step e_shift coupling (en0, gr0) w
  = (Return a, w') ->
  exists en wc,
    iadd_last en0 e_shift = Return en /\
    cleanup_step (add_event (EvSolver en gr0 coupling) w) = (Return tt, wc) /\
    fs w' = fs wc /\ trace w' = trace wc.
Proof.
  intros Hrun. unfold bridge_tail in Hrun.
  bind_inv Hrun. unfold lift in Hc. inversion Hc; subst w0; clear Hc.
  rename a0 into en, H1 into Hen.
  unfold call_evb_eigenvalues in Hrun. unfold bind at 1 in Hrun.
  unfold bind at 1 in Hrun. unfold log at 1 in Hrun. unfold lift at 1 in Hrun.
  destruct (evb_eigenvalues X en gr0 coupling) as [[[en_ad gr_ad] idx] | e];
    [| discriminate].
  bind_inv Hrun. destruct a0. bind_inv Hrun.
  exists en, w0. split; [exact Hen |]. split; [exact Hc |].
  assert (Hstore : fs w1 = fs w0 /\ trace w1 = trace w0).
  { pose proof (store_results_run results co en en_ad gr0 gr_ad idx w0) as Hs.
    destruct (results_at w0 results).
    - rewrite Hs in Hc0. inversion Hc0; subst. split; reflexivity.
    - destruct Hs as [e Hs]. rewrite Hs in Hc0. discriminate. }
  destruct Hstore as [Hfs Ht].
  unfold bind, lift, ret in Hrun.
  destruct (py_index en_ad 1); [destruct (py_index gr_ad 1) |];
    inversion Hrun; subst. split; assumption.
Qed.

Lemma zip_with_state_events {A R} (f : Path -> R -> list Event)
    (topologies : list A) (dirs : list Path) (rs : list R) :
  length dirs = length topologies ->
  zip_with (fun (item : A * Path) r => f item.2 r) (zip topologies dirs) rs =
  zip_with f dirs rs.
Proof.
  revert dirs rs. induction topologies as [| t topologies IH];
    intros [| d dirs] rs Hlen; try discriminate; [reflexivity |].
  destruct rs as [| r rs]; [reflexivity |]. simpl.
  rewrite IH; [reflexivity |]. simpl in Hlen. lia.
Qed.

(** An invocation of [e_g_function] that returns, taken apart. *)
Lemma e_g_function_returns mol topologies (results : loc) keywords
    xcontrol_keywords e_shift coupling path w a w' :
  e_g_function X mol topologies results keywords xcontrol_keywords e_shift
    coupling path w = (Return a, w') ->
  exists xtb_paths temp_dirs cleanup w1 wc wc' rs en,
    working_directories X path (length topologies)
      (add_event (EvBridge mol) w) = (Return (xtb_paths, temp_dirs, cleanup), w1)
    /\
    length rs = length (zip topologies xtb_paths) /\
    iadd_last (map fst rs) e_shift = Return en /\
    trace w' =
      trace w ++ EvBridge mol ::
        concat (zip_with
                  (fun (item : bytes * Path) r =>
                     xtb_state_events (atom_charges X mol)
                       (array_mul (atom_coords X mol) (BOHR_TO_ANGSTROM X))
                       (normalize_keywords X keywords ∪ {["--grad"]})
                       xcontrol_keywords item.2 r)
                  (zip topologies xtb_paths) rs) ++
        [EvSolver en (map snd rs) coupling] /\
    (if cleanup then cleanup_temp_dirs temp_dirs else ret tt) wc
    = (Return tt, wc') /\
    fs w' = fs wc'.
Proof.
  intros Hrun. unfold e_g_function in Hrun.
  rewrite (bind_Return _ _ _ _ _ (log_run _ _)) in Hrun.
  set (w0 := add_event (EvBridge mol) w) in *.
  set (co := array_mul (atom_coords X mol) (BOHR_TO_ANGSTROM X)) in *.
  set (kw := normalize_keywords X keywords ∪ {["--grad"]}) in *.
  bind_inv Hrun. destruct a0 as [[xtb_paths temp_dirs] cleanup].
  pose proof (working_directories_quiet _ _ _ _ _ Hc) as [_ Ht1].
  bind_inv Hrun. destruct a0 as [energies gradients].
  pose proof Hc0 as Hloop.
  apply (for_each_appends_results co _ _ (evaluate_state_appends _ co _ _) tt)
    in Hloop as (evs & (_ & Ht2 & _) & Hs).
  simpl in Hs. inversion Hs; subst energies gradients; clear Hs.
  apply (for_each_events _
           (fun (item : bytes * Path) evs =>
              exists r, evs = xtb_state_events (atom_charges X mol) co kw
                                xcontrol_keywords item.2 r)) in Hc0.
  2:{ intros [topology d] s w3 s' w3' Hb.
      apply evaluate_state_full in Hb as [r Hb]. eauto. }
  destruct Hc0 as (evss & Ht2' & Hall).
  apply Forall2_state_events in Hall as (rs & Hlen & ->).
  rewrite Ht2 in Ht2'. apply app_inv_head in Ht2'. subst evs.
  assert (Hrs : evaluator_results
                  (concat
                     (zip_with
                        (fun (item : bytes * Path) r =>
                           xtb_state_events (atom_charges X mol) co kw
                             xcontrol_keywords item.2 r)
                        (zip topologies xtb_paths) rs)) = rs).
  { clear - Hlen. revert rs Hlen.
    induction (zip topologies xtb_paths) as [| item items IH];
      intros [| r rs] Hlen; try discriminate; [reflexivity |].
    simpl. rewrite IH; [reflexivity |]. simpl in Hlen. lia. }
  rewrite Hrs in Hrun.
  apply bridge_tail_Return in Hrun as (en & wc & Hen & Hclean & Hfs & Ht3).
  exists xtb_paths, temp_dirs, cleanup, w1,
    (add_event (EvSolver en (map snd rs) coupling) w2), wc, rs, en.
  split; [exact Hc |]. split; [exact Hlen |]. split; [exact Hen |].
  split; [| split; [exact Hclean | exact Hfs]].
  rewrite Ht3.
  assert (Hq : trace wc = trace (add_event (EvSolver en (map snd rs) coupling) w2)).
  { destruct cleanup.
    - apply cleanup_temp_dirs_quiet in Hclean as [_ Hq]. exact Hq.
    - inversion Hclean; subst. reflexivity. }
  rewrite Hq. simpl. rewrite Ht2, Ht1. simpl.
  rewrite <- !app_assoc. reflexivity.
Qed.

(** An invocation of [e_g_function] with a [path], start to end.  When it
    returns, it has run xtb once for each topology, in their order, state
    [i] in the directory [path / str(i)], always on the molecule's atomic
    numbers, the geometry in Angstrom, the keywords stripped and in lower
    case together with [--grad], and the control keywords as given; after
    each run it has read [xtb.engrad] of that directory; and then it has
    called the solver once, on the energies read, the last with [e_shift]
    added, and the gradients read. *)
Theorem e_g_function_runs_every_state mol topologies (results : loc) keywords
    xcontrol_keywords e_shift coupling p w a w' :
  e_g_function X mol topologies results keywords xcontrol_keywords e_shift
    coupling (Some p) w = (Return a, w') ->
  exists rs en,
    length rs = length topologies /\
    iadd_last (map fst rs) e_shift = Return en /\
    trace w' =
      trace w ++ EvBridge mol ::
        concat (zip_with
                  (xtb_state_events (atom_charges X mol)
                     (array_mul (atom_coords X mol) (BOHR_TO_ANGSTROM X))
                     (normalize_keywords X keywords ∪ {["--grad"]})
                     xcontrol_keywords)
                  (map (fun i : nat => joinpath (Path_of X p) (pretty i))
                     (seq 0 (length topologies))) rs) ++
        [EvSolver en (map snd rs) coupling].
Proof.
  intros Hrun.
  apply e_g_function_returns in Hrun
    as (xtb_paths & temp_dirs & cleanup & w1 & wc & wc' & rs & en
        & Hdirs & Hlen & Hen & Ht & _ & _).
  unfold working_directories in Hdirs. inversion Hdirs; subst; clear Hdirs.
  set (dirs := map (fun i : nat => joinpath (Path_of X p) (pretty i))
                 (seq 0 (length topologies))) in *.
  assert (Hd : length dirs = length topologies).
  { unfold dirs. rewrite length_map, length_seq. reflexivity. }
  rewrite zip_with_state_events in Ht by exact Hd.
  rewrite length_zip, Hd, Nat.min_id in Hlen.
  exists rs, en. split; [exact Hlen |]. split; [exact Hen | exact Ht].
Qed.

(** An invocation of [e_g_function] without a [path].  Every state gets a
    temporary directory of its own: the directories are as many as the
    topologies, different from one another, and none of them existed
    before.  xtb runs in them as it does in the directories of a [path];
    and when the invocation returns, none of them is left. *)
Theorem e_g_function_temporary_directories mol topologies (results : loc)
    keywords xcontrol_keywords e_shift coupling w a w' :
  e_g_function X mol topologies results keywords xcontrol_keywords e_shift
    coupling None w = (Return a, w') ->
  exists dirs rs en,
    length dirs = length topologies /\ NoDup dirs /\
    (forall d, d ∈ dirs ->
       path_exists (fs w) d = false /\ path_exists (fs w') d = false) /\
    length rs = length topologies /\
    trace w' =
      trace w ++ EvBridge mol ::
        concat (zip_with
                  (xtb_state_events (atom_charges X mol)
                     (array_mul (atom_coords X mol) (BOHR_TO_ANGSTROM X))
                     (normalize_keywords X keywords ∪ {["--grad"]})
                     xcontrol_keywords) dirs rs) ++
        [EvSolver en (map snd rs) coupling].
Proof.
  intros Hrun.
  apply e_g_function_returns in Hrun
    as (xtb_paths & temp_dirs & cleanup & w1 & wc & wc' & rs & en
        & Hdirs & Hlen & Hen & Ht & Hclean & Hfs).
  unfold working_directories in Hdirs. bind_inv Hdirs.
  inversion Hdirs; subst xtb_paths temp_dirs cleanup w0; clear Hdirs.
  rename a0 into dirs.
  apply temporary_directories_new in Hc as (new & Heq & Hn & Hnd & Habs & _).
  simpl in Heq. subst new. rewrite length_seq in Hn.
  rewrite zip_with_state_events in Ht by exact Hn.
  rewrite length_zip, Hn, Nat.min_id in Hlen.
  exists dirs, rs, en. split; [exact Hn |]. split; [exact Hnd |].
  split; [| split; [exact Hlen | exact Ht]].
  intros d Hd. pose proof (Habs d Hd) as Hbefore. simpl in Hbefore.
  assert (Hne : d <> []) by (intros ->; discriminate).
  split; [unfold path_exists; rewrite Hbefore; reflexivity |].
  apply path_exists_lookup; [exact Hne |]. rewrite Hfs.
  eapply cleanup_temp_dirs_gone; eassumption.
Qed.

(** An invocation of [e_g_function_python], start to end.  When it returns,
    it has given every calculator the geometry in Angstrom and asked it
    for a single point, once each and in the order of [calculators], and
    then it has called the solver once, on the energies it got, the last
    with [e_shift] added, and the gradients it got. *)
Theorem e_g_function_python_asks_every_calculator mol calculators
    (results : loc) e_shift coupling path w a w' :
  e_g_function_python X mol calculators results e_shift coupling path w
  = (Return a, w') ->
  exists rs en,
    length rs = length calculators /\
    iadd_last (map fst rs) e_shift = Return en /\
    trace w' =
      trace w ++ EvBridge mol ::
        concat (zip_with
                  (calculator_state_events
                     (array_mul (atom_coords X mol) (BOHR_TO_ANGSTROM X)))
                  calculators rs) ++
        [EvSolver en (map snd rs) coupling].
Proof.
  intros Hrun. unfold e_g_function_python in Hrun.
  rewrite (bind_Return _ _ _ _ _ (log_run _ _)) in Hrun.
  set (w0 := add_event (EvBridge mol) w) in *. cbv zeta in Hrun.
  set (co := array_mul (atom_coords X mol) (BOHR_TO_ANGSTROM X)) in *.
  bind_inv Hrun. destruct a0 as [energies gradients].
  pose proof Hc as Hloop.
  apply (for_each_appends_results co _ _ (evaluate_calculator_appends co) tt)
    in Hloop as (evs & (_ & Ht2 & _) & Hs).
  simpl in Hs. inversion Hs; subst energies gradients; clear Hs.
  apply (for_each_events _
           (fun (calculator : loc) evs =>
              exists r, evs = calculator_state_events co calculator r)) in Hc.
  2:{ intros calculator s w3 s' w3' Hb.
      apply evaluate_calculator_full in Hb as [r Hb]. eauto. }
  destruct Hc as (evss & Ht2' & Hall).
  apply Forall2_state_events in Hall as (rs & Hlen & ->).
  rewrite Ht2 in Ht2'. apply app_inv_head in Ht2'. subst evs.
  rewrite (evaluator_results_calculators _ _ _ Hlen) in Hrun.
  apply (bridge_tail_Return results co (ret tt)) in Hrun
    as (en & wc & Hen & Hclean & _ & Ht3).
  inversion Hclean; subst wc; clear Hclean.
  exists rs, en. split; [exact Hlen |]. split; [exact Hen |].
  rewrite Ht3. simpl. rewrite Ht2. simpl. rewrite <- !app_assoc. reflexivity.
Qed.

Lemma calculators_loop_fs co calculators s w o w' :
  for_each calculators (evaluate_calculator X co) s w = (o, w') -> fs w' = fs w.
Proof.
  apply (for_each_invariant (fun w w' => fs w' = fs w)).
  - reflexivity.
  - intros w0 w1 w2 H1 H2. rewrite H2. exact H1.
  - intros calculator [energies gradients] w1 o1 w1' Hb.
    unfold evaluate_calculator in Hb. bind_inv Hb.
    + apply calculator_set_coordinates_run in Hc as (_ & _ & _ & Hf1).
      assert (Hsp : exists o2, calculator_sp X calculator w0 = (o2, w1')).
      { unfold bind in Hb.
        destruct (calculator_sp X calculator w0) as [[[energy gradient] | e] w2];
          inversion Hb; subst; eauto. }
      destruct Hsp as [o2 Hsp].
      apply (calculator_sp_run _ co) in Hsp as (_ & _ & Hf2 & _).
      rewrite Hf2. exact Hf1.
    + apply calculator_set_coordinates_run in Hb as (_ & _ & _ & Hf1).
      exact Hf1.
Qed.

(** [e_g_function_ci_python] on a calculator, in full.  The calculator is
    given the geometry in Angstrom and asked for a single point; the
    energy comes back with [e_shift] added and the gradient as it is; what
    the single point raises, the bridge raises; the calculator, changed in
    place, is the only object touched. *)
Theorem e_g_function_ci_python_run mol (calculator : loc) c e_shift path w :
  heap w !! calculator = Some (PyCalculator c) ->
  let co := array_mul (atom_coords X mol) (BOHR_TO_ANGSTROM X) in
  let sp := calc_sp X (calc_set_coordinates X c co) in
  e_g_function_ci_python X mol calculator e_shift path w =
  (match sp.1 with
   | Return (energy, gradient) => Return (PrimFloat.add energy e_shift, gradient)
   | Raise e => Raise e
   end,
   mkWorld (fs w) (<[calculator := PyCalculator sp.2]> (heap w))
     (trace w ++
        [EvBridge mol; EvSetCoordinates calculator co; EvSp calculator sp.1])
     (sys_stdout w) (sys_stderr w)).
Proof.
  intros Hobj co sp. unfold e_g_function_ci_python.
  rewrite (bind_Return _ _ _ _ _ (log_run _ _)). cbv zeta. fold co.
  unfold calculator_set_coordinates, calculator_sp, bind, get_obj, log,
    put_obj, lift, ret. simpl. rewrite Hobj. simpl.
  rewrite lookup_insert_eq. fold sp.
  destruct sp as [[[energy gradient] | e] c']; simpl;
    unfold set_heap, add_event; simpl;
    rewrite insert_insert_eq, <- !app_assoc; reflexivity.
Qed.

(** ** When an evaluator fails *)

Lemma no_failure_nil : no_failure [].
Proof. intros ev e Hin. inversion Hin. Qed.

Lemma no_failure_app evs1 evs2 :
  no_failure evs1 -> no_failure evs2 -> no_failure (evs1 ++ evs2).
Proof.
  intros H1 H2 ev e Hin. apply elem_of_app in Hin as [Hin | Hin];
    [eapply H1 | eapply H2]; exact Hin.
Qed.

Lemma no_failure_singleton ev :
  (forall e, ~ evaluator_failed e ev) -> no_failure [ev].
Proof.
  intros Hev ev' e Hin. apply list_elem_of_singleton in Hin as ->. apply Hev.
Qed.

Lemma fails_last_quiet {A} (o : Outcome A) : fails_last o [].
Proof. split; [intros _ | left]; apply no_failure_nil. Qed.

Lemma fails_last_clean {A} (o : Outcome A) evs :
  no_failure evs -> fails_last o evs.
Proof. intros Hn. split; [intros _ | left]; exact Hn. Qed.

Lemma fails_last_Raise {A B} (e : exn) evs :
  fails_last (Raise e : Outcome A) evs -> fails_last (Raise e : Outcome B) evs.
Proof.
  intros [_ Hlast]. split; [intros Ho; discriminate |].
  destruct Hlast as [Hn | (pre & ev & e' & -> & Hpre & Hev & Ho)];
    [left; exact Hn | right].
  exists pre, ev, e'. inversion Ho; subst. repeat split; assumption.
Qed.

(** A stretch without a failure, followed by another stretch. *)
Lemma fails_last_after {A} (o : Outcome A) evs1 evs2 :
  no_failure evs1 -> fails_last o evs2 -> fails_last o (evs1 ++ evs2).
Proof.
  intros H1 [Hret Hlast]. split.
  - intros Ho. apply no_failure_app; [exact H1 | apply Hret, Ho].
  - destruct Hlast as [H2 | (pre & ev & e & -> & Hpre & Hev & Ho)].
    + left. apply no_failure_app; assumption.
    + right. exists (evs1 ++ pre), ev, e. rewrite app_assoc.
      split; [reflexivity |]. split; [apply no_failure_app; assumption |].
      split; assumption.
Qed.

Lemma for_each_fails_last {A S} (body : A -> S -> M S) (items : list A) :
  (forall x s w o w',
     body x s w = (o, w') ->
     exists evs, trace w' = trace w ++ evs /\ fails_last o evs) ->
  forall s w o w',
    for_each items body s w = (o, w') ->
    exists evs, trace w' = trace w ++ evs /\ fails_last o evs.
Proof.
  intros Hbody. induction items as [| x items IH]; intros s w o w' Hrun;
    simpl in Hrun.
  - inversion Hrun; subst. exists []. rewrite app_nil_r.
    split; [reflexivity | apply fails_last_quiet].
  - bind_inv Hrun.
    + destruct (Hbody _ _ _ _ _ Hc) as (evs1 & Ht1 & [Hret1 _]).
      destruct (IH _ _ _ _ Hrun) as (evs2 & Ht2 & Hlast).
      exists (evs1 ++ evs2). split; [rewrite Ht2, Ht1, app_assoc; reflexivity |].
      apply fails_last_after; [apply Hret1; reflexivity | exact Hlast].
    + apply (Hbody _ _ _ _ _ Hrun).
Qed.

Lemma evaluate_state_fails_last elements co keywords xcontrol_keywords item s
    w o w' :
  evaluate_state X elements co keywords xcontrol_keywords item s w = (o, w') ->
  exists evs, trace w' = trace w ++ evs /\ fails_last o evs.
Proof.
  destruct item as [topology d], s as [energies gradients]. intros Hrun.
  unfold evaluate_state in Hrun.
  bind_inv Hrun.
  2:{ apply on_fs_run in Hrun as (_ & Ht & _). exists [].
      rewrite app_nil_r. split; [exact Ht | apply fails_last_quiet]. }
  apply on_fs_run in Hc as (_ & Ht0 & _).
  bind_inv Hrun; [| inversion Hrun]. inversion Hc; subst w1 a0; clear Hc.
  assert (Htopo : forall o1 w1,
             (if negb (path_exists (fs w0) (joinpath d "gfnff_topo"))
              then on_fs (write_bytes (joinpath d "gfnff_topo") topology)
              else ret tt) w0 = (o1, w1) -> trace w1 = trace w).
  { intros o1 w1. destruct (negb _); intros Hr.
    - apply on_fs_run in Hr as (_ & Ht & _). rewrite Ht. exact Ht0.
    - inversion Hr; subst. exact Ht0. }
  bind_inv Hrun.
  2:{ apply Htopo in Hrun. exists []. rewrite app_nil_r.
      split; [exact Hrun | apply fails_last_quiet]. }
  apply Htopo in Hc. clear Htopo.
  set (ev1 := EvRunXtb elements co d keywords xcontrol_keywords) in *.
  assert (Hclean : no_failure [ev1]).
  { apply no_failure_singleton. intros e He. exact He. }
  assert (Hx : forall o2 w2,
             call_run_xtb X elements co d keywords xcontrol_keywords w1
             = (o2, w2) -> trace w2 = trace w ++ [ev1]).
  { intros o2 w2. unfold call_run_xtb, bind, log. simpl.
    destruct (run_xtb X _ _ _ _ _ _) as [r fs']. intros Hr.
    inversion Hr; subst. simpl. rewrite Hc. reflexivity. }
  bind_inv Hrun.
  2:{ apply Hx in Hrun. exists [ev1]. split; [exact Hrun |].
      apply fails_last_clean, Hclean. }
  apply Hx in Hc0. clear Hx.
  unfold bind, call_parse_engrad in Hrun.
  set (p := joinpath d "xtb.engrad") in *.
  destruct (parse_engrad X p (fs w2)) as [[energy gradient] | e];
    inversion Hrun; subst o w'; clear Hrun.
  - exists [ev1; EvParseEngrad p (Return (energy, gradient))]. split.
    + simpl. rewrite Hc0, <- app_assoc. reflexivity.
    + apply fails_last_clean.
      apply (no_failure_app [ev1] [_]); [exact Hclean |].
      apply no_failure_singleton. intros e He. exact He.
  - exists [ev1; EvParseEngrad p (Raise e)]. split.
    + simpl. rewrite Hc0, <- app_assoc. reflexivity.
    + split; [intros Ho; discriminate |]. right.
      exists [ev1], (EvParseEngrad p (Raise e)), e.
      split; [reflexivity |]. split; [exact Hclean |].
      split; reflexivity.
Qed.

Lemma evaluate_calculator_fails_last co (calculator : loc) s w o w' :
  evaluate_calculator X co calculator s w = (o, w') ->
  exists evs, trace w' = trace w ++ evs /\ fails_last o evs.
Proof.
  destruct s as [energies gradients]. intros Hrun.
  unfold evaluate_calculator in Hrun.
  set (ev1 := EvSetCoordinates calculator co).
  assert (Hclean : no_failure [ev1]).
  { apply no_failure_singleton. intros e He. exact He. }
  bind_inv Hrun.
  - assert (Ht1 : trace w0 = trace w ++ [ev1] /\
                  exists c, heap w0 !! calculator = Some (PyCalculator c)).
    { revert Hc. unfold calculator_set_coordinates, bind, get_obj, log,
        put_obj, raise.
      destruct (heap w !! calculator) as [[| | | | | |c|]|]; intros Hr;
        inversion Hr; subst. simpl. rewrite lookup_insert_eq. eauto. }
    destruct Ht1 as (Ht1 & c & Hobj). clear Hc.
    revert Hrun. unfold bind at 1. unfold calculator_sp, bind, get_obj, log,
      put_obj, lift. rewrite Hobj.
    destruct (calc_sp X c) as [[[energy gradient] | e] c']; simpl;
      intros Hr; inversion Hr; subst.
    + exists [ev1; EvSp calculator (Return (energy, gradient))]. split.
      * simpl. rewrite Ht1, <- app_assoc. reflexivity.
      * apply fails_last_clean.
        apply (no_failure_app [ev1] [_]); [exact Hclean |].
        apply no_failure_singleton. intros e He. exact He.
    + exists [ev1; EvSp calculator (Raise e)]. split.
      * simpl. rewrite Ht1, <- app_assoc. reflexivity.
      * split; [intros Ho; discriminate |]. right.
        exists [ev1], (EvSp calculator (Raise e)), e.
        split; [reflexivity |]. split; [exact Hclean |].
        split; reflexivity.
  - exists []. rewrite app_nil_r. split; [| apply fails_last_quiet].
    revert Hrun. unfold calculator_set_coordinates, bind, get_obj, log,
      put_obj, raise.
    destruct (heap w !! calculator) as [[| | | | | |c|]|]; intros Hr;
      inversion Hr; subst; reflexivity.
Qed.

(** The tail of a bridge calls no evaluator. *)
Lemma bridge_tail_no_failure (results : loc) co (cleanup_step : M unit)
    e_shift coupling s w o w' :
  (forall w1 o1 w1', cleanup_step w1 = (o1, w1') -> quiet w1 w1') ->
  bridge_tail X results co cleanup_step e_shift coupling s w = (o, w') ->
  exists evs, trace w' = trace w ++ evs /\ no_failure evs.
Proof.
  destruct s as [en0 gr0]. intros Hclean Hrun.
  apply bridge_tail_run in Hrun; [| exact Hclean].
  destruct Hrun as [[[_ Ht] _] | (en & _ & Ht & _)].
  - exists []. rewrite app_nil_r. split; [exact Ht | apply no_failure_nil].
  - eexists. split; [exact Ht |]. apply no_failure_singleton.
    intros e He. exact He.
Qed.

(** The events of an invocation, as far as failures go. *)
Lemma bridge_fails_last (b : Bridge) (results : loc) e_shift coupling mol
    w o w' :
  e_g_partial X b results e_shift coupling mol w = (o, w') ->
  exists evs, trace w' = trace w ++ EvBridge mol :: evs /\ fails_last o evs.
Proof.
  intros Hrun.
  set (co := array_mul (atom_coords X mol) (BOHR_TO_ANGSTROM X)).
  set (w0 := add_event (EvBridge mol) w).
  assert (Hgo : forall (w2 : World) evs1 evs2,
             trace w2 = trace w0 ++ evs1 -> no_failure evs1 ->
             trace w' = trace w2 ++ evs2 -> no_failure evs2 ->
             exists evs, trace w' = trace w ++ EvBridge mol :: evs /\
                         fails_last o evs).
  { intros w2 evs1 evs2 H2 Hn1 H3 Hn2. exists (evs1 ++ evs2).
    split; [rewrite H3, H2; simpl; rewrite <- !app_assoc; reflexivity |].
    apply fails_last_clean, no_failure_app; assumption. }
  assert (Hstop : forall evs1,
             trace w' = trace w0 ++ evs1 -> fails_last o evs1 ->
             exists evs, trace w' = trace w ++ EvBridge mol :: evs /\
                         fails_last o evs).
  { intros evs1 H1 Hl. exists evs1. split; [| exact Hl].
    rewrite H1. simpl. rewrite <- app_assoc. reflexivity. }
  destruct b as [topologies keywords xcontrol_keywords path | calculators path];
    simpl in Hrun.
  - unfold e_g_function in Hrun.
    rewrite (bind_Return _ _ _ _ _ (log_run _ _)) in Hrun.
    fold w0 co in Hrun.
    bind_inv Hrun.
    2:{ apply working_directories_quiet in Hrun as [_ Hq].
        apply (Hstop []); [rewrite app_nil_r; exact Hq |].
        apply fails_last_quiet. }
    apply working_directories_quiet in Hc as [_ Hq1].
    destruct a as [[xtb_paths temp_dirs] cleanup].
    bind_inv Hrun.
    + apply (for_each_fails_last _ _
               (evaluate_state_fails_last _ co _ _)) in Hc
        as (evs1 & Ht1 & [Hret _]).
      apply bridge_tail_no_failure in Hrun as (evs2 & Ht2 & Hn2).
      * apply (Hgo w2 evs1 evs2); try assumption.
        -- rewrite Ht1, Hq1. reflexivity.
        -- apply Hret. reflexivity.
      * intros w3 o3 w3'. destruct cleanup.
        -- apply cleanup_temp_dirs_quiet.
        -- intros Hr. inversion Hr; subst. apply quiet_refl.
    + apply (for_each_fails_last _ _
               (evaluate_state_fails_last _ co _ _)) in Hrun
        as (evs1 & Ht1 & Hlast).
      apply (Hstop evs1);
        [rewrite Ht1, Hq1; reflexivity | eapply fails_last_Raise; exact Hlast].
  - unfold e_g_function_python in Hrun.
    rewrite (bind_Return _ _ _ _ _ (log_run _ _)) in Hrun.
    fold w0 in Hrun. cbv zeta in Hrun. fold co in Hrun.
    bind_inv Hrun.
    + apply (for_each_fails_last _ _ (evaluate_calculator_fails_last co))
        in Hc as (evs1 & Ht1 & [Hret _]).
      apply (bridge_tail_no_failure results co (ret tt)) in Hrun
        as (evs2 & Ht2 & Hn2).
      * apply (Hgo w1 evs1 evs2); try assumption. apply Hret. reflexivity.
      * intros w3 o3 w3' Hr. inversion Hr; subst. apply quiet_refl.
    + apply (for_each_fails_last _ _ (evaluate_calculator_fails_last co))
        in Hrun as (evs1 & Ht1 & Hlast).
      apply (Hstop evs1); [exact Ht1 | eapply fails_last_Raise; exact Hlast].
Qed.

(** The failure of an evaluator is fatal to the invocation, and is what
    the invocation raises.  If, in an invocation of a surface bridge,
    [parse_engrad] or a calculator's single point raises [e], then this is
    the last thing that happens in the invocation: no evaluator is called
    after it, the solver is not called, no accumulator changes, and the
    invocation raises [e]. *)
Theorem evaluator_failure_is_fatal (b : Bridge) (results : loc) e_shift
    coupling mol w o w' evs ev e :
  e_g_partial X b results e_shift coupling mol w = (o, w') ->
  trace w' = trace w ++ evs ->
  ev ∈ evs -> evaluator_failed e ev ->
  o = Raise e /\ last evs = Some ev /\
  (forall l, results_at w' l = results_at w l).
Proof.
  intros Hrun Ht Hin Hfailed.
  destruct (bridge_fails_last _ _ _ _ _ _ _ _ Hrun) as (evs1 & Ht1 & [_ Hlast]).
  pose proof Ht1 as Hshape.
  rewrite Ht in Ht1. apply app_inv_head in Ht1. subst evs.
  apply elem_of_cons in Hin as [-> | Hin]; [destruct Hfailed |].
  destruct Hlast as [Hclean | (pre & ev' & e' & -> & Hpre & Hev & ->)].
  { exfalso. eapply Hclean; eassumption. }
  apply elem_of_app in Hin as [Hin | Hin].
  { exfalso. eapply Hpre; eassumption. }
  apply list_elem_of_singleton in Hin as ->.
  assert (Heq : e' = e).
  { destruct ev' as [| | p [r | e0] | | c [r | e0] | | |]; simpl in *;
      try contradiction; congruence. }
  subst e'. split; [reflexivity |]. split.
  - change (EvBridge mol :: pre ++ [ev']) with ((EvBridge mol :: pre) ++ [ev']).
    apply last_snoc.
  - apply e_g_partial_spec in Hrun as (evs0 & _ & Hspec).
    destruct Hspec as [(_ & Hres & _) | (en & _ & Ht2 & Hrest)]; [exact Hres |].
    destruct Hrest as [[Hres _] | (en_ad & gr_ad & idx & r & _ & _ & _ & _ & _)];
      [exact Hres |].
    (* the trace would end in the call of the solver, and it ends in [ev'] *)
    exfalso. rewrite Hshape in Ht2. apply app_inv_head in Ht2.
    change (EvBridge mol :: pre ++ [ev'])
      with ((EvBridge mol :: pre) ++ [ev']) in Ht2.
    change (EvBridge mol :: evs0 ++
              [EvSolver en (map snd (evaluator_results evs0)) coupling])
      with ((EvBridge mol :: evs0) ++
              [EvSolver en (map snd (evaluator_results evs0)) coupling]) in Ht2.
    apply app_inj_tail in Ht2 as [_ ->]. exact Hfailed.
Qed.

(** ** A returning invocation, in full *)

Lemma working_directories_length path n w xtb_paths temp_dirs cleanup w1 :
  working_directories X path n w = (Return (xtb_paths, temp_dirs, cleanup), w1) ->
  length xtb_paths = n.
Proof.
  unfold working_directories. destruct path as [p |]; intros Hrun.
  - inversion Hrun; subst. rewrite length_map. apply length_seq.
  - bind_inv Hrun. inversion Hrun; subst.
    apply temporary_directories_new in Hc as (new & Heq & Hlen & _).
    simpl in Heq. subst. rewrite Hlen. apply length_seq.
Qed.

(** What the events of a loop over the states hand to the evaluators. *)
Lemma state_events_handed {A} (f : A -> float * Array2D -> list Event)
    (name : A -> Path + loc) co (items : list A) (rs : list (float * Array2D)) :
  (forall x r, omap handed_to (f x r) = [(name x, co)] /\
               Forall evaluator_call (f x r) /\
               evaluator_results (f x r) = [r]) ->
  length rs = length items ->
  let evs := concat (zip_with f items rs) in
  omap handed_to evs = map (fun x => (name x, co)) items /\
  Forall evaluator_call evs /\
  evaluator_results evs = rs.
Proof.
  intros Hf. revert rs. induction items as [| x items IH]; intros [| r rs] Hlen;
    try discriminate.
  - repeat split. constructor.
  - simpl in Hlen. destruct (IH rs ltac:(lia)) as (Hco & Hcalls & Hrs).
    destruct (Hf x r) as (Hco1 & Hcalls1 & Hrs1). cbn [zip_with concat].
    cbv zeta. split; [| split].
    + rewrite omap_app, Hco1. simpl. f_equal. exact Hco.
    + apply Forall_app. split; assumption.
    + rewrite evaluator_results_app, Hrs1. simpl. f_equal. exact Hrs.
Qed.

(** An invocation that returns has gone through every state and then
    called the solver: the events between the invocation and the call of
    the solver are calls of the evaluators, one result for each state; the
    evaluator of each state, in their order, has been handed the converted
    geometry, once; and the solver is given the energies with [e_shift]
    added to the last. *)
Lemma bridge_returns_trace (b : Bridge) (results : loc) e_shift coupling mol
    w a w' :
  e_g_partial X b results e_shift coupling mol w = (Return a, w') ->
  let co := array_mul (atom_coords X mol) (BOHR_TO_ANGSTROM X) in
  exists evs en evaluators,
    trace w' =
      trace w ++ EvBridge mol :: evs ++
        [EvSolver en (map snd (evaluator_results evs)) coupling] /\
    Forall evaluator_call evs /\
    length (evaluator_results evs) = n_states b /\
    length evaluators = n_states b /\
    (forall es, bridge_evaluators X b = Some es -> evaluators = es) /\
    omap handed_to evs = map (fun e => (e, co)) evaluators /\
    iadd_last (map fst (evaluator_results evs)) e_shift = Return en.
Proof.
  intros Hrun co.
  destruct b as [topologies keywords xcontrol_keywords path | calculators path];
    simpl in Hrun.
  - apply e_g_function_returns in Hrun
      as (xtb_paths & temp_dirs & cleanup & w1 & wc & wc' & rs & en
          & Hdirs & Hlen & Hen & Ht & _ & _).
    pose proof (working_directories_length _ _ _ _ _ _ _ Hdirs) as Hn.
    rewrite zip_with_state_events in Ht by exact Hn.
    rewrite length_zip, Hn, Nat.min_id in Hlen. fold co in Ht.
    destruct (state_events_handed
                (xtb_state_events (atom_charges X mol) co
                   (normalize_keywords X keywords ∪ {["--grad"]})
                   xcontrol_keywords) inl co xtb_paths rs)
      as (Hco & Hcalls & Hrs).
    { intros d r. repeat split. simpl. destruct r. repeat constructor. }
    { rewrite Hn. exact Hlen. }
    exists (concat
              (zip_with
                 (xtb_state_events (atom_charges X mol) co
                    (normalize_keywords X keywords ∪ {["--grad"]})
                    xcontrol_keywords) xtb_paths rs)), en, (map inl xtb_paths).
    rewrite Hrs. split; [exact Ht |]. split; [exact Hcalls |].
    simpl. split; [exact Hlen |]. split; [rewrite length_map; exact Hn |].
    split; [| split; [| exact Hen]].
    + intros es Hes. destruct path as [p |]; [| discriminate].
      inversion Hes; subst es. unfold working_directories in Hdirs.
      inversion Hdirs; subst. rewrite map_map. reflexivity.
    + rewrite Hco, map_map. reflexivity.
  - unfold e_g_function_python in Hrun.
    rewrite (bind_Return _ _ _ _ _ (log_run _ _)) in Hrun.
    set (w0 := add_event (EvBridge mol) w) in *. cbv zeta in Hrun.
    fold co in Hrun.
    bind_inv Hrun. destruct a0 as [energies gradients].
    pose proof Hc as Hloop.
    apply (for_each_appends_results co _ _ (evaluate_calculator_appends co) tt)
      in Hloop as (evs & (_ & Ht2 & _) & Hs).
    simpl in Hs. inversion Hs; subst energies gradients; clear Hs.
    apply (for_each_events _
             (fun (calculator : loc) evs =>
                exists r, evs = calculator_state_events co calculator r)) in Hc.
    2:{ intros calculator s w3 s' w3' Hb.
        apply evaluate_calculator_full in Hb as [r Hb]. eauto. }
    destruct Hc as (evss & Ht2' & Hall).
    apply Forall2_state_events in Hall as (rs & Hlen & ->).
    rewrite Ht2 in Ht2'. apply app_inv_head in Ht2'. subst evs.
    destruct (state_events_handed (calculator_state_events co) inr co
                calculators rs)
      as (Hco & Hcalls & Hrs).
    { intros c r. repeat split. simpl. destruct r. repeat constructor. }
    { exact Hlen. }
    rewrite Hrs in Hrun.
    apply (bridge_tail_Return results co (ret tt)) in Hrun
      as (en & wc & Hen & Hclean & _ & Ht3).
    inversion Hclean; subst wc; clear Hclean.
    exists (concat (zip_with (calculator_state_events co) calculators rs)), en,
      (map inr calculators).
    rewrite Hrs. split; [| split; [exact Hcalls |]].
    + rewrite Ht3. simpl. rewrite Ht2. simpl. rewrite <- !app_assoc. reflexivity.
    + simpl. split; [exact Hlen |]. split; [apply length_map |].
      split; [| split; [| exact Hen]].
      * intros es Hes. inversion Hes. reflexivity.
      * rewrite Hco, map_map. reflexivity.
Qed.



(** C6.  In an invocation of a surface bridge, a call of the secular solver
    is the last event: every evaluator call of the invocation comes before
    it.  The energies it is given are the energies the evaluators gave
    back, in their order, with [e_shift] added to the last one and to no
    other; the gradients are the evaluators' gradients and the coupling is
    the configured one.  And an invocation that returns has made this
    call, after an evaluation of every state. *)
Theorem shift_on_last_state_before_solver (b : Bridge) (results : loc)
    e_shift coupling mol w o w' :
  e_g_partial X b results e_shift coupling mol w = (o, w') ->
  (forall pre post en gr c,
     trace w' = trace w ++ pre ++ EvSolver en gr c :: post ->
     exists evs,
       pre = EvBridge mol :: evs /\ post = [] /\
       Forall evaluator_call evs /\
       shifted_last (map fst (evaluator_results evs)) e_shift en /\
       gr = map snd (evaluator_results evs) /\
       c = coupling) /\
  (is_Return o = true ->
   exists evs en,
     trace w' =
       trace w ++ EvBridge mol :: evs ++
         [EvSolver en (map snd (evaluator_results evs)) coupling] /\
     Forall evaluator_call evs /\
     length (evaluator_results evs) = n_states b /\
     shifted_last (map fst (evaluator_results evs)) e_shift en).
Proof.
  intros Hrun. split.
  - intros pre post en gr c Htrace.
    apply e_g_partial_spec in Hrun as (evs & Hevs & Hspec).
    assert (Hcalls : Forall evaluator_call evs).
    { eapply Forall_impl; [exact Hevs |]. apply evaluator_event_is_call. }
    destruct Hspec as [(Ht & _ & _) | (en0 & Hen & Ht & _)];
      rewrite Ht in Htrace; apply app_inv_head in Htrace.
    + destruct pre as [| p pre]; [discriminate |].
      inversion Htrace as [[Hp Htl]].
      exfalso. eapply no_solver_call; eassumption.
    + destruct pre as [| p pre]; [discriminate |].
      inversion Htrace as [[Hp Htl]]. subst p.
      apply solver_call_is_last in Htl as (-> & -> & -> & -> & ->);
        [| assumption].
      exists evs. repeat split; try assumption.
      all: apply iadd_last_spec in Hen; destruct Hen as (Hl & Hi & Hx); assumption.
  - intros Ho. destruct o as [a |]; [| discriminate].
    destruct (bridge_returns_trace _ _ _ _ _ _ _ _ Hrun)
      as (evs & en & evaluators & Ht & Hcalls & Hlen & _ & _ & _ & Hen).
    exists evs, en. split; [exact Ht |]. split; [exact Hcalls |].
    split; [exact Hlen |]. apply iadd_last_spec. exact Hen.
Qed.




(** An evaluator that fails leaves every accumulator as it was. *)
Lemma failed_evaluator_keeps_results (b : Bridge) (results : loc) e_shift
    coupling mol w o w' evs ev e :
  e_g_partial X b results e_shift coupling mol w = (o, w') ->
  trace w' = trace w ++ evs ->
  ev ∈ evs -> evaluator_failed e ev ->
  o = Raise e /\ forall l, results_at w' l = results_at w l.
Proof.
  intros Hrun Ht Hin Hfailed.
  destruct (bridge_fails_last _ _ _ _ _ _ _ _ Hrun) as (evs1 & Ht1 & [_ Hlast]).
  pose proof Ht1 as Hshape.
  rewrite Ht in Ht1. apply app_inv_head in Ht1. subst evs.
  apply elem_of_cons in Hin as [-> | Hin]; [destruct Hfailed |].
  destruct Hlast as [Hclean | (pre & ev' & e' & -> & Hpre & Hev & ->)].
  { exfalso. eapply Hclean; eassumption. }
  apply elem_of_app in Hin as [Hin | Hin].
  { exfalso. eapply Hpre; eassumption. }
  apply list_elem_of_singleton in Hin as ->.
  assert (Heq : e' = e).
  { destruct ev' as [| | p [r | e0] | | c [r | e0] | | |]; simpl in *;
      try contradiction; congruence. }
  subst e'. split; [reflexivity |].
  apply e_g_partial_spec in Hrun as (evs0 & _ & Hspec).
  destruct Hspec as [(_ & Hres & _) | (en & _ & Ht2 & Hrest)]; [exact Hres |].
  exfalso. rewrite Hshape in Ht2. apply app_inv_head in Ht2.
  change (EvBridge mol :: pre ++ [ev'])
    with ((EvBridge mol :: pre) ++ [ev']) in Ht2.
  change (EvBridge mol :: evs0 ++
            [EvSolver en (map snd (evaluator_results evs0)) coupling])
    with ((EvBridge mol :: evs0) ++
            [EvSolver en (map snd (evaluator_results evs0)) coupling]) in Ht2.
  apply app_inj_tail in Ht2 as [_ ->]. exact Hfailed.
Qed.

(** C2, amended.  From a world in which [results] refers to an accumulator
    [r]: an invocation of a surface bridge that returns appends exactly
    one entry, the record of this evaluation, to each of the six lists;
    an invocation that raises appends either nothing or that one record,
    and nothing when an evaluator failed; in every case the earlier
    entries are unchanged.  So a sequence of invocations that return, and
    any run of an optimiser that returns, leave an accumulator that
    extends [r] with as many entries on every list as there were
    invocations. *)
Theorem accumulator_one_entry_per_invocation (b : Bridge) (results : loc)
    e_shift coupling w r :
  results_at w results = Some r ->
  (forall mol o w',
     e_g_partial X b results e_shift coupling mol w = (o, w') ->
     ((results_at w' results = Some r /\ is_Return o = false) \/
      (exists co en en_ad gr gr_ad idx,
         results_at w' results =
           Some (append_record co en en_ad gr gr_ad idx r))) /\
     (is_Return o = true ->
      exists r', results_at w' results = Some r' /\ extends r r' /\
                 sizes r' = map S (sizes r)) /\
     (forall evs ev e,
        trace w' = trace w ++ evs -> ev ∈ evs -> evaluator_failed e ev ->
        o = Raise e /\ results_at w' results = Some r)) /\
  (forall mols w',
     invocations (e_g_partial X b results e_shift coupling) mols w
     = (Return tt, w') ->
     exists r',
       results_at w' results = Some r' /\ extends r r' /\
       sizes r' = map (Nat.add (length mols)) (sizes r)) /\
  (forall (strategy : Optimizer Mole) w',
     drive (e_g_partial X b results e_shift coupling) (fun _ => ret tt)
       strategy w = (Return tt, w') ->
     exists r' evs,
       trace w' = trace w ++ evs /\
       results_at w' results = Some r' /\ extends r r' /\
       sizes r' = map (Nat.add (bridge_invocations evs)) (sizes r)).
Proof.
  intros Hr. split; [| split].
  - intros mol o w' Hrun.
    pose proof (bridge_appends_or_raises _ _ _ _ _ _ _ _ _ Hrun Hr) as Hstep.
    split; [exact Hstep |]. split.
    + intros Ho.
      destruct Hstep as [[_ Ho'] | (co & en & en_ad & gr & gr_ad & idx & Hr')].
      * rewrite Ho in Ho'. discriminate.
      * eexists. split; [exact Hr' |].
        split; [apply extends_append_record | apply sizes_append_record].
    + intros evs ev e Ht Hin Hfailed.
      destruct (failed_evaluator_keeps_results _ _ _ _ _ _ _ _ _ _ _
                  Hrun Ht Hin Hfailed) as [Ho Hres].
      split; [exact Ho |]. rewrite Hres. exact Hr.
  - intros mols. revert w r Hr.
    induction mols as [| mol mols IH]; intros w r Hr w' Hrun.
    + inversion Hrun; subst. exists r. split; [assumption |].
      split; [apply extends_refl |]. unfold sizes. reflexivity.
    + unfold invocations in Hrun. simpl in Hrun.
      bind_inv Hrun.
      bind_inv Hc.
      inversion Hc; subst a w0; clear Hc.
      destruct (bridge_appends_or_raises _ _ _ _ _ _ _ _ _ Hc0 Hr)
        as [[_ Ho] | (co & en & en_ad & gr & gr_ad & idx & Hr1)];
        [discriminate |].
      destruct (IH _ _ Hr1 _ Hrun) as (r' & Hr' & Hext & Hsizes).
      exists r'. split; [assumption |]. split.
      * eapply extends_trans; [apply extends_append_record | exact Hext].
      * rewrite Hsizes, sizes_append_record. unfold sizes. simpl.
        repeat f_equal; lia.
  - intros strategy w' Hrun. eapply drive_bridge_grows; eassumption.
Qed.

(** ** Units at the boundary, for every evaluator *)

Lemma py_index_lookup {A} (xs : list A) (i : nat) x :
  xs !! i = Some x -> py_index xs (Z.of_nat i) = Return x.
Proof.
  intros Hx. pose proof (lookup_lt_Some _ _ _ Hx) as Hlt.
  assert (H0 : (Z.of_nat i <? 0) = false) by (apply Z.ltb_ge; lia).
  assert (H1 : (Z.of_nat (length xs) <=? Z.of_nat i) = false)
    by (apply Z.leb_gt; lia).
  unfold py_index. cbv zeta. rewrite H0. cbv iota. rewrite H0, H1. simpl.
  rewrite Nat2Z.id, Hx. reflexivity.
Qed.








(** ** The drivers as wholes *)

Lemma bridge_frame (b : Bridge) (results : loc) e_shift coupling mol w o w' :
  e_g_partial X b results e_shift coupling mol w = (o, w') ->
  forall l, l <> results -> results_at w' l = results_at w l.
Proof.
  intros Hrun l Hl. apply e_g_partial_spec in Hrun as (evs & _ & Hspec).
  destruct Hspec as [(_ & Hres & _) | (en & _ & _ & Hrest)]; [apply Hres |].
  destruct Hrest as [[Hres _] | (en_ad & gr_ad & idx & r & _ & _ & _ & Hres & _)];
    [apply Hres | apply Hres, Hl].
Qed.

Lemma drive_bridge_frame (b : Bridge) (results : loc) e_shift coupling
    (strategy : Optimizer Mole) :
  forall w o w',
    drive (e_g_partial X b results e_shift coupling) (fun _ => ret tt) strategy w
    = (o, w') ->
    forall l, l <> results -> results_at w' l = results_at w l.
Proof.
  induction strategy as [| e | q k IH | f k IH | out err k IH | m k IH];
    intros w o w' Hrun l Hl; simpl in Hrun.
  - inversion Hrun; subst. reflexivity.
  - inversion Hrun; subst. reflexivity.
  - bind_inv Hrun.
    + rewrite (IH _ _ _ _ Hrun l Hl). eapply bridge_frame; eassumption.
    + eapply bridge_frame; eassumption.
  - bind_inv Hrun; [| inversion Hrun]. inversion Hc; subst.
    apply (IH _ _ _ Hrun l Hl).
  - bind_inv Hrun; [| inversion Hrun]. inversion Hc; subst.
    apply (IH _ _ _ Hrun l Hl).
  - bind_inv Hrun; [| inversion Hrun]. inversion Hc; subst.
    apply (IH _ _ _ Hrun l Hl).
Qed.

Lemma pyscf_optimize_frame (b : Bridge) (results : loc) e_shift coupling
    pyscf_solver mole maxsteps callback conv_params w o w' :
  pyscf_optimize X pyscf_solver
    (as_pyscf_method mole (e_g_partial X b results e_shift coupling))
    maxsteps callback conv_params w = (o, w') ->
  forall l, l <> results -> results_at w' l = results_at w l.
Proof.
  intros Hrun l Hl. unfold pyscf_optimize, as_pyscf_method in Hrun.
  simpl in Hrun. unfold bind at 1 in Hrun. unfold lift in Hrun.
  destruct pyscf_solver;
    rewrite (bind_Return _ _ _ _ _ (log_run _ _)) in Hrun;
    apply (drive_bridge_frame _ _ _ _ _ _ _ _ Hrun l Hl).
Qed.

(** The block of a driver, whatever its outcome. *)
Lemma driver_block_run (b : Bridge) (results : loc) e_shift coupling solver
    mole maxsteps callback conv_params w0 o w' r0 :
  driver_block X b results e_shift coupling solver mole maxsteps callback
    conv_params w0 = (o, w') ->
  results_at w0 results = Some r0 ->
  sys_stdout w' = sys_stdout w0 /\ sys_stderr w' = sys_stderr w0 /\
  (forall l, l <> results -> results_at w' l = results_at w0 l) /\
  (forall l,
     o = Return l ->
     exists pyscf_solver w1 r1,
       select_solver solver = Some pyscf_solver /\
       pyscf_optimize X pyscf_solver
         (as_pyscf_method mole (e_g_partial X b results e_shift coupling))
         maxsteps callback conv_params (set_streams "" "" w0)
       = (Return tt, w1) /\
       results_at w1 results = Some r1 /\ extends r0 r1 /\
       l = results /\
       w' = mkWorld (fs w1)
              (<[results :=
                   PyOptResults
                     (set_stderr (sys_stderr w1)
                        (set_stdout (sys_stdout w1) r1))]> (heap w1))
              (trace w1) (sys_stdout w0) (sys_stderr w0)).
Proof.
  intros Hrun Hr. unfold driver_block in Hrun.
  unfold bind at 1 in Hrun. unfold with_redirect in Hrun.
  set (w00 := set_streams "" "" w0) in *.
  assert (Hr00 : results_at w00 results = Some r0) by exact Hr.
  destruct (select_solver solver) as [pyscf_solver |].
  2:{ unfold raise in Hrun. inversion Hrun; subst. simpl.
      repeat split; try reflexivity. intros l Hl. discriminate. }
  destruct (pyscf_optimize X pyscf_solver _ maxsteps callback conv_params w00)
    as [[[] | e] w1] eqn:Hopt.
  2:{ inversion Hrun; subst. simpl. split; [reflexivity |].
      split; [reflexivity |]. split; [| intros l Hl; discriminate].
      intros l Hl. apply (pyscf_optimize_frame _ _ _ _ _ _ _ _ _ _ _ _ Hopt l Hl). }
  pose proof (pyscf_optimize_frame _ _ _ _ _ _ _ _ _ _ _ _ Hopt) as Hframe.
  destruct (pyscf_optimize_grows _ _ _ _ _ _ _ _ _ _ _ _ Hopt Hr00)
    as (r1 & evs & _ & Hr1 & Hext & _).
  unfold bind in Hrun. rewrite !update_results_run in Hrun. simpl in Hrun.
  pose proof Hr1 as Hobj. unfold results_at in Hobj.
  destruct (heap w1 !! results) as [[r1'| | | | | | |]|] eqn:Hh; try discriminate.
  inversion Hobj; subst r1'; clear Hobj.
  rewrite update_results_run in Hrun. simpl in Hrun.
  rewrite lookup_insert_eq in Hrun. inversion Hrun; subst o w'; clear Hrun.
  simpl. split; [reflexivity |]. split; [reflexivity |]. split.
  - intros l Hl. transitivity (results_at w1 l); [| exact (Hframe l Hl)].
    unfold results_at. simpl.
    rewrite !lookup_insert_ne by congruence. reflexivity.
  - intros l Hl. inversion Hl; subst l.
    exists pyscf_solver, w1, r1. split; [reflexivity |].
    split; [exact Hopt |]. split; [exact Hr1 |]. split; [exact Hext |].
    split; [reflexivity |]. rewrite insert_insert_eq. reflexivity.
Qed.

(** A driver is a set-up of the working directory, a new accumulator, the
    molecule, and the block. *)
Lemma driver_run {T : Type} (setup : M T) (mk_bridge : T -> Bridge) elements
    coordinates e_shift coupling solver maxsteps callback conv_params w o w' :
  (forall w o1 w1,
     setup w = (o1, w1) ->
     heap w1 = heap w /\ trace w1 = trace w /\
     sys_stdout w1 = sys_stdout w /\ sys_stderr w1 = sys_stderr w) ->
  bind setup
    (fun path' =>
       bind (alloc (PyOptResults OptResults_new))
         (fun results =>
            bind (get_pyscf_mole X elements coordinates)
              (fun mole =>
                 driver_block X (mk_bridge path') results e_shift coupling
                   solver mole maxsteps callback conv_params))) w = (o, w') ->
  (exists e, o = Raise e /\ setup w = (Raise e, w')) \/
  exists path' w1,
    setup w = (Return path', w1) /\
    let results := fresh (dom (heap w)) in
    let w0 := block_entry w (fs w1) results in
    (is_Return o = false /\ w' = w0) \/
    exists mole,
      get_pyscf_mole X elements coordinates w0 = (Return mole, w0) /\
      driver_block X (mk_bridge path') results e_shift coupling solver mole
        maxsteps callback conv_params w0 = (o, w').
Proof.
  intros Hsetup Hrun. bind_inv Hrun; [| left; eauto].
  right. exists a, w0. split; [exact Hc |].
  destruct (Hsetup _ _ _ Hc) as (Hh & Ht & Hso & Hse). cbv zeta.
  bind_inv Hrun; [| inversion Hrun].
  assert (Hw1 : w1 = block_entry w (fs w0) (fresh (dom (heap w))) /\
                a0 = fresh (dom (heap w))).
  { unfold alloc in Hc0. inversion Hc0; subst. rewrite Hh.
    split; [| reflexivity]. unfold block_entry, set_heap.
    rewrite Ht, Hso, Hse. reflexivity. }
  destruct Hw1 as [-> ->]. clear Hc0.
  destruct (get_pyscf_mole_pure elements coordinates) as [omol Hmol].
  bind_inv Hrun.
  - right. rewrite Hmol in Hc0. inversion Hc0; subst.
    eexists. split; [apply Hmol | exact Hrun].
  - left. rewrite Hmol in Hrun. inversion Hrun; subst. split; reflexivity.
Qed.

Lemma on_fs_streams (f : FS -> Outcome FS) w o w' :
  on_fs f w = (o, w') ->
  heap w' = heap w /\ trace w' = trace w /\
  sys_stdout w' = sys_stdout w /\ sys_stderr w' = sys_stderr w.
Proof.
  unfold on_fs. destruct (f (fs w)); intros Hrun; inversion Hrun; subst;
    repeat split.
Qed.

(** What a driver has when it comes out of [driver_run]. *)
Lemma driver_facts {T : Type} (setup : M T) (mk_bridge : T -> Bridge) elements
    coordinates e_shift coupling solver maxsteps callback conv_params w o w' :
  (forall w o1 w1,
     setup w = (o1, w1) ->
     heap w1 = heap w /\ trace w1 = trace w /\
     sys_stdout w1 = sys_stdout w /\ sys_stderr w1 = sys_stderr w) ->
  bind setup
    (fun path' =>
       bind (alloc (PyOptResults OptResults_new))
         (fun results =>
            bind (get_pyscf_mole X elements coordinates)
              (fun mole =>
                 driver_block X (mk_bridge path') results e_shift coupling
                   solver mole maxsteps callback conv_params))) w = (o, w') ->
  sys_stdout w' = sys_stdout w /\ sys_stderr w' = sys_stderr w /\
  forall results,
    o = Return results ->
    heap w !! results = None /\
    (forall l r, results_at w l = Some r -> results_at w' l = Some r) /\
    (exists r evs,
       trace w' = trace w ++ evs /\ results_at w' results = Some r /\
       sizes r = replicate 6 (bridge_invocations evs)) /\
    exists path' w1 mole pyscf_solver w2 r1,
      setup w = (Return path', w1) /\
      get_pyscf_mole X elements coordinates w = (Return mole, w) /\
      select_solver solver = Some pyscf_solver /\
      pyscf_optimize X pyscf_solver
        (as_pyscf_method mole
           (e_g_partial X (mk_bridge path') results e_shift coupling))
        maxsteps callback conv_params
        (set_streams "" "" (block_entry w (fs w1) results)) = (Return tt, w2) /\
      results_at w2 results = Some r1 /\
      results_at w' results =
        Some (set_stderr (sys_stderr w2) (set_stdout (sys_stdout w2) r1)).
Proof.
  intros Hsetup Hrun.
  apply driver_run in Hrun; [| exact Hsetup].
  destruct Hrun as [(e & -> & Hfail) | (path' & w1 & Hset & Hrest)].
  { destruct (Hsetup _ _ _ Hfail) as (_ & _ & Hso & Hse).
    split; [exact Hso |]. split; [exact Hse |]. intros results Heq.
    discriminate. }
  cbv zeta in Hrest.
  set (results := fresh (dom (heap w))) in *.
  set (w0 := block_entry w (fs w1) results) in *.
  assert (Hnew : heap w !! results = None)
    by (apply not_elem_of_dom, is_fresh).
  assert (Hr0 : results_at w0 results = Some OptResults_new).
  { unfold results_at, w0, block_entry. simpl. rewrite lookup_insert_eq.
    reflexivity. }
  destruct Hrest as [[Ho ->] | (mole & Hmol & Hblock)].
  { split; [reflexivity |]. split; [reflexivity |]. intros l ->. discriminate. }
  destruct (driver_block_run _ _ _ _ _ _ _ _ _ _ _ _ _ Hblock Hr0)
    as (Hso & Hse & Hframe & Hret).
  split; [exact Hso |]. split; [exact Hse |]. intros l ->.
  destruct (Hret _ eq_refl)
    as (pyscf_solver & w2 & r1 & Hsel & Hopt & Hr1 & _ & -> & Hw').
  split; [exact Hnew |]. split; [| split].
  - intros l r Hl.
    assert (Hne : l <> results).
    { intros ->. unfold results_at in Hl. rewrite Hnew in Hl. discriminate. }
    rewrite (Hframe l Hne). unfold results_at, w0, block_entry. simpl.
    rewrite lookup_insert_ne by congruence. exact Hl.
  - unfold driver_block in Hblock.
    apply driver_end_grows in Hblock as (_ & r & evs & Ht & Hr & Hsizes);
      [| exact Hr0].
    exists r, evs. split; [exact Ht |]. split; assumption.
  - exists path', w1, mole, pyscf_solver, w2, r1.
    split; [exact Hset |]. split.
    { destruct (get_pyscf_mole_pure elements coordinates) as [omol Hpure].
      rewrite Hpure in Hmol. inversion Hmol; subst omol. apply Hpure. }
    split; [exact Hsel |]. split; [exact Hopt |]. split; [exact Hr1 |].
    rewrite Hw'. unfold results_at. simpl. rewrite lookup_insert_eq.
    reflexivity.
Qed.

Lemma mkdir_setup_quiet {T : Type} (f : FS -> Outcome FS) (x : T) w o1 w1 :
  bind (on_fs f) (fun _ => ret x) w = (o1, w1) ->
  heap w1 = heap w /\ trace w1 = trace w /\
  sys_stdout w1 = sys_stdout w /\ sys_stderr w1 = sys_stderr w.
Proof.
  intros Hrun. bind_inv Hrun.
  - inversion Hrun; subst. eapply on_fs_streams. exact Hc.
  - eapply on_fs_streams. exact Hrun.
Qed.

Lemma ret_setup_quiet {T : Type} (x : T) w o1 w1 :
  ret x w = (o1, w1) ->
  heap w1 = heap w /\ trace w1 = trace w /\
  sys_stdout w1 = sys_stdout w /\ sys_stderr w1 = sys_stderr w.
Proof. intros Hrun. inversion Hrun; subst. repeat split. Qed.

(** Whatever happens in a driver that redirects the output of the
    optimiser, [sys.stdout] and [sys.stderr] are afterwards what they were
    before: the streams are put back when the block is left, by an
    exception as well, and nothing outside the block writes. *)
Theorem drivers_restore_streams :
  (forall elements coordinates topologies keywords xcontrol_keywords e_shift
          coupling maxsteps callback conv_params solver path w o w',
     ts_from_gfnff X elements coordinates topologies keywords
       xcontrol_keywords e_shift coupling maxsteps callback conv_params solver
       path w = (o, w') ->
     sys_stdout w' = sys_stdout w /\ sys_stderr w' = sys_stderr w) /\
  (forall elements coordinates calculators e_shift coupling maxsteps callback
          conv_params solver path w o w',
     ts_from_gfnff_python X elements coordinates calculators e_shift coupling
       maxsteps callback conv_params solver path w = (o, w') ->
     sys_stdout w' = sys_stdout w /\ sys_stderr w' = sys_stderr w) /\
  (forall elements coordinates topologies keywords xcontrol_keywords e_shift
          coupling maxsteps callback conv_params solver path w o w',
     ts_from_gfnff_ci X elements coordinates topologies keywords
       xcontrol_keywords e_shift coupling maxsteps callback conv_params solver
       path w = (o, w') ->
     sys_stdout w' = sys_stdout w /\ sys_stderr w' = sys_stderr w).
Proof.
  split; [| split].
  - intros elements coordinates topologies keywords xcontrol_keywords e_shift
      coupling maxsteps callback conv_params solver path w o w' Hrun.
    unfold ts_from_gfnff in Hrun. cbv zeta in Hrun.
    apply (driver_facts _
             (fun path' =>
                BridgeXtb topologies
                  (Some (base.elements
                           (normalize_keywords X keywords ∪ {["--gfnff"]})))
                  xcontrol_keywords path')) in Hrun
      as (Hso & Hse & _); [split; assumption |].
    intros w0 o1 w1. destruct path as [p |]; [destruct (path_truthy _) |];
      first [apply mkdir_setup_quiet | apply ret_setup_quiet].
  - intros elements coordinates calculators e_shift coupling maxsteps callback
      conv_params solver path w o w' Hrun.
    unfold ts_from_gfnff_python in Hrun. cbv zeta in Hrun.
    apply (driver_facts _
             (fun path' => BridgePython calculators (Some (PathObj path'))))
      in Hrun as (Hso & Hse & _); [split; assumption |].
    intros w0 o1 w1. destruct path as [p |];
      first [apply mkdir_setup_quiet | apply ret_setup_quiet].
  - intros elements coordinates topologies keywords xcontrol_keywords e_shift
      coupling maxsteps callback conv_params solver path w o w' Hrun.
    unfold ts_from_gfnff_ci in Hrun. cbv zeta in Hrun.
    apply (driver_facts _
             (fun path' =>
                BridgeXtb topologies
                  (Some (base.elements
                           (normalize_keywords X keywords ∪ {["--gfnff"]})))
                  xcontrol_keywords path')) in Hrun
      as (Hso & Hse & _); [split; assumption |].
    intros w0 o1 w1. destruct path as [p |]; [destruct (path_truthy _) |];
      first [apply mkdir_setup_quiet | apply ret_setup_quiet].
Qed.

(** The accumulator a driver returns is an object of its own: its
    reference was not in use before the call, and every accumulator that
    existed before the call holds after it what it held before it. *)
Theorem drivers_return_new_accumulator :
  (forall elements coordinates topologies keywords xcontrol_keywords e_shift
          coupling maxsteps callback conv_params solver path w
          (results : loc) w',
     ts_from_gfnff X elements coordinates topologies keywords
       xcontrol_keywords e_shift coupling maxsteps callback conv_params solver
       path w = (Return results, w') ->
     heap w !! results = None /\
     forall l r, results_at w l = Some r -> results_at w' l = Some r) /\
  (forall elements coordinates calculators e_shift coupling maxsteps callback
          conv_params solver path w (results : loc) w',
     ts_from_gfnff_python X elements coordinates calculators e_shift coupling
       maxsteps callback conv_params solver path w = (Return results, w') ->
     heap w !! results = None /\
     forall l r, results_at w l = Some r -> results_at w' l = Some r) /\
  (forall elements coordinates topologies keywords xcontrol_keywords e_shift
          coupling maxsteps callback conv_params solver path w
          (results : loc) w',
     ts_from_gfnff_ci X elements coordinates topologies keywords
       xcontrol_keywords e_shift coupling maxsteps callback conv_params solver
       path w = (Return results, w') ->
     heap w !! results = None /\
     forall l r, results_at w l = Some r -> results_at w' l = Some r).
Proof.
  split; [| split].
  - intros elements coordinates topologies keywords xcontrol_keywords e_shift
      coupling maxsteps callback conv_params solver path w results w' Hrun.
    unfold ts_from_gfnff in Hrun. cbv zeta in Hrun.
    apply (driver_facts _
             (fun path' =>
                BridgeXtb topologies
                  (Some (base.elements
                           (normalize_keywords X keywords ∪ {["--gfnff"]})))
                  xcontrol_keywords path')) in Hrun as (_ & _ & Hret).
    + destruct (Hret _ eq_refl) as (Hnew & Hframe & _). split; assumption.
    + intros w0 o1 w1. destruct path as [p |]; [destruct (path_truthy _) |];
        first [apply mkdir_setup_quiet | apply ret_setup_quiet].
  - intros elements coordinates calculators e_shift coupling maxsteps callback
      conv_params solver path w results w' Hrun.
    unfold ts_from_gfnff_python in Hrun. cbv zeta in Hrun.
    apply (driver_facts _
             (fun path' => BridgePython calculators (Some (PathObj path'))))
      in Hrun as (_ & _ & Hret).
    + destruct (Hret _ eq_refl) as (Hnew & Hframe & _). split; assumption.
    + intros w0 o1 w1. destruct path as [p |];
        first [apply mkdir_setup_quiet | apply ret_setup_quiet].
  - intros elements coordinates topologies keywords xcontrol_keywords e_shift
      coupling maxsteps callback conv_params solver path w results w' Hrun.
    unfold ts_from_gfnff_ci in Hrun. cbv zeta in Hrun.
    apply (driver_facts _
             (fun path' =>
                BridgeXtb topologies
                  (Some (base.elements
                           (normalize_keywords X keywords ∪ {["--gfnff"]})))
                  xcontrol_keywords path')) in Hrun as (_ & _ & Hret).
    + destruct (Hret _ eq_refl) as (Hnew & Hframe & _). split; assumption.
    + intros w0 o1 w1. destruct path as [p |]; [destruct (path_truthy _) |];
        first [apply mkdir_setup_quiet | apply ret_setup_quiet].
Qed.

(** When [ts_from_gfnff_python] or [ts_from_gfnff_ci] returns, the six
    lists of the accumulator it returns have one entry for each invocation
    of the bridge that the optimiser made. *)
Theorem drivers_record_every_invocation :
  (forall elements coordinates calculators e_shift coupling maxsteps callback
          conv_params solver path w (results : loc) w',
     ts_from_gfnff_python X elements coordinates calculators e_shift coupling
       maxsteps callback conv_params solver path w = (Return results, w') ->
     exists r evs,
       trace w' = trace w ++ evs /\ results_at w' results = Some r /\
       sizes r = replicate 6 (bridge_invocations evs)) /\
  (forall elements coordinates topologies keywords xcontrol_keywords e_shift
          coupling maxsteps callback conv_params solver path w
          (results : loc) w',
     ts_from_gfnff_ci X elements coordinates topologies keywords
       xcontrol_keywords e_shift coupling maxsteps callback conv_params solver
       path w = (Return results, w') ->
     exists r evs,
       trace w' = trace w ++ evs /\ results_at w' results = Some r /\
       sizes r = replicate 6 (bridge_invocations evs)).
Proof.
  split.
  - intros elements coordinates calculators e_shift coupling maxsteps callback
      conv_params solver path w results w' Hrun.
    unfold ts_from_gfnff_python in Hrun. cbv zeta in Hrun.
    apply (driver_facts _
             (fun path' => BridgePython calculators (Some (PathObj path'))))
      in Hrun as (_ & _ & Hret).
    + destruct (Hret _ eq_refl) as (_ & _ & Hcount & _). exact Hcount.
    + intros w0 o1 w1. destruct path as [p |];
        first [apply mkdir_setup_quiet | apply ret_setup_quiet].
  - intros elements coordinates topologies keywords xcontrol_keywords e_shift
      coupling maxsteps callback conv_params solver path w results w' Hrun.
    unfold ts_from_gfnff_ci in Hrun. cbv zeta in Hrun.
    apply (driver_facts _
             (fun path' =>
                BridgeXtb topologies
                  (Some (base.elements
                           (normalize_keywords X keywords ∪ {["--gfnff"]})))
                  xcontrol_keywords path')) in Hrun as (_ & _ & Hret).
    + destruct (Hret _ eq_refl) as (_ & _ & Hcount & _). exact Hcount.
    + intros w0 o1 w1. destruct path as [p |]; [destruct (path_truthy _) |];
        first [apply mkdir_setup_quiet | apply ret_setup_quiet].
Qed.

(** What [ts_from_gfnff] returns holds the output of the optimiser.  The
    run of the optimiser starts with a new, empty accumulator and two
    empty buffers in place of the streams; the [stdout] and [stderr] of
    the accumulator returned are what the run left in the two buffers, and
    its six lists are as the run left them. *)
Theorem ts_from_gfnff_captures_output elements coordinates topologies keywords
    xcontrol_keywords e_shift coupling maxsteps callback conv_params solver
    path w (results : loc) w' :
  ts_from_gfnff X elements coordinates topologies keywords xcontrol_keywords
    e_shift coupling maxsteps callback conv_params solver path w
  = (Return results, w') ->
  exists f0 path' mole pyscf_solver w2 r1,
    (path_truthy path = false /\ f0 = fs w /\ path' = path \/
     exists p,
       path = Some p /\ path_truthy path = true /\
       mkdir_exist_ok (Path_of X p) (fs w) = Return f0 /\
       path' = Some (PathObj (Path_of X p))) /\
    get_pyscf_mole X elements coordinates w = (Return mole, w) /\
    select_solver solver = Some pyscf_solver /\
    pyscf_optimize X pyscf_solver
      (as_pyscf_method mole
         (fun mol =>
            e_g_function X mol topologies results
              (Some (base.elements
                       (normalize_keywords X keywords ∪ {["--gfnff"]})))
              xcontrol_keywords e_shift coupling path'))
      maxsteps callback (default ∅ conv_params)
      (set_streams "" "" (block_entry w f0 results)) = (Return tt, w2) /\
    results_at w2 results = Some r1 /\
    results_at w' results =
      Some (set_stderr (sys_stderr w2) (set_stdout (sys_stdout w2) r1)).
Proof.
  intros Hrun. unfold ts_from_gfnff in Hrun. cbv zeta in Hrun.
  apply (driver_facts _
           (fun path' =>
              BridgeXtb topologies
                (Some (base.elements
                         (normalize_keywords X keywords ∪ {["--gfnff"]})))
                xcontrol_keywords path')) in Hrun as (_ & _ & Hret).
  2:{ intros w0 o1 w1. destruct path as [p |]; [destruct (path_truthy _) |];
        first [apply mkdir_setup_quiet | apply ret_setup_quiet]. }
  destruct (Hret _ eq_refl)
    as (_ & _ & _ & path' & w1 & mole & pyscf_solver & w2 & r1
        & Hset & Hmol & Hsel & Hopt & Hr1 & Hr').
  exists (fs w1), path', mole, pyscf_solver, w2, r1.
  split; [| split; [exact Hmol |]; split; [exact Hsel |];
            split; [exact Hopt |]; split; [exact Hr1 | exact Hr']].
  destruct path as [p |].
  - destruct (path_truthy (Some p)) eqn:Htruthy.
    + right. exists p. split; [reflexivity |]. split; [reflexivity |].
      bind_inv Hset. inversion Hset; subst.
      apply on_fs_run in Hc as (_ & _ & Hfs).
      destruct (mkdir_exist_ok (Path_of X p) (fs w)) as [f' |];
        destruct Hfs as [Hfs Ho]; [| discriminate].
      rewrite Hfs. split; reflexivity.
    + left. inversion Hset; subst. repeat split.
  - left. inversion Hset; subst. repeat split.
Qed.

(** ** The start of the intersection search *)

Lemma for_each_app {A S} (body : A -> S -> M S) (l1 l2 : list A) s w :
  for_each (l1 ++ l2) body s w =
  bind (for_each l1 body s) (fun s' => for_each l2 body s') w.
Proof.
  revert s w. induction l1 as [| x l1 IH]; intros s w; simpl; [reflexivity |].
  unfold bind. destruct (body x s w) as [[s1 | e] w1]; [| reflexivity].
  rewrite IH. reflexivity.
Qed.

(** [as_scanner()] makes one new object, the scanner. *)
Lemma as_scanner_run (gr : Gradients) w :
  exists self,
    heap w !! self = None /\
    as_scanner gr w =
    (Return (mkGScanner (grad_scan gr) (grad_mol gr) self),
     set_heap (<[self := PyGradScanner (grad_atmlst gr)]> (heap w)) w).
Proof.
  destruct (alloc_fresh (PyGradScanner (grad_atmlst gr)) w)
    as (self & Halloc & Hnew).
  exists self. split; [exact Hnew |]. unfold as_scanner.
  rewrite (bind_Return _ _ _ _ _ Halloc). reflexivity.
Qed.

(** One pass of the loop over [methods], for a method with gradients: its
    scanner is collected; the files, the trace and the streams are left
    alone; an object that was there is as it was, unless it is the
    method itself, a scanner, and the ghost atoms are left out; and then
    the scanner has its [atmlst]. *)
Lemma collect_scanner_run include_ghost method acc w :
  has_gradients method = true ->
  exists g w',
    collect_scanner X include_ghost method acc w = (Return (acc ++ [g]), w') /\
    scanner_for method g /\
    fs w' = fs w /\ trace w' = trace w /\
    sys_stdout w' = sys_stdout w /\ sys_stderr w' = sys_stderr w /\
    (forall l, heap w !! l <> None -> heap w' !! l <> None) /\
    (forall l,
       l ∉ own_scanners [method] \/ include_ghost = true ->
       heap w !! l <> None -> heap w' !! l = heap w !! l) /\
    (include_ghost = false ->
     heap w' !! scanner_self g = Some (PyGradScanner (Some (real_atoms X method)))) /\
    (forall l,
       heap w' !! l = heap w !! l \/ exists a, heap w' !! l = Some (PyGradScanner a)).
Proof.
  intros Hm. unfold collect_scanner.
  assert (Hput : forall g w1,
            (if negb include_ghost
             then set_atmlst g (real_atoms X method)
             else ret tt) w1 =
            (Return tt,
             if negb include_ghost
             then set_heap (<[scanner_self g :=
                                PyGradScanner (Some (real_atoms X method))]>
                              (heap w1)) w1
             else w1)).
  { intros g w1. destruct include_ghost; reflexivity. }
  destruct method as [g | gr | gr | descr mol]; try discriminate; simpl.
  - rewrite (bind_Return _ _ _ _ _ (eq_refl : ret g w = (Return g, w))).
    fold (real_atoms X (MGradScanner g)).
    rewrite (bind_Return _ _ _ _ _ (Hput g w)).
    eexists g, _. split; [reflexivity |]. split; [reflexivity |].
    destruct include_ghost; simpl.
    + repeat split; auto. intros Heq. discriminate.
    + repeat split; auto.
      * intros l Hl. destruct (decide (scanner_self g = l)) as [<- | Hne].
        -- rewrite lookup_insert_eq. discriminate.
        -- rewrite lookup_insert_ne by assumption. exact Hl.
      * intros l [Hl | Hl] _; [| discriminate].
        apply lookup_insert_ne. intros <-. apply Hl. constructor.
      * intros _. apply lookup_insert_eq.
      * intros l. destruct (decide (scanner_self g = l)) as [<- | Hne].
        -- right. rewrite lookup_insert_eq. eauto.
        -- left. apply lookup_insert_ne. assumption.
  - destruct (as_scanner_run gr w) as (self & Hnew & Hscan).
    rewrite (bind_Return _ _ _ _ _ Hscan).
    fold (real_atoms X (MGradientsMixin gr)).
    rewrite (bind_Return _ _ _ _ _ (Hput _ _)).
    eexists _, _. split; [reflexivity |]. split; [split; reflexivity |].
    assert (Hkeep : forall l, heap w !! l <> None -> self <> l)
      by (intros l Hl <-; contradiction).
    destruct include_ghost; simpl.
    + repeat split; auto.
      * intros l Hl. rewrite lookup_insert_ne by auto. exact Hl.
      * intros l _ Hl. apply lookup_insert_ne. auto.
      * intros Heq. discriminate.
      * intros l. destruct (decide (self = l)) as [<- | Hne].
        -- right. rewrite lookup_insert_eq. eauto.
        -- left. apply lookup_insert_ne. assumption.
    + repeat split; auto.
      * intros l Hl. rewrite !lookup_insert_ne by auto. exact Hl.
      * intros l _ Hl. rewrite !lookup_insert_ne by auto. reflexivity.
      * intros _. apply lookup_insert_eq.
      * intros l. destruct (decide (self = l)) as [<- | Hne].
        -- right. rewrite lookup_insert_eq. eauto.
        -- left. rewrite !lookup_insert_ne by assumption. reflexivity.
  - destruct (as_scanner_run gr w) as (self & Hnew & Hscan).
    rewrite (bind_Return _ _ _ _ _ Hscan).
    fold (real_atoms X (MNucGradMethod gr)).
    rewrite (bind_Return _ _ _ _ _ (Hput _ _)).
    eexists _, _. split; [reflexivity |]. split; [split; reflexivity |].
    assert (Hkeep : forall l, heap w !! l <> None -> self <> l)
      by (intros l Hl <-; contradiction).
    destruct include_ghost; simpl.
    + repeat split; auto.
      * intros l Hl. rewrite lookup_insert_ne by auto. exact Hl.
      * intros l _ Hl. apply lookup_insert_ne. auto.
      * intros Heq. discriminate.
      * intros l. destruct (decide (self = l)) as [<- | Hne].
        -- right. rewrite lookup_insert_eq. eauto.
        -- left. apply lookup_insert_ne. assumption.
    + repeat split; auto.
      * intros l Hl. rewrite !lookup_insert_ne by auto. exact Hl.
      * intros l _ Hl. rewrite !lookup_insert_ne by auto. reflexivity.
      * intros _. apply lookup_insert_eq.
      * intros l. destruct (decide (self = l)) as [<- | Hne].
        -- right. rewrite lookup_insert_eq. eauto.
        -- left. rewrite !lookup_insert_ne by assumption. reflexivity.
Qed.

Lemma own_scanners_cons method methods :
  own_scanners (method :: methods) = own_scanners [method] ++ own_scanners methods.
Proof. unfold own_scanners. simpl. destruct method; reflexivity. Qed.

Lemma own_scanners_elem g methods :
  MGradScanner g ∈ methods -> scanner_self g ∈ own_scanners methods.
Proof.
  intros Hin. unfold own_scanners. apply list_elem_of_omap.
  exists (MGradScanner g). split; [exact Hin | reflexivity].
Qed.

(** The loop over [methods], when every method has gradients: it returns
    a scanner for each method, in their order, and leaves the files, the
    trace and the streams alone.  An object that was there is as it was,
    unless it is one of the caller's scanners and the ghost atoms are left
    out; then each of these scanners, if they are different objects, has
    been given its [atmlst]. *)
Lemma collect_scanners_run include_ghost (methods : list Method) :
  Forall (fun m => has_gradients m = true) methods ->
  forall acc w,
    exists new w',
      for_each methods (collect_scanner X include_ghost) acc w
      = (Return (acc ++ new), w') /\
      Forall2 scanner_for methods new /\
      fs w' = fs w /\ trace w' = trace w /\
      sys_stdout w' = sys_stdout w /\ sys_stderr w' = sys_stderr w /\
      (forall l, heap w !! l <> None -> heap w' !! l <> None) /\
      (forall l,
         l ∉ own_scanners methods \/ include_ghost = true ->
         heap w !! l <> None -> heap w' !! l = heap w !! l) /\
      (include_ghost = false -> NoDup (own_scanners methods) ->
       forall g,
         MGradScanner g ∈ methods ->
         heap w' !! scanner_self g =
         Some (PyGradScanner (Some (real_atoms X (MGradScanner g))))) /\
      (forall l,
         heap w' !! l = heap w !! l \/
         exists a, heap w' !! l = Some (PyGradScanner a)).
Proof.
  induction 1 as [| m methods Hm _ IH]; intros acc w.
  - exists [], w. rewrite app_nil_r.
    split; [reflexivity |]. split; [constructor |].
    repeat split; auto. intros _ _ g Hin. inversion Hin.
  - destruct (collect_scanner_run include_ghost m acc w Hm)
      as (g & w1 & Hstep & Hfor & Hfs1 & Ht1 & Hso1 & Hse1 & Hdom1 & Hkeep1
          & Hset1 & Hdiff1).
    destruct (IH (acc ++ [g]) w1)
      as (new & w' & Hloop & Hall & Hfs & Ht & Hso & Hse & Hdom & Hkeep & Hset
          & Hdiff).
    exists (g :: new), w'. cbn [for_each]. rewrite (bind_Return _ _ _ _ _ Hstep).
    rewrite <- app_assoc in Hloop. split; [exact Hloop |].
    split; [constructor; assumption |].
    split; [rewrite Hfs; exact Hfs1 |]. split; [rewrite Ht; exact Ht1 |].
    split; [rewrite Hso; exact Hso1 |]. split; [rewrite Hse; exact Hse1 |].
    split; [intros l Hl; apply Hdom, Hdom1, Hl |].
    rewrite own_scanners_cons. split; [| split].
    3:{ intros l. destruct (Hdiff l) as [Heq | Hsc]; [| right; exact Hsc].
        rewrite Heq. apply Hdiff1. }
    + intros l Hl Hthere. rewrite Hkeep.
      * apply Hkeep1; [| exact Hthere].
        destruct Hl as [Hl | Hl]; [left | right; exact Hl].
        intros Hin. apply Hl. apply elem_of_app. left. exact Hin.
      * destruct Hl as [Hl | Hl]; [left | right; exact Hl].
        intros Hin. apply Hl. apply elem_of_app. right. exact Hin.
      * apply Hdom1, Hthere.
    + intros Hghost Hnd g0 Hin.
      apply NoDup_app in Hnd as (_ & Hdisj & Hnd).
      apply elem_of_cons in Hin as [<- | Hin]; [| apply Hset; assumption].
      simpl in Hfor. subst g.
      rewrite Hkeep.
      * apply Hset1. exact Hghost.
      * left. apply Hdisj. simpl. constructor.
      * rewrite (Hset1 Hghost). discriminate.
Qed.

(** A method without nuclear gradients stops [optimize_ci].  If the
    methods before it have gradients, the exception is the
    NotImplementedError that names the method, and no engine has been
    made, no temporary file and no call of the optimiser: the files, the
    trace and the streams are as they were, and the methods after it have
    not been looked at.  But the loop has been through the methods before
    it: when the ghost atoms are left out, each of the caller's scanners
    among them has been given its [atmlst] already; no other object that
    was there has changed, and what is new are the scanners the loop has
    made. *)
Theorem optimize_ci_needs_gradients before descr mol after assert_convergence
    include_ghost constraints callback maxsteps alpha sigma kwargs w :
  Forall (fun m => has_gradients m = true) before ->
  exists w',
    optimize_ci X (before ++ MOther descr mol :: after) assert_convergence
      include_ghost constraints callback maxsteps alpha sigma kwargs w =
    (Raise (NotImplementedError
              ("Nuclear gradients of " +:+ descr +:+ " not available")), w') /\
    fs w' = fs w /\ trace w' = trace w /\
    sys_stdout w' = sys_stdout w /\ sys_stderr w' = sys_stderr w /\
    (forall l,
       l ∉ own_scanners before \/ include_ghost = true ->
       heap w !! l <> None -> heap w' !! l = heap w !! l) /\
    (include_ghost = false -> NoDup (own_scanners before) ->
     forall g,
       MGradScanner g ∈ before ->
       heap w' !! scanner_self g =
       Some (PyGradScanner
               (Some (nonzero_indices (atom_charges X (scanner_mol g)))))) /\
    (forall l,
       heap w' !! l = heap w !! l \/
       exists a, heap w' !! l = Some (PyGradScanner a)).
Proof.
  intros Hbefore.
  destruct (collect_scanners_run include_ghost before Hbefore [] w)
    as (new & w' & Hloop & _ & Hfs & Ht & Hso & Hse & _ & Hkeep & Hset & Honly).
  exists w'. split.
  - unfold optimize_ci. unfold bind at 1. rewrite for_each_app.
    unfold bind at 1. rewrite Hloop. reflexivity.
  - repeat split; assumption.
Qed.

(** The intersection search needs two surfaces.  With fewer than two
    methods that have gradient scanners, [optimize_ci] raises IndexError
    when it builds the engines, before a temporary file exists and before
    the optimiser is called; with fewer than two calculators,
    [ts_from_gfnff_ci_python] raises before it reaches [optimize_ci], and
    the exception is IndexError when the directory can be made and the
    molecule built. *)
Theorem intersection_needs_two_surfaces :
  (forall methods assert_convergence include_ghost constraints callback
          maxsteps alpha sigma kwargs w o w',
     (length methods < 2)%nat ->
     Forall (fun m => has_gradients m = true) methods ->
     optimize_ci X methods assert_convergence include_ghost constraints
       callback maxsteps alpha sigma kwargs w = (o, w') ->
     o = Raise IndexError /\ fs w' = fs w /\ trace w' = trace w) /\
  (forall elements coordinates calculators e_shift maxsteps alpha sigma
          callback conv_params path w o w',
     (length calculators < 2)%nat ->
     ts_from_gfnff_ci_python X elements coordinates calculators e_shift
       maxsteps alpha sigma callback conv_params path w = (o, w') ->
     is_Return o = false /\ heap w' = heap w /\ trace w' = trace w /\
     ((forall p, path = Some p ->
                 is_Return (mkdir_parents_exist_ok (Path_of X p) (fs w)) = true) ->
      is_Return (get_pyscf_mole X elements coordinates w).1 = true ->
      o = Raise IndexError)).
Proof.
  split.
  - intros methods assert_convergence include_ghost constraints callback
      maxsteps alpha sigma kwargs w o w' Hlen Hall Hrun.
    unfold optimize_ci in Hrun.
    destruct (collect_scanners_run include_ghost methods Hall [] w)
      as (new & wl & Hloop & Hnew & Hfs & Ht & _).
    apply Forall2_length in Hnew.
    rewrite (bind_Return _ _ _ _ _ Hloop) in Hrun. simpl in Hrun.
    rewrite <- Hfs, <- Ht. clear Hloop Hfs Ht.
    unfold bind at 1 in Hrun. unfold bind at 1 in Hrun.
    unfold PySCFEngine_init at 1 in Hrun. unfold bind at 1 in Hrun.
    unfold lift at 1 in Hrun.
    destruct new as [| g [| g2 new]]; simpl in Hnew; [| | lia].
    + inversion Hrun; subst. repeat split.
    + simpl in Hrun. unfold alloc at 1 in Hrun.
      unfold bind at 1 in Hrun. unfold PySCFEngine_init at 1 in Hrun.
      unfold bind at 1 in Hrun. unfold lift at 1 in Hrun. simpl in Hrun.
      inversion Hrun; subst. repeat split.
  - intros elements coordinates calculators e_shift maxsteps alpha sigma
      callback conv_params path w o w' Hlen Hrun.
    unfold ts_from_gfnff_ci_python in Hrun. cbv zeta in Hrun.
    destruct (get_pyscf_mole_pure elements coordinates) as [omol Hmol].
    rewrite Hmol. simpl.
    bind_inv Hrun.
    2:{ assert (Hq : heap w' = heap w /\ trace w' = trace w /\
                     exists p, path = Some p /\
                       mkdir_parents_exist_ok (Path_of X p) (fs w) = Raise e).
        { destruct path as [p |]; [| inversion Hrun].
          bind_inv Hrun; [inversion Hrun |].
          apply on_fs_run in Hrun as (Hh & Ht & Hfs).
          split; [exact Hh |]. split; [exact Ht |]. exists p.
          split; [reflexivity |].
          destruct (mkdir_parents_exist_ok (Path_of X p) (fs w));
            destruct Hfs as [_ Ho]; congruence. }
        destruct Hq as (Hh & Ht & p & -> & Hmk).
        split; [reflexivity |]. split; [exact Hh |]. split; [exact Ht |].
        intros Hok. specialize (Hok p eq_refl). rewrite Hmk in Hok.
        discriminate. }
    assert (Hq : heap w0 = heap w /\ trace w0 = trace w).
    { destruct path as [p |]; [| inversion Hc; subst; split; reflexivity].
      bind_inv Hc. inversion Hc; subst.
      apply on_fs_run in Hc0 as (Hh & Ht & _). split; assumption. }
    destruct Hq as [Hh0 Ht0]. clear Hc.
    rewrite <- Hh0, <- Ht0.
    bind_inv Hrun.
    2:{ rewrite Hmol in Hrun. inversion Hrun; subst.
        repeat split. intros _ Hok. discriminate. }
    rewrite Hmol in Hc. inversion Hc; subst omol w1; clear Hc.
    unfold bind at 1 in Hrun. unfold lift at 1 in Hrun.
    destruct calculators as [| c0 [| c1 calculators]]; simpl in Hlen; [| | lia].
    + simpl in Hrun. inversion Hrun; subst. repeat split.
    + simpl in Hrun. unfold bind at 1 in Hrun. unfold lift at 1 in Hrun.
      simpl in Hrun. inversion Hrun; subst. repeat split.
Qed.

(** ** The wrapper as a list *)

(** A wrapper answers as the list it wraps, and reading it changes
    nothing: its length is the length of the list; an index from 0 to the
    length less one gives the engine at that place, and the same engine is
    at that index less the length; an index outside these raises
    IndexError. *)
Theorem EnginesWrapper_is_list_like (self engines : loc) items w :
  heap w !! self = Some (PyEnginesWrapper engines) ->
  heap w !! engines = Some (PyList items) ->
  EnginesWrapper_len self w = (Return (Z.of_nat (length items)), w) /\
  (forall key,
     0 <= key < Z.of_nat (length items) ->
     exists engine,
       items !! Z.to_nat key = Some engine /\
       EnginesWrapper_getitem self key w = (Return engine, w) /\
       EnginesWrapper_getitem self (key - Z.of_nat (length items)) w
       = (Return engine, w)) /\
  (forall key,
     key < - Z.of_nat (length items) \/ Z.of_nat (length items) <= key ->
     EnginesWrapper_getitem self key w = (Raise IndexError, w)).
Proof.
  intros Hself Hlist.
  assert (Hitems : EnginesWrapper_engines self w = (Return items, w)).
  { unfold EnginesWrapper_engines, bind, get_obj. rewrite Hself, Hlist.
    reflexivity. }
  split; [| split].
  - unfold EnginesWrapper_len. rewrite (bind_Return _ _ _ _ _ Hitems).
    reflexivity.
  - intros key Hkey.
    destruct (items !! Z.to_nat key) as [engine |] eqn:Hget.
    2:{ apply lookup_ge_None in Hget. lia. }
    exists engine. split; [reflexivity |].
    unfold EnginesWrapper_getitem. rewrite !(bind_Return _ _ _ _ _ Hitems).
    unfold lift, py_index. split.
    + destruct (key <? 0) eqn:Hneg; [apply Z.ltb_lt in Hneg; lia |].
      replace (key <? 0) with false by (symmetry; apply Z.ltb_ge; lia).
      replace (Z.of_nat (length items) <=? key) with false
        by (symmetry; apply Z.leb_gt; lia).
      simpl. rewrite Hget. reflexivity.
    + replace (key - Z.of_nat (length items) <? 0) with true
        by (symmetry; apply Z.ltb_lt; lia).
      replace (key - Z.of_nat (length items) + Z.of_nat (length items))
        with key by lia.
      replace (key <? 0) with false by (symmetry; apply Z.ltb_ge; lia).
      replace (Z.of_nat (length items) <=? key) with false
        by (symmetry; apply Z.leb_gt; lia).
      simpl. rewrite Hget. reflexivity.
  - intros key Hkey.
    unfold EnginesWrapper_getitem. rewrite (bind_Return _ _ _ _ _ Hitems).
    unfold lift, py_index.
    destruct (key <? 0) eqn:Hneg.
    + apply Z.ltb_lt in Hneg.
      replace (key + Z.of_nat (length items) <? 0) with true
        by (symmetry; apply Z.ltb_lt; lia).
      reflexivity.
    + apply Z.ltb_ge in Hneg.
      replace (Z.of_nat (length items) <=? key) with true
        by (symmetry; apply Z.leb_le; lia).
      rewrite orb_true_r. reflexivity.
Qed.

(** ** The intersection search records nothing *)

Lemma no_record_refl w : no_record w w.
Proof.
  split; [reflexivity |]. exists []. rewrite app_nil_r.
  split; [reflexivity | constructor].
Qed.

Lemma no_record_trans w w1 w2 :
  no_record w w1 -> no_record w1 w2 -> no_record w w2.
Proof.
  intros [Hr1 (evs1 & Ht1 & Hf1)] [Hr2 (evs2 & Ht2 & Hf2)]. split.
  - intros l. rewrite Hr2. apply Hr1.
  - exists (evs1 ++ evs2). split; [rewrite Ht2, Ht1, app_assoc; reflexivity |].
    apply Forall_app. split; assumption.
Qed.

(** A step that leaves the objects and the trace alone. *)
Lemma no_record_quiet w w' : quiet w w' -> no_record w w'.
Proof.
  intros [Hh Ht]. split; [apply results_at_heap, Hh |].
  exists []. rewrite app_nil_r. split; [exact Ht | constructor].
Qed.

Lemma silent_bind {A B} (c : M A) (k : A -> M B) :
  silent c -> (forall a, silent (k a)) -> silent (bind c k).
Proof.
  intros Hc Hk w o w' Hrun. bind_inv Hrun.
  - eapply no_record_trans; [eapply Hc | eapply Hk]; eassumption.
  - eapply Hc. eassumption.
Qed.

Lemma silent_ret {A} (a : A) : silent (ret a).
Proof. intros w o w' Hrun. inversion Hrun; subst. apply no_record_refl. Qed.

Lemma silent_lift {A} (o : Outcome A) : silent (lift o).
Proof. intros w o' w' Hrun. inversion Hrun; subst. apply no_record_refl. Qed.

Lemma silent_raise {A} (e : exn) : silent (raise e : M A).
Proof. intros w o w' Hrun. inversion Hrun; subst. apply no_record_refl. Qed.

Lemma silent_read {A} (f : World -> A) : silent (fun w => (Return (f w), w)).
Proof. intros w o w' Hrun. inversion Hrun; subst. apply no_record_refl. Qed.

Lemma silent_on_fs (f : FS -> Outcome FS) : silent (on_fs f).
Proof. intros w o w' Hrun. apply no_record_quiet. eapply on_fs_quiet, Hrun. Qed.

Lemma silent_get_obj l : silent (get_obj l).
Proof.
  intros w o w'. unfold get_obj. destruct (heap w !! l); intros Hrun;
    inversion Hrun; subst; apply no_record_refl.
Qed.

Lemma silent_log (ev : Event) : not_solver ev -> silent (log ev).
Proof.
  intros Hev w o w' Hrun. inversion Hrun; subst. split; [reflexivity |].
  exists [ev]. split; [reflexivity | repeat constructor; exact Hev].
Qed.

(** A new object that is not an accumulator. *)
Lemma silent_alloc (obj : pyobj) :
  (forall r, obj <> PyOptResults r) -> silent (alloc obj).
Proof.
  intros Hobj w o w' Hrun. destruct (alloc_fresh obj w) as (l & Halloc & Hnew).
  rewrite Halloc in Hrun. inversion Hrun; subst.
  split; [| exists []; rewrite app_nil_r; split; [reflexivity | constructor]].
  intros l'. unfold results_at. simpl.
  destruct (decide (l = l')) as [<- | Hne].
  - rewrite lookup_insert_eq, Hnew.
    destruct obj; try reflexivity. exfalso. eapply Hobj. reflexivity.
  - rewrite lookup_insert_ne by assumption. reflexivity.
Qed.

(** An object replaced by one of its kind, where the kind is not that of
    the accumulators. *)
Lemma no_record_replace w l (old new : pyobj) :
  heap w !! l = Some old ->
  (forall r, old <> PyOptResults r) -> (forall r, new <> PyOptResults r) ->
  no_record w (set_heap (<[l := new]> (heap w)) w).
Proof.
  intros Hold Ho Hn.
  split; [| exists []; rewrite app_nil_r; split; [reflexivity | constructor]].
  intros l'. unfold results_at. simpl.
  destruct (decide (l = l')) as [<- | Hne].
  - rewrite lookup_insert_eq, Hold.
    destruct new; try (exfalso; eapply Hn; reflexivity);
      destruct old; try (exfalso; eapply Ho; reflexivity); reflexivity.
  - rewrite lookup_insert_ne by assumption. reflexivity.
Qed.

Lemma silent_PySCFEngine_set_callback l cb :
  silent (PySCFEngine_set_callback l cb).
Proof.
  intros w o w'. unfold PySCFEngine_set_callback, bind, get_obj, put_obj, raise.
  destruct (heap w !! l) as [[| | | | | | |]|] eqn:Hobj; intros Hrun;
    inversion Hrun; subst; try apply no_record_refl.
  eapply no_record_replace; [exact Hobj | |]; intros r; discriminate.
Qed.

Lemma silent_update_engine l (f : CIEngine -> CIEngine) :
  silent (update_engine l f).
Proof.
  intros w o w'. unfold update_engine, bind, get_obj, put_obj, raise.
  destruct (heap w !! l) as [[| | | | | | |]|] eqn:Hobj; intros Hrun;
    inversion Hrun; subst; try apply no_record_refl.
  eapply no_record_replace; [exact Hobj | |]; intros r; discriminate.
Qed.

Lemma silent_for_each {A S} (body : A -> S -> M S) (items : list A) :
  (forall x s, silent (body x s)) -> forall s, silent (for_each items body s).
Proof.
  intros Hbody. induction items as [| x items IH]; intros s; simpl.
  - apply silent_ret.
  - apply silent_bind; [apply Hbody | exact IH].
Qed.

Lemma silent_try_except {A} (c : M A) (handler : exn -> option (M A)) :
  silent c -> (forall e h, handler e = Some h -> silent h) ->
  silent (try_except c handler).
Proof.
  intros Hc Hh w o w' Hrun.
  apply try_except_run in Hrun as (o1 & w1 & Hc1 & Hmatch).
  pose proof (Hc _ _ _ Hc1) as H1.
  destruct o1 as [a | e]; [destruct Hmatch as [_ ->]; exact H1 |].
  destruct (handler e) as [h |] eqn:Hhe.
  - eapply no_record_trans; [exact H1 |]. eapply Hh; eassumption.
  - destruct Hmatch as [_ ->]. exact H1.
Qed.

(** Builds a proof of [silent] by the structure of the computation. *)
Ltac silent_tac :=
  repeat first
    [ apply silent_ret
    | apply silent_lift
    | apply silent_raise
    | apply silent_get_obj
    | apply silent_on_fs
    | apply silent_PySCFEngine_set_callback
    | apply silent_update_engine
    | apply silent_alloc; intros ?; discriminate
    | apply silent_log; exact I
    | apply silent_bind; [| intros ?]
    | match goal with
      | |- silent (fun w => (Return _, w)) =>
          let Hr := fresh in
          intros ? ? ? Hr; inversion Hr; subst; apply no_record_refl
      | |- silent (match ?x with _ => _ end) => destruct x
      | |- silent (if ?x then _ else _) => destruct x
      end ].

Lemma silent_e_g_function_ci_python mol (calculator : loc) e_shift path :
  silent (e_g_function_ci_python X mol calculator e_shift path).
Proof.
  intros w o w' Hrun. split.
  - set (co := array_mul (atom_coords X mol) (BOHR_TO_ANGSTROM X)).
    unfold e_g_function_ci_python in Hrun.
    rewrite (bind_Return _ _ _ _ _ (log_run _ _)) in Hrun. cbv zeta in Hrun.
    set (w0 := add_event (EvBridge mol) w) in *.
    intros l. change (results_at w l) with (results_at w0 l).
    bind_inv Hrun.
    + apply calculator_set_coordinates_run in Hc as (evs1 & (Hr1 & _) & _).
      assert (Hsp : exists o2, calculator_sp X calculator w1 = (o2, w')).
      { unfold bind in Hrun.
        destruct (calculator_sp X calculator w1) as [[[energy gradient] | e] w2];
          inversion Hrun; subst; eauto. }
      destruct Hsp as [o2 Hsp].
      apply (calculator_sp_run _ co) in Hsp as (evs2 & (Hr2 & _) & _).
      rewrite Hr2. apply Hr1.
    + apply calculator_set_coordinates_run in Hrun as (evs1 & (Hr1 & _) & _).
      apply Hr1.
  - apply e_g_function_ci_python_trace in Hrun as (evs & Ht & Hf).
    exists (EvBridge mol :: evs). split; [exact Ht |].
    constructor; [exact I |]. eapply Forall_impl; [exact Hf |].
    intros ev. destruct ev; simpl; auto.
Qed.

Lemma silent_drive {Q} (eval : Q -> M (float * Array2D))
    (set_mol : Mole -> M unit) (strategy : Optimizer Q) :
  (forall q, silent (eval q)) -> (forall m, silent (set_mol m)) ->
  silent (drive eval set_mol strategy).
Proof.
  intros Heval Hset.
  induction strategy as [| e | q k IH | f k IH | out err k IH | m k IH]; simpl.
  - apply silent_ret.
  - apply silent_raise.
  - apply silent_bind; [apply Heval | exact IH].
  - apply silent_bind; [| intros _; exact IH].
    intros w o w' Hrun. inversion Hrun; subst. apply no_record_quiet.
    split; reflexivity.
  - apply silent_bind; [| intros _; exact IH].
    intros w o w' Hrun. inversion Hrun; subst. apply no_record_quiet.
    split; reflexivity.
  - apply silent_bind; [apply Hset | intros _; exact IH].
Qed.

Lemma silent_EnginesWrapper_getitem l key : silent (EnginesWrapper_getitem l key).
Proof.
  unfold EnginesWrapper_getitem, EnginesWrapper_engines. silent_tac.
Qed.

Lemma silent_ci_query (engine : loc) g_scanners q :
  Forall (fun g => forall mol, silent (scan g mol)) g_scanners ->
  silent (ci_query engine g_scanners q).
Proof.
  intros Hscan. destruct q as [key mol]. unfold ci_query.
  apply silent_bind; [apply silent_get_obj | intros obj].
  destruct obj; try apply silent_raise.
  apply silent_bind; [apply silent_EnginesWrapper_getitem | intros engine_i].
  apply silent_bind; [apply silent_get_obj | intros obj_i].
  destruct obj_i; try apply silent_raise.
  unfold bind at 1. unfold lift at 1.
  destruct (py_index g_scanners (Z.of_nat scanner)) as [g |] eqn:Hg.
  - assert (Hin : g ∈ g_scanners).
    { unfold py_index in Hg. cbv zeta in Hg.
      destruct (_ || _); [discriminate |].
      destruct (g_scanners !! _) eqn:Hl; inversion Hg; subst.
      eapply list_elem_of_lookup_2. exact Hl. }
    rewrite Forall_forall in Hscan. apply (Hscan g Hin mol).
  - intros w o w' Hrun. inversion Hrun; subst. apply no_record_refl.
Qed.

Lemma silent_remove_temporary_files tmpf : silent (remove_temporary_files tmpf).
Proof. unfold remove_temporary_files. silent_tac. Qed.

Lemma silent_engine_mol l : silent (engine_mol l).
Proof. unfold engine_mol. silent_tac. Qed.

Lemma silent_PySCFEngine_init g_scanners i : silent (PySCFEngine_init g_scanners i).
Proof. unfold PySCFEngine_init. silent_tac. Qed.

Lemma silent_PySCFEngine_M l : silent (PySCFEngine_M l).
Proof. unfold PySCFEngine_M. silent_tac. Qed.

(** The loop over the methods of [optimize_ci], when each method is one
    with a [nuc_grad_method] whose function is silent: the new scanners
    are no accumulators, and calling them is silent. *)
Lemma scanners_loop_silent include_ghost (methods : list Method) :
  Forall (fun m => exists gr, m = MNucGradMethod gr /\
                              forall mol, silent (grad_scan gr mol)) methods ->
  forall w o w',
    for_each methods (collect_scanner X include_ghost) [] w = (o, w') ->
    no_record w w' /\
    forall g_scanners,
      o = Return g_scanners ->
      Forall (fun g => forall mol, silent (scan g mol)) g_scanners.
Proof.
  intros Hmethods w o w' Hrun.
  assert (Hall : Forall (fun m => has_gradients m = true) methods).
  { eapply Forall_impl; [exact Hmethods |]. intros m (gr & -> & _). reflexivity. }
  assert (Hown : own_scanners methods = []).
  { clear -Hmethods. induction Hmethods as [| m methods (gr & -> & _) _ IH];
      [reflexivity | exact IH]. }
  destruct (collect_scanners_run include_ghost methods Hall [] w)
    as (new & wl & Hloop & Hfor & _ & Ht & _ & _ & _ & Hkeep & _ & Hdiff).
  rewrite Hloop in Hrun. inversion Hrun; subst o wl; clear Hrun. split.
  - split; [| exists []; rewrite app_nil_r; split; [exact Ht | constructor]].
    intros l. unfold results_at.
    destruct (heap w !! l) as [obj |] eqn:Hobj.
    + rewrite Hkeep, Hobj; [reflexivity | | congruence].
      left. rewrite Hown. apply not_elem_of_nil.
    + destruct (Hdiff l) as [-> | [a ->]]; [rewrite Hobj |]; reflexivity.
  - intros g_scanners Heq. inversion Heq; subst g_scanners. simpl.
    clear -Hmethods Hfor. induction Hfor as [| m g methods new Hmg _ IH].
    + constructor.
    + inversion Hmethods as [| ? ? (gr & -> & Hsilent) Hrest]; subst.
      constructor; [| apply IH; exact Hrest].
      destruct Hmg as [Hscan _]. intros mol. rewrite Hscan. apply Hsilent.
Qed.

(** [optimize_ci] over methods that neither record nor call the solver
    does neither. *)
Lemma optimize_ci_silent methods assert_convergence include_ghost constraints
    callback maxsteps alpha sigma kwargs :
  Forall (fun m => exists gr, m = MNucGradMethod gr /\
                              forall mol, silent (grad_scan gr mol)) methods ->
  silent (optimize_ci X methods assert_convergence include_ghost constraints
            callback maxsteps alpha sigma kwargs).
Proof.
  intros Hmethods w o w' Hrun. unfold optimize_ci in Hrun.
  bind_inv Hrun.
  2:{ apply (scanners_loop_silent _ _ Hmethods) in Hrun as [Hrec _].
      exact Hrec. }
  apply (scanners_loop_silent _ _ Hmethods) in Hc as [Hrec Hscan].
  specialize (Hscan _ eq_refl). rename a into g_scanners.
  eapply no_record_trans; [exact Hrec |]. clear Hrec.
  revert w0 o w' Hrun.
  match goal with
  | |- forall w o w', ?c w = (o, w') -> _ => change (silent c)
  end.
  apply silent_bind; [apply silent_read | intros tmpf].
  apply silent_bind; [apply silent_PySCFEngine_init | intros engine_1].
  apply silent_bind; [apply silent_PySCFEngine_init | intros engine_2].
  apply silent_bind; [apply silent_PySCFEngine_M | intros M_].
  cbv zeta.
  apply silent_bind; [apply silent_PySCFEngine_set_callback | intros _].
  apply silent_bind; [apply silent_alloc; intros r; discriminate | intros engine_list].
  apply silent_bind;
    [unfold EnginesWrapper_init; apply silent_alloc; intros r; discriminate
    | intros engines_wrapper].
  apply silent_bind; [apply silent_alloc; intros r; discriminate | intros engine].
  apply silent_bind; [apply silent_update_engine | intros _].
  apply silent_bind; [apply silent_lift | intros g0].
  apply silent_bind; [apply silent_update_engine | intros _].
  apply silent_bind; [apply silent_engine_mol | intros mol].
  apply silent_bind;
    [destruct (mol_symmetry X mol); [apply silent_update_engine | apply silent_ret]
    | intros _].
  apply silent_bind; [apply silent_update_engine | intros _].
  apply silent_bind; [| intros conv].
  - apply silent_try_except.
    + apply silent_bind; [| intros _; apply silent_ret].
      unfold call_run_optimizer.
      apply silent_bind; [apply silent_log; exact I | intros _].
      apply silent_bind; [apply (silent_read (fun w0 => run_optimizer X (heap w0) engine tmpf constraints _)) | intros strategy].
      apply silent_drive.
      * intros q. apply silent_ci_query, Hscan.
      * intros m. apply silent_update_engine.
    + intros e h Hh. destruct e; try discriminate. inversion Hh; subst.
      apply silent_bind; [apply silent_log; exact I | intros _; apply silent_ret].
  - apply silent_bind; [apply silent_remove_temporary_files | intros _].
    apply silent_bind; [apply silent_engine_mol | intros mol'].
    apply silent_ret.
Qed.

(** The intersection search records nothing.  Whatever its outcome,
    [ts_from_gfnff_ci_python] changes no accumulator and makes none, and
    the secular solver is never called: the two surfaces are the
    calculators' own. *)
Theorem intersection_search_never_records elements coordinates calculators
    e_shift maxsteps alpha sigma callback conv_params path w o w' :
  ts_from_gfnff_ci_python X elements coordinates calculators e_shift maxsteps
    alpha sigma callback conv_params path w = (o, w') ->
  (forall l, results_at w' l = results_at w l) /\
  exists evs, trace w' = trace w ++ evs /\ Forall not_solver evs.
Proof.
  revert w o w'.
  change (silent
            (ts_from_gfnff_ci_python X elements coordinates calculators e_shift
               maxsteps alpha sigma callback conv_params path)).
  unfold ts_from_gfnff_ci_python. cbv zeta.
  apply silent_bind; [| intros path'].
  { destruct path as [p |]; silent_tac. }
  apply silent_bind; [| intros mole].
  { intros w o w' Hrun.
    destruct (get_pyscf_mole_pure elements coordinates) as [omol Hmol].
    rewrite Hmol in Hrun. inversion Hrun; subst. apply no_record_refl. }
  apply silent_bind; [apply silent_lift | intros calculator_0].
  apply silent_bind; [apply silent_lift | intros calculator_1].
  apply silent_bind; [| intros [conv opt_mole]; apply silent_ret].
  apply optimize_ci_silent.
  constructor; [| constructor; [| constructor]];
    (eexists; split; [reflexivity |]); intros mol; simpl;
    apply silent_e_g_function_ci_python.
Qed.

(** ** The intersection search, from start to end *)

Lemma PySCFEngine_init_run g_scanners (i : nat) g w :
  py_index g_scanners (Z.of_nat i) = Return g ->
  forall l w',
    alloc (PyPySCFEngine i (scanner_mol g) None) w = (Return l, w') ->
    PySCFEngine_init g_scanners i w = (Return l, w').
Proof.
  intros Hg l w' Halloc. unfold PySCFEngine_init, bind, lift. rewrite Hg.
  exact Halloc.
Qed.

Lemma PySCFEngine_M_run (engine : loc) w i m cb :
  heap w !! engine = Some (PyPySCFEngine i m cb) ->
  PySCFEngine_M engine w = (Return m, w).
Proof.
  intros Hobj. unfold PySCFEngine_M, bind, get_obj. rewrite Hobj. reflexivity.
Qed.

Lemma PySCFEngine_set_callback_run (engine : loc) callback w i m cb :
  heap w !! engine = Some (PyPySCFEngine i m cb) ->
  PySCFEngine_set_callback engine callback w =
  (Return tt, set_heap (<[engine := PyPySCFEngine i m callback]> (heap w)) w).
Proof.
  intros Hobj. unfold PySCFEngine_set_callback, bind, get_obj, put_obj.
  rewrite Hobj. reflexivity.
Qed.

Lemma engine_mol_run (engine : loc) w e m :
  heap w !! engine = Some (PyConicalIntersection e) ->
  ci_mol e = Some m ->
  engine_mol engine w = (Return m, w).
Proof.
  intros Hobj Hm. unfold engine_mol, bind, get_obj. rewrite Hobj, Hm.
  reflexivity.
Qed.

Lemma update_engine_run (engine : loc) (f : CIEngine -> CIEngine) w e :
  heap w !! engine = Some (PyConicalIntersection e) ->
  update_engine engine f w =
  (Return tt, set_heap (<[engine := PyConicalIntersection (f e)]> (heap w)) w).
Proof.
  intros Hobj. unfold update_engine, bind, get_obj, put_obj. rewrite Hobj.
  reflexivity.
Qed.

(** The run of [optimize_ci] from the end of the loop over the methods to
    the optimiser: five objects are made on top of what the loop left,
    and the rest of the run is the optimiser's, in the world with them. *)
Lemma optimize_ci_prelude methods assert_convergence include_ghost
    constraints callback maxsteps alpha sigma kwargs w g_scanners wl g1 g2 :
  for_each methods (collect_scanner X include_ghost) [] w
  = (Return g_scanners, wl) ->
  g_scanners !! 0%nat = Some g1 -> g_scanners !! 1%nat = Some g2 ->
  exists e1 e2 lst wr eng,
    NoDup [e1; e2; lst; wr; eng] /\
    Forall (fun l => heap wl !! l = None) [e1; e2; lst; wr; eng] /\
    optimize_ci X methods assert_convergence include_ghost constraints callback
      maxsteps alpha sigma kwargs w =
    ci_run X eng g_scanners (mktemp_name X (TMPDIR X) (fs wl)) constraints
      (<["logIni" := AnyPath (joinpath (parent (module_file X)) "log.ini")]>
         kwargs)
      (set_heap
         (ci_objects X (heap wl) e1 e2 lst wr eng g1 g2 assert_convergence
            callback maxsteps alpha sigma) wl).
Proof.
  intros Hloop Hg1 Hg2.
  set (gs := g_scanners) in *.
  set (mol1 := scanner_mol g1).
  (* the five new objects *)
  set (E1 := PyPySCFEngine 0 mol1 None).
  destruct (alloc_fresh E1 wl) as (e1 & Ha1 & Hn1).
  set (w1 := set_heap (<[e1 := E1]> (heap wl)) wl) in *.
  set (E2 := PyPySCFEngine 1 (scanner_mol g2) None).
  destruct (alloc_fresh E2 w1) as (e2 & Ha2 & Hn2).
  set (w2 := set_heap (<[e2 := E2]> (heap w1)) w1) in *.
  set (E1' := PyPySCFEngine 0 mol1 callback).
  set (w3 := set_heap (<[e1 := E1']> (heap w2)) w2) in *.
  destruct (alloc_fresh (PyList [e1; e2]) w3) as (lst & Ha3 & Hn3).
  set (w4 := set_heap (<[lst := PyList [e1; e2]]> (heap w3)) w3) in *.
  destruct (alloc_fresh (PyEnginesWrapper lst) w4) as (wr & Ha4 & Hn4).
  set (w5 := set_heap (<[wr := PyEnginesWrapper lst]> (heap w4)) w4) in *.
  set (C0 := mkCIEngine mol1 wr sigma alpha None None None).
  destruct (alloc_fresh (PyConicalIntersection C0) w5) as (eng & Ha5 & Hn5).
  set (w6 := set_heap (<[eng := PyConicalIntersection C0]> (heap w5)) w5) in *.
  (* they are new, and different from one another *)
  simpl in Hn2, Hn3, Hn4, Hn5.
  apply lookup_insert_None in Hn2 as [Hn2 H21].
  apply lookup_insert_None in Hn3 as [Hn3 H31].
  apply lookup_insert_None in Hn3 as [Hn3 H32].
  apply lookup_insert_None in Hn3 as [Hn3 _].
  apply lookup_insert_None in Hn4 as [Hn4 H43].
  apply lookup_insert_None in Hn4 as [Hn4 H41].
  apply lookup_insert_None in Hn4 as [Hn4 H42].
  apply lookup_insert_None in Hn4 as [Hn4 _].
  apply lookup_insert_None in Hn5 as [Hn5 H54].
  apply lookup_insert_None in Hn5 as [Hn5 H53].
  apply lookup_insert_None in Hn5 as [Hn5 H51].
  apply lookup_insert_None in Hn5 as [Hn5 H52].
  apply lookup_insert_None in Hn5 as [Hn5 _].
  exists e1, e2, lst, wr, eng.
  split.
  { repeat constructor; rewrite ?elem_of_cons, ?elem_of_nil; intuition congruence. }
  split; [repeat constructor; assumption |].
  (* the run up to the optimiser *)
  unfold optimize_ci. rewrite (bind_Return _ _ _ _ _ Hloop).
  rewrite (bind_Return
             (fun w0 => (Return (mktemp_name X (TMPDIR X) (fs w0)), w0))
             _ wl _ wl eq_refl).
  rewrite (bind_Return _ _ _ _ _
             (PySCFEngine_init_run gs 0 g1 wl (py_index_lookup gs 0 g1 Hg1)
                e1 w1 Ha1)).
  rewrite (bind_Return _ _ _ _ _
             (PySCFEngine_init_run gs 1 g2 w1 (py_index_lookup gs 1 g2 Hg2)
                e2 w2 Ha2)).
  assert (H1 : heap w2 !! e1 = Some E1).
  { simpl. rewrite lookup_insert_ne by congruence. apply lookup_insert_eq. }
  rewrite (bind_Return _ _ _ _ _ (PySCFEngine_M_run _ _ _ _ _ H1)).
  cbv zeta.
  rewrite (bind_Return _ _ _ _ _
             (PySCFEngine_set_callback_run _ callback _ _ _ _ H1)).
  fold E1' w3.
  rewrite (bind_Return _ _ _ _ _ Ha3).
  unfold EnginesWrapper_init. rewrite (bind_Return _ _ _ _ _ Ha4).
  fold C0. rewrite (bind_Return _ _ _ _ _ Ha5).
  assert (H6 : heap w6 !! eng = Some (PyConicalIntersection C0))
    by apply lookup_insert_eq.
  rewrite (bind_Return _ _ _ _ _ (update_engine_run _ _ _ _ H6)).
  match goal with
  | |- bind (lift (py_index gs 0)) _ ?wx = _ =>
      rewrite (bind_Return (lift (py_index gs 0)) _ wx g1 wx
                 (f_equal (fun o => (o, wx)) (py_index_lookup gs 0 g1 Hg1)))
  end.
  match goal with
  | |- bind (update_engine eng ?f) _ ?wx = _ =>
      assert (H7 : heap wx !! eng =
                   Some (PyConicalIntersection (set_ci_maxsteps maxsteps C0)))
        by apply lookup_insert_eq;
      rewrite (bind_Return _ _ _ _ _ (update_engine_run _ f _ _ H7))
  end.
  match goal with
  | |- bind (engine_mol eng) _ ?wx = _ =>
      assert (Hm : heap wx !! eng =
                   Some (PyConicalIntersection
                           (set_ci_mol mol1 (set_ci_maxsteps maxsteps C0))))
        by apply lookup_insert_eq;
      rewrite (bind_Return _ _ _ _ _ (engine_mol_run _ _ _ mol1 Hm eq_refl))
  end.
  assert (Hheap :
            forall C : CIEngine,
              <[eng := PyConicalIntersection C]>
                (<[wr := PyEnginesWrapper lst]>
                   (<[lst := PyList [e1; e2]]>
                      (<[e1 := E1']> (<[e2 := E2]> (<[e1 := E1]> (heap wl))))))
              = <[eng := PyConicalIntersection C]>
                  (<[wr := PyEnginesWrapper lst]>
                     (<[lst := PyList [e1; e2]]>
                        (<[e2 := E2]> (<[e1 := E1']> (heap wl)))))).
  { intros C. do 3 f_equal.
    rewrite (insert_insert_ne _ e1 e2) by congruence.
    rewrite insert_insert_eq. reflexivity. }
  destruct (mol_symmetry X mol1) eqn:Hsym.
  - match goal with
    | |- bind (update_engine eng ?f) _ ?wx = _ =>
        assert (H8 : heap wx !! eng =
                     Some (PyConicalIntersection
                             (set_ci_mol mol1 (set_ci_maxsteps maxsteps C0))))
          by apply lookup_insert_eq;
        rewrite (bind_Return _ _ _ _ _ (update_engine_run _ f _ _ H8))
    end.
    match goal with
    | |- bind (update_engine eng ?f) _ ?wx = _ =>
        assert (H9 : heap wx !! eng =
                     Some (PyConicalIntersection
                             (set_ci_mol (mol_pin_symmetry X mol1)
                                (set_ci_mol mol1
                                   (set_ci_maxsteps maxsteps C0)))))
          by apply lookup_insert_eq;
        rewrite (bind_Return _ _ _ _ _ (update_engine_run _ f _ _ H9))
    end.
    unfold ci_run, ci_objects. fold mol1. rewrite Hsym.
    unfold set_heap. simpl. rewrite !insert_insert_eq.
    rewrite Hheap. reflexivity.
  - rewrite (bind_Return _ _ _ _ _ (eq_refl : ret tt _ = (Return tt, _))).
    match goal with
    | |- bind (update_engine eng ?f) _ ?wx = _ =>
        assert (H8 : heap wx !! eng =
                     Some (PyConicalIntersection
                             (set_ci_mol mol1 (set_ci_maxsteps maxsteps C0))))
          by apply lookup_insert_eq;
        rewrite (bind_Return _ _ _ _ _ (update_engine_run _ f _ _ H8))
    end.
    unfold ci_run, ci_objects. fold mol1. rewrite Hsym.
    unfold set_heap. simpl. rewrite !insert_insert_eq.
    rewrite Hheap. reflexivity.
Qed.









(** What [optimize_ci] has done when it calls the optimiser.  Given at
    least two methods, all with gradients, the loop has taken a scanner
    for each method, in their order, and left the files and the trace
    alone; between the caller's heap and the one the loop leaves only
    scanner objects differ, and an object that was there is as it was
    unless it is one of the caller's scanners and the ghost atoms are
    left out.  On top of that heap [optimize_ci] has made five objects,
    different from one another: an engine for each of the first two
    scanners, the callback set on the first engine only, the list of the
    two engines, its wrapper, and the intersection engine over them with
    [sigma], [alpha], [maxsteps], [assert_convergence] and the molecule of
    the first scanner, its symmetry pinned when it has one.  The optimiser
    is then given this engine, the name [tempfile.mktemp] chose, the
    constraints, and the keyword arguments with [logIni] set to the
    [log.ini] next to the module, whatever the caller gave under that
    key. *)
Theorem optimize_ci_builds_engines methods assert_convergence include_ghost
    constraints callback maxsteps alpha sigma kwargs w :
  (2 <= length methods)%nat ->
  Forall (fun m => has_gradients m = true) methods ->
  exists g_scanners wl g1 g2 e1 e2 lst wr eng,
    Forall2 scanner_for methods g_scanners /\
    g_scanners !! 0%nat = Some g1 /\ g_scanners !! 1%nat = Some g2 /\
    fs wl = fs w /\ trace wl = trace w /\
    (forall l,
       heap wl !! l = heap w !! l \/
       exists a, heap wl !! l = Some (PyGradScanner a)) /\
    (forall l,
       l ∉ own_scanners methods \/ include_ghost = true ->
       heap w !! l <> None -> heap wl !! l = heap w !! l) /\
    NoDup [e1; e2; lst; wr; eng] /\
    Forall (fun l => heap wl !! l = None) [e1; e2; lst; wr; eng] /\
    optimize_ci X methods assert_convergence include_ghost constraints callback
      maxsteps alpha sigma kwargs w =
    ci_run X eng g_scanners (mktemp_name X (TMPDIR X) (fs w)) constraints
      (<["logIni" := AnyPath (joinpath (parent (module_file X)) "log.ini")]>
         kwargs)
      (set_heap
         (ci_objects X (heap wl) e1 e2 lst wr eng g1 g2 assert_convergence
            callback maxsteps alpha sigma) wl).
Proof.
  intros Hlen Hall.
  destruct (collect_scanners_run include_ghost methods Hall [] w)
    as (g_scanners & wl & Hloop & Hfor & Hfs & Ht & _ & _ & _ & Hkeep & _
        & Hdiff).
  simpl in Hloop. pose proof (Forall2_length _ _ _ Hfor) as Hsame.
  destruct g_scanners as [| g1 [| g2 rest]]; simpl in Hsame; try lia.
  destruct (optimize_ci_prelude methods assert_convergence include_ghost
              constraints callback maxsteps alpha sigma kwargs w
              (g1 :: g2 :: rest) wl g1 g2 Hloop eq_refl eq_refl)
    as (e1 & e2 & lst & wr & eng & Hnd & Hnew & Heq).
  rewrite Hfs in Heq.
  exists (g1 :: g2 :: rest), wl, g1, g2, e1, e2, lst, wr, eng.
  repeat (split; [first [assumption | reflexivity] |]). exact Heq.
Qed.

End Proofs.

(** * The properties at work in the concrete world *)

Section Witnesses.

#[local] Existing Instance Example.foreign.
Import Example.


(** Three invocations of either bridge on a new accumulator: every list
    has three entries. *)
Lemma accumulator_one_entry_per_invocation_witness :
  (exists r',
     results_at
       (snd (invocations (e_g_partial X bridge_xtb results e_shift coupling)
               [mol; mol; mol] w0)) results = Some r' /\
     extends OptResults_new r' /\
     sizes r' = [3; 3; 3; 3; 3; 3]%nat) /\
  (exists r',
     results_at
       (snd (invocations (e_g_partial X bridge_python results e_shift coupling)
               [mol; mol; mol] w0)) results = Some r' /\
     extends OptResults_new r' /\
     sizes r' = [3; 3; 3; 3; 3; 3]%nat).
Proof.
  assert (Hr : results_at w0 results = Some OptResults_new)
    by (vm_compute; reflexivity).
  split.
  - destruct (accumulator_one_entry_per_invocation X bridge_xtb results
                e_shift coupling w0 OptResults_new Hr) as (_ & Hseq & _).
    apply (Hseq [mol; mol; mol]). vm_compute. reflexivity.
  - destruct (accumulator_one_entry_per_invocation X bridge_python results
                e_shift coupling w0 OptResults_new Hr) as (_ & Hseq & _).
    apply (Hseq [mol; mol; mol]). vm_compute. reflexivity.
Defined.

(** C2, as stated, fails.  The second calculator raises: the bridge was
    invoked once, the invocation raises, and every list of the accumulator
    is as empty as before.  So not every invocation appends an entry. *)
Lemma failed_invocation_is_not_recorded_counterexample :
  (fst run_broken = Raise (ExternalError "xtb") /\
   bridge_invocations (trace (snd run_broken)) = 1%nat /\
   option_map sizes (results_at (snd run_broken) results)
   = Some [0; 0; 0; 0; 0; 0]%nat) /\
  ~ (forall (b : Bridge) mol w o w' r,
       e_g_partial X b results e_shift coupling mol w = (o, w') ->
       results_at w results = Some r ->
       exists r', results_at w' results = Some r' /\
                  sizes r' = map S (sizes r)).
Proof.
  split; [repeat split; vm_compute; reflexivity |].
  intros Hclaim.
  destruct (Hclaim (BridgePython [calculator_1; calculator_broken] None) mol w0
              (fst run_broken) (snd run_broken) OptResults_new)
    as (r' & Hr' & Hsizes).
  - apply surjective_pairing.
  - vm_compute. reflexivity.
  - vm_compute in Hr'. inversion Hr'; subst r'. vm_compute in Hsizes.
    discriminate.
Qed.

(** A deep copy of the wrapper of the two calculators: a new wrapper, the
    same calculators. *)
Lemma EnginesWrapper_deepcopy_shares_witness :
  exists new w',
    EnginesWrapper_deepcopy wrapper memo w0 = (Return new, w') /\
    new <> wrapper /\
    (EnginesWrapper_getitem new 1 w').1 = Return calculator_2 /\
    (EnginesWrapper_len new w').1 = Return 2.
Proof.
  destruct (EnginesWrapper_deepcopy_shares wrapper memo w0 engine_list ∅)
    as (new & w' & Hrun & Hne & _ & _ & _ & _ & Hget & Hlen);
    [vm_compute; reflexivity | vm_compute; reflexivity |].
  exists new, w'. split; [exact Hrun |]. split; [exact Hne |]. split.
  - apply Hget. vm_compute. reflexivity.
  - apply Hlen. vm_compute. reflexivity.
Defined.

(** The stand-in for xtb writes [xtb.engrad] and nothing else. *)
Lemma writes_engrad_keeps_topologies : run_xtb_keeps X is_topology_file.
Proof.
  intros elements coordinates path keywords xcontrol_keywords f r f' Hrun q n Hq Hn.
  simpl in Hrun. unfold writes_engrad in Hrun. inversion Hrun; subst.
  rewrite lookup_insert_ne; [exact Hn |]. intros <-.
  unfold is_topology_file, joinpath in Hq. rewrite last_snoc in Hq.
  discriminate.
Qed.

(** The topology file that was in [work/0] is as it was after an
    invocation; the one missing from [work/1] has been written. *)
Lemma staging_never_overwrites_witness :
  fs w1 !! ["work"; "0"; "gfnff_topo"] = Some (File []) /\
  fs w1 !! ["work"; "1"; "gfnff_topo"] = Some (File [Byte.x03]).
Proof.
  split; [| vm_compute; reflexivity].
  destruct (staging_never_overwrites X is_topology_file
              writes_engrad_keeps_topologies) as [Hone _].
  apply (Hone mol topologies results None None e_shift coupling
           (Some (PathObj ["work"])) w0
           (fst (e_g_partial X bridge_xtb results e_shift coupling mol w0)) w1
           ["work"; "0"; "gfnff_topo"] (File [])).
  - apply surjective_pairing.
  - reflexivity.
  - vm_compute. reflexivity.
  - discriminate.
Defined.

(** The solver of an invocation of either bridge over the two states gets
    the second energy shifted, as the last event. *)
Lemma shift_on_last_state_before_solver_witness :
  (exists evs en,
     trace w1 =
       trace w0 ++ EvBridge mol :: evs ++
         [EvSolver en (map snd (evaluator_results evs)) coupling] /\
     Forall evaluator_call evs /\
     length (evaluator_results evs) = n_states bridge_xtb /\
     shifted_last (map fst (evaluator_results evs)) e_shift en) /\
  (exists evs en,
     trace (snd run_python) =
       trace w0 ++ EvBridge mol :: evs ++
         [EvSolver en (map snd (evaluator_results evs)) coupling] /\
     Forall evaluator_call evs /\
     length (evaluator_results evs) = n_states bridge_python /\
     shifted_last (map fst (evaluator_results evs)) e_shift en).
Proof.
  split.
  - apply (proj2 (shift_on_last_state_before_solver X bridge_xtb results
                    e_shift coupling mol w0
                    (fst (e_g_partial X bridge_xtb results e_shift coupling
                            mol w0)) w1 (surjective_pairing _))).
    vm_compute. reflexivity.
  - apply (proj2 (shift_on_last_state_before_solver X bridge_python results
                    e_shift coupling mol w0 (fst run_python) (snd run_python)
                    (surjective_pairing _))).
    vm_compute. reflexivity.
Defined.


(** Both drivers, asked for a solver named bfgs, in a directory that can
    be made. *)
Lemma unknown_solver_is_unbound_witness :
  fst (ts_from_gfnff X [inr "H"; inr "H"] mol topologies None None e_shift
         coupling 10 None None "bfgs" (Some (PathObj ["work"])) w0)
  = Raise (UnboundLocalError "pyscf_solver") /\
  fst (ts_from_gfnff_python X [inr "H"; inr "H"] mol
         [calculator_1; calculator_2] e_shift coupling 10 None None "bfgs"
         (Some (PathObj ["work"])) w0)
  = Raise (UnboundLocalError "pyscf_solver").
Proof.
  destruct (unknown_solver_is_unbound X "bfgs" [inr "H"; inr "H"] mol topologies
              None None [calculator_1; calculator_2] e_shift coupling 10 None
              None (Some (PathObj ["work"])) w0)
    as (_ & (w1' & Hrun1 & _) & (w2' & Hrun2 & _));
    [discriminate | discriminate |].
  rewrite Hrun1, Hrun2. split; vm_compute; reflexivity.
Defined.

(** C9, as stated, fails.  With a solver named bfgs and a directory whose
    parent is missing, both drivers raise FileNotFoundError, from
    [path.mkdir(exist_ok=True)]: the selection of the solver is not
    reached, and the exception is not the unbound-variable error. *)
Lemma unknown_solver_missing_directory_counterexample :
  (fst (ts_from_gfnff X [inr "H"; inr "H"] mol topologies None None e_shift
          coupling 10 None None "bfgs" nested w0)
   = Raise (FileNotFoundError ["work"; "a"; "b"]) /\
   fst (ts_from_gfnff_python X [inr "H"; inr "H"] mol
          [calculator_1; calculator_2] e_shift coupling 10 None None "bfgs"
          nested w0)
   = Raise (FileNotFoundError ["work"; "a"; "b"])) /\
  ~ (forall solver path w,
       solver <> "pyberny" -> solver <> "geometric" ->
       exists w',
         ts_from_gfnff X [inr "H"; inr "H"] mol topologies None None e_shift
           coupling 10 None None solver path w
         = (Raise (UnboundLocalError "pyscf_solver"), w')).
Proof.
  split; [split; vm_compute; reflexivity |].
  intros Hclaim.
  destruct (Hclaim "bfgs" nested w0) as [w' Hrun];
    [discriminate | discriminate |].
  apply (f_equal fst) in Hrun. vm_compute in Hrun. discriminate.
Qed.





(** C3 fails on the code when an evaluator fails.  The second surface's
    calculator raises during the intersection search, after geomeTRIC has
    made its two artifacts: [optimize_ci] lets the exception through, the
    block that removes the temporary files is not reached, and
    [<tmpf>_optim.xyz] and [<tmpf>.tmp], which did not exist before the run,
    are still there after it. *)
Theorem optimize_ci_failure_leaves_artifacts :
  let run := run_optimize_ci X calculator_broken in
  fst run = Raise (ExternalError "xtb") /\
  fs w0 !! ["tmp"; "geom_optim.xyz"] = None /\
  fs w0 !! ["tmp"; "geom.tmp"] = None /\
  fs (snd run) !! path_suffix ["tmp"; "geom"] "_optim.xyz" = Some (File []) /\
  fs (snd run) !! path_suffix ["tmp"; "geom"] ".tmp" = Some Dir.
Proof. vm_compute. repeat split. Qed.


(** ** The further properties at work *)

(** [e_g_function_ci] on the arguments of the invocation that led to [w1]. *)
Lemma e_g_function_ci_never_returns_witness :
  fst (e_g_function_ci X mol topologies results None None e_shift
         (Some (PathObj ["work"])) w0)
  = Raise (NameError "coupling").
Proof.
  destruct (e_g_function_ci_never_returns X mol topologies results None None
              e_shift (Some (PathObj ["work"])) w0 _ _ (surjective_pairing _))
    as (_ & _ & _ & Hname).
  apply (Hname coupling
           (fst (e_g_partial X bridge_xtb results e_shift coupling mol w0)) w1
           (removelast (trace w1)) solver_energies solver_gradients).
  - apply surjective_pairing.
  - vm_compute. reflexivity.
Defined.

(** The geometry the invocation that led to [w1] recorded. *)
Lemma bridge_record_content_witness :
  exists r',
    results_at w1 results = Some r' /\
    coordinates r' = [[[0; 0; 0]; [0; 0; 0.75]]]%float /\
    stdout r' = "".
Proof.
  set (r' := default OptResults_new (results_at w1 results)).
  destruct (bridge_record_content X bridge_xtb results e_shift coupling mol w0
              (fst (e_g_partial X bridge_xtb results e_shift coupling mol w0))
              w1 OptResults_new r')
    as (evs & en & en_ad & gr_ad & idx & _ & _ & _ & Hco & _ & _ & _ & _ & _
        & Hout & _).
  - apply surjective_pairing.
  - vm_compute. reflexivity.
  - vm_compute. reflexivity.
  - vm_compute. discriminate.
  - exists r'. split; [vm_compute; reflexivity |].
    split; [rewrite Hco; vm_compute; reflexivity | rewrite Hout; reflexivity].
Defined.

(** With a solver that gives one state, the invocation raises IndexError
    and the record is there. *)
Lemma bridge_short_solver_output_witness :
  fst run_one_state = Raise IndexError /\
  option_map sizes (results_at (snd run_one_state) results)
  = Some [1; 1; 1; 1; 1; 1]%nat.
Proof.
  destruct (bridge_short_solver_output X_one_state bridge_python results
              e_shift coupling mol w0 (fst run_one_state) (snd run_one_state)
              OptResults_new (removelast (trace (snd run_one_state)))
              [0; 0.375]%float [flat; flat] coupling [0]%float [flat] [0])
    as [Ho Hr].
  - reflexivity.
  - apply surjective_pairing.
  - vm_compute. reflexivity.
  - vm_compute. reflexivity.
  - vm_compute. reflexivity.
  - left. simpl. lia.
  - split; [exact Ho |]. rewrite Hr. reflexivity.
Defined.

(** The invocation that led to [w1], call by call. *)
Lemma e_g_function_runs_every_state_witness :
  exists rs en,
    length rs = length topologies /\
    iadd_last (map fst rs) e_shift = Return en /\
    trace w1 =
      trace w0 ++ EvBridge mol ::
        concat (zip_with
                  (xtb_state_events (atom_charges X mol)
                     (array_mul (atom_coords X mol) (BOHR_TO_ANGSTROM X))
                     (normalize_keywords X None ∪ {["--grad"]}) None)
                  (map (fun i : nat =>
                          joinpath (Path_of X (PathObj ["work"])) (pretty i))
                     (seq 0 (length topologies))) rs) ++
        [EvSolver en (map snd rs) coupling].
Proof.
  apply (e_g_function_runs_every_state X mol topologies results None None
           e_shift coupling (PathObj ["work"]) w0
           (0.375, [[0; 0; 0]])%float w1).
  vm_compute. reflexivity.
Defined.

(** An invocation in temporary directories: two of them, gone at the end. *)
Lemma e_g_function_temporary_directories_witness :
  exists dirs rs en,
    length dirs = length topologies /\ NoDup dirs /\
    (forall d, d ∈ dirs ->
       path_exists (fs w0) d = false /\
       path_exists (fs (snd run_temporary)) d = false) /\
    length rs = length topologies /\
    trace (snd run_temporary) =
      trace w0 ++ EvBridge mol ::
        concat (zip_with
                  (xtb_state_events (atom_charges X mol)
                     (array_mul (atom_coords X mol) (BOHR_TO_ANGSTROM X))
                     (normalize_keywords X None ∪ {["--grad"]}) None)
                  dirs rs) ++
        [EvSolver en (map snd rs) coupling].
Proof.
  apply (e_g_function_temporary_directories X mol topologies results None None
           e_shift coupling w0 (0.375, [[0; 0; 0]])%float (snd run_temporary)).
  vm_compute. reflexivity.
Defined.

(** An invocation over the two calculators, call by call. *)
Lemma e_g_function_python_asks_every_calculator_witness :
  exists rs en,
    length rs = length [calculator_1; calculator_2] /\
    iadd_last (map fst rs) e_shift = Return en /\
    trace (snd run_python) =
      trace w0 ++ EvBridge mol ::
        concat (zip_with
                  (calculator_state_events
                     (array_mul (atom_coords X mol) (BOHR_TO_ANGSTROM X)))
                  [calculator_1; calculator_2] rs) ++
        [EvSolver en (map snd rs) coupling].
Proof.
  apply (e_g_function_python_asks_every_calculator X mol
           [calculator_1; calculator_2] results e_shift coupling None w0
           (0.375%float, flat) (snd run_python)).
  vm_compute. reflexivity.
Defined.

(** The second surface of an intersection search, at the geometry [mol]. *)
Lemma e_g_function_ci_python_run_witness :
  fst (e_g_function_ci_python X mol calculator_2 e_shift None w0)
  = Return (0.375%float, flat).
Proof.
  pose proof (e_g_function_ci_python_run X mol calculator_2
                (mkCalculator 0.125%float false []) e_shift None w0) as Hrun.
  cbv zeta in Hrun. rewrite Hrun; [reflexivity |].
  vm_compute. reflexivity.
Defined.

(** The second calculator fails: the invocation raises what it raised. *)
Lemma evaluator_failure_is_fatal_witness :
  fst run_broken = Raise (ExternalError "xtb") /\
  results_at (snd run_broken) results = results_at w0 results.
Proof.
  destruct (evaluator_failure_is_fatal X
              (BridgePython [calculator_1; calculator_broken] None) results
              e_shift coupling mol w0 (fst run_broken) (snd run_broken)
              (trace (snd run_broken))
              (EvSp calculator_broken (Raise (ExternalError "xtb")))
              (ExternalError "xtb")) as (Ho & _ & Hres).
  - apply surjective_pairing.
  - reflexivity.
  - apply list_elem_of_lookup. exists 4%nat. vm_compute. reflexivity.
  - reflexivity.
  - split; [exact Ho | apply Hres].
Defined.

(** The streams after a run of [ts_from_gfnff]. *)
Lemma drivers_restore_streams_witness :
  sys_stdout (snd run_ts_from_gfnff) = sys_stdout w0 /\
  sys_stderr (snd run_ts_from_gfnff) = sys_stderr w0.
Proof.
  apply (proj1 (drivers_restore_streams X) [inr "H"; inr "H"] mol topologies
           None None e_shift coupling 10 None None "geometric"
           (Some (PathObj ["work"])) w0 (fst run_ts_from_gfnff)).
  apply surjective_pairing.
Defined.

(** The accumulator of a run of [ts_from_gfnff] is new, and the one that
    was in [w0] is as it was. *)
Lemma drivers_return_new_accumulator_witness :
  heap w0 !! new_results = None /\
  results_at (snd run_ts_from_gfnff) results = Some OptResults_new.
Proof.
  destruct (proj1 (drivers_return_new_accumulator X) [inr "H"; inr "H"] mol
              topologies None None e_shift coupling 10 None None "geometric"
              (Some (PathObj ["work"])) w0 new_results (snd run_ts_from_gfnff))
    as [Hnew Hframe].
  - vm_compute. reflexivity.
  - split; [exact Hnew |]. apply Hframe. vm_compute. reflexivity.
Defined.

(** The accumulator of a run of [ts_from_gfnff_python]. *)
Lemma drivers_record_every_invocation_witness :
  exists r evs,
    trace (snd run_ts_from_gfnff_python) = trace w0 ++ evs /\
    results_at (snd run_ts_from_gfnff_python) new_results = Some r /\
    sizes r = replicate 6 (bridge_invocations evs).
Proof.
  apply (proj1 (drivers_record_every_invocation X) [inr "H"; inr "H"] mol
           [calculator_1; calculator_2] e_shift coupling 10 None None
           "pyberny" None w0 new_results (snd run_ts_from_gfnff_python)).
  vm_compute. reflexivity.
Defined.

(** The accumulator of a run of [ts_from_gfnff]. *)
Lemma ts_from_gfnff_accumulator_witness :
  exists r evs,
    trace (snd run_ts_from_gfnff) = trace w0 ++ evs /\
    results_at (snd run_ts_from_gfnff) new_results = Some r /\
    sizes r = replicate 6 (bridge_invocations evs).
Proof.
  apply (ts_from_gfnff_accumulator X [inr "H"; inr "H"] mol topologies None
           None e_shift coupling 10 None None "geometric"
           (Some (PathObj ["work"])) w0 new_results (snd run_ts_from_gfnff)).
  vm_compute. reflexivity.
Defined.

(** What the accumulator of a run of [ts_from_gfnff] holds of the output. *)
Lemma ts_from_gfnff_captures_output_witness :
  exists w2 r1,
    results_at (snd run_ts_from_gfnff) new_results =
    Some (set_stderr (sys_stderr w2) (set_stdout (sys_stdout w2) r1)).
Proof.
  destruct (ts_from_gfnff_captures_output X [inr "H"; inr "H"] mol topologies
              None None e_shift coupling 10 None None "geometric"
              (Some (PathObj ["work"])) w0 new_results (snd run_ts_from_gfnff))
    as (f0 & path' & mole & pyscf_solver & w2 & r1 & _ & _ & _ & _ & _ & Hr').
  - vm_compute. reflexivity.
  - exists w2, r1. exact Hr'.
Defined.

(** A search over a scanner of the caller's and a method without
    gradients, with ghost atoms left out: the search raises, and the
    caller's scanner keeps the list of atoms line 581 gave it. *)
Lemma optimize_ci_needs_gradients_witness :
  exists w',
    optimize_ci X ([MGradScanner own_scanner] ++ MOther "HF" mol :: [])
      true false None None 10 0.03125%float 3.5%float ∅ w_scanner =
    (Raise (NotImplementedError
              ("Nuclear gradients of " +:+ "HF" +:+ " not available")), w') /\
    heap w_scanner !! scanner_object = Some (PyGradScanner None) /\
    heap w' !! scanner_object = Some (PyGradScanner (Some [0; 1]%Z)).
Proof.
  destruct (optimize_ci_needs_gradients X [MGradScanner own_scanner] "HF" mol
              [] true false None None 10 0.03125%float 3.5%float ∅ w_scanner)
    as (w' & Hrun & _ & _ & _ & _ & _ & Hset & _).
  - repeat constructor.
  - exists w'. split; [exact Hrun |]. split; [vm_compute; reflexivity |].
    change scanner_object with (scanner_self own_scanner).
    rewrite (Hset eq_refl (NoDup_singleton scanner_object) own_scanner).
    + vm_compute. reflexivity.
    + apply list_elem_of_singleton. reflexivity.
Defined.

(** The search over the two calculators, up to the call of the optimiser. *)
Lemma optimize_ci_builds_engines_witness :
  exists g_scanners wl g1 g2 e1 e2 lst wr eng,
    Forall2 scanner_for (ci_methods X calculator_2) g_scanners /\
    g_scanners !! 0%nat = Some g1 /\ g_scanners !! 1%nat = Some g2 /\
    fs wl = fs w0 /\ trace wl = trace w0 /\
    NoDup [e1; e2; lst; wr; eng] /\
    Forall (fun l => heap wl !! l = None) [e1; e2; lst; wr; eng] /\
    run_optimize_ci X calculator_2 =
    ci_run X eng g_scanners (mktemp_name X (TMPDIR X) (fs w0)) None
      (<["logIni" := AnyPath (joinpath (parent (module_file X)) "log.ini")]> ∅)
      (set_heap
         (ci_objects X (heap wl) e1 e2 lst wr eng g1 g2 true None 10
            0.03125%float 3.5%float) wl).
Proof.
  destruct (optimize_ci_builds_engines X (ci_methods X calculator_2) true true
              None None 10 0.03125%float 3.5%float ∅ w0)
    as (g_scanners & wl & g1 & g2 & e1 & e2 & lst & wr & eng & Hfor & Hg1 &
        Hg2 & Hfs & Htrace & _ & _ & Hnodup & Hfresh & Hrun).
  - simpl. lia.
  - repeat constructor.
  - exists g_scanners, wl, g1, g2, e1, e2, lst, wr, eng. auto 10.
Defined.

(** An intersection search over one calculator. *)
Lemma intersection_needs_two_surfaces_witness :
  fst (run_ci X [calculator_1]) = Raise IndexError.
Proof.
  destruct (proj2 (intersection_needs_two_surfaces X) [inr "H"; inr "H"] mol
              [calculator_1] e_shift 10 0.03125%float 3.5%float None None None
              w0 (fst (run_ci X [calculator_1])) (snd (run_ci X [calculator_1])))
    as (_ & _ & _ & Hidx).
  - simpl. lia.
  - apply surjective_pairing.
  - apply Hidx; [intros p Hp; discriminate | vm_compute; reflexivity].
Defined.

(** The wrapper of the two calculators, read from its end. *)
Lemma EnginesWrapper_is_list_like_witness :
  exists engine,
    [calculator_1; calculator_2] !! Z.to_nat 1 = Some engine /\
    EnginesWrapper_getitem wrapper 1 w0 = (Return engine, w0) /\
    EnginesWrapper_getitem wrapper (1 - 2) w0 = (Return engine, w0).
Proof.
  destruct (EnginesWrapper_is_list_like wrapper engine_list
              [calculator_1; calculator_2] w0) as (_ & Hget & _).
  - vm_compute. reflexivity.
  - vm_compute. reflexivity.
  - apply (Hget 1). simpl. lia.
Defined.

(** An intersection search that converges leaves no artifact. *)
Lemma optimize_ci_returns_clean_witness :
  path_exists (fs (snd (run_optimize_ci X calculator_2)))
    (path_suffix (mktemp_name X (TMPDIR X) (fs w0)) "_optim.xyz") = false /\
  path_exists (fs (snd (run_optimize_ci X calculator_2)))
    (path_suffix (mktemp_name X (TMPDIR X) (fs w0)) ".tmp") = false.
Proof.
  apply (optimize_ci_returns_clean X (ci_methods X calculator_2) true true None
           None 10 0.03125%float 3.5%float ∅ w0 true mol
           (snd (run_optimize_ci X calculator_2))).
  vm_compute. reflexivity.
Defined.

(** A search over the two calculators leaves the accumulator of [w0]. *)
Lemma intersection_search_never_records_witness :
  results_at (snd (run_ci X [calculator_1; calculator_2])) results
  = results_at w0 results.
Proof.
  apply (proj1 (intersection_search_never_records X [inr "H"; inr "H"] mol
                  [calculator_1; calculator_2] e_shift 10 0.03125%float
                  3.5%float None None None w0
                  (fst (run_ci X [calculator_1; calculator_2]))
                  (snd (run_ci X [calculator_1; calculator_2]))
                  (surjective_pairing _))).
Defined.

End Witnesses.
